(** * GoQuant order-book viewer: venue adapters and impact simulator

    A shallow embedding of [src/app/page.js]: the three venue adapters of
    [useOrderbookWebSocket] with the socket's message handler, the order
    form's validation, [calculateMetrics], [findSimulatedIndex] and the
    delayed submission of [handleSimulationSubmit]; then the life of the
    connections the hook's effect opens and closes, with the requests it
    sends, and what the order book tables and the depth chart show.

    Conventions of the embedding.
    - A JavaScript number is a [number]: a finite value, held as a canonical
      rational, or one of [Infinity], [-Infinity], [NaN].  Arithmetic on
      finite values is exact: the rounding and the overflow of IEEE doubles
      are not modelled, and neither is the sign of zero (the code divides
      only by [filledQty], a running sum that starts at [+0] and so is
      never [-0], and by operands it has tested to be [> 0]).  Where a
      statement about sums or products would not survive rounding, it is
      made for whole numbers up to 2^53 - 1 ([whole]), on which double
      precision is exact.
    - A JavaScript string is a [string] of bytes, and its length counts
      bytes (the code only asks whether a length is positive).
    - An exception is an explicit outcome: a computation that may throw
      returns a [result]. *)

From Stdlib Require Import ZArith QArith Qcanon Qcabs Qround.
From Stdlib Require Import Bool List String Ascii DecimalString Lia Lqa.
Import ListNotations.

Set Implicit Arguments.
Set Warnings "-register-all".

(** ** The host language: numbers, strings, values *)

Module JS.

(** *** Numbers *)

Inductive number : Type :=
| Fin (q : Qc)
| PInf
| NInf
| NaN.

Definition of_Z (z : Z) : number := Fin (Q2Qc (inject_Z z)).
Definition of_Q (q : Q) : number := Fin (Q2Qc q).

Definition zero : number := of_Z 0.

Definition Qc_sign (q : Qc) : comparison := Qccompare q (Q2Qc 0).

Definition neg (x : number) : number :=
  match x with
  | Fin q => Fin (Qcopp q)
  | PInf => NInf
  | NInf => PInf
  | NaN => NaN
  end.

Definition add (x y : number) : number :=
  match x, y with
  | NaN, _ | _, NaN => NaN
  | Fin a, Fin b => Fin (Qcplus a b)
  | PInf, NInf | NInf, PInf => NaN
  | PInf, _ | _, PInf => PInf
  | NInf, _ | _, NInf => NInf
  end.

Definition sub (x y : number) : number := add x (neg y).

(** [inf_signed s] is the infinity of sign [s]; a zero operand gives [NaN]. *)
Definition inf_signed (s : comparison) : number :=
  match s with
  | Gt => PInf
  | Lt => NInf
  | Eq => NaN
  end.

Definition sign_of (x : number) : comparison :=
  match x with
  | Fin q => Qc_sign q
  | PInf => Gt
  | NInf => Lt
  | NaN => Eq
  end.

Definition sign_mul (s t : comparison) : comparison :=
  match s, t with
  | Eq, _ | _, Eq => Eq
  | Gt, Gt | Lt, Lt => Gt
  | _, _ => Lt
  end.

Definition mul (x y : number) : number :=
  match x, y with
  | NaN, _ | _, NaN => NaN
  | Fin a, Fin b => Fin (Qcmult a b)
  | _, _ => inf_signed (sign_mul (sign_of x) (sign_of y))
  end.

(** Division: a finite non-zero value over zero is an infinity, [0/0] and
    [Infinity/Infinity] are [NaN], and a finite value over an infinity is
    zero.  A zero divisor counts as [+0]. *)
Definition div (x y : number) : number :=
  match x, y with
  | NaN, _ | _, NaN => NaN
  | Fin a, Fin b =>
      match Qc_sign b with
      | Eq => inf_signed (Qc_sign a)
      | _ => Fin (Qcdiv a b)
      end
  | Fin _, _ => zero
  | _, Fin b =>
      match Qc_sign b with
      | Lt => neg x
      | _ => x
      end
  | _, _ => NaN
  end.

(** [Math.abs]. *)
Definition abs (x : number) : number :=
  match x with
  | Fin q => Fin (Qcabs q)
  | PInf | NInf => PInf
  | NaN => NaN
  end.

(** The relational operators: every comparison with [NaN] is false. *)
Definition ltb (x y : number) : bool :=
  match x, y with
  | NaN, _ | _, NaN => false
  | Fin a, Fin b => match Qccompare a b with Lt => true | _ => false end
  | NInf, NInf | PInf, _ => false
  | NInf, _ => true
  | Fin _, PInf => true
  | Fin _, NInf => false
  end.

Definition eqb (x y : number) : bool :=
  match x, y with
  | Fin a, Fin b => match Qccompare a b with Eq => true | _ => false end
  | PInf, PInf | NInf, NInf => true
  | _, _ => false
  end.

Definition leb (x y : number) : bool := ltb x y || eqb x y.
Definition gtb (x y : number) : bool := ltb y x.
Definition geb (x y : number) : bool := leb y x.

(** [Math.min] of two arguments. *)
Definition min (x y : number) : number :=
  match x, y with
  | NaN, _ | _, NaN => NaN
  | _, _ => if ltb y x then y else x
  end.

Declare Scope js_scope.
Delimit Scope js_scope with js.
Bind Scope js_scope with number.
Infix "+" := add : js_scope.
Infix "-" := sub : js_scope.
Infix "*" := mul : js_scope.
Infix "/" := div : js_scope.
Infix "<?" := ltb : js_scope.
Infix "<=?" := leb : js_scope.
Infix ">?" := gtb : js_scope.
Infix ">=?" := geb : js_scope.

(** *** Scanning numeric literals *)

Definition is_digit (c : ascii) : bool :=
  (48 <=? nat_of_ascii c)%nat && (nat_of_ascii c <=? 57)%nat.

Definition digit_value (c : ascii) : Z := Z.of_nat (nat_of_ascii c) - 48.

(** The white space [parseFloat], [parseInt] and [ToNumber] trim: TAB, LF,
    VT, FF, CR and SPACE (the white space outside ASCII is not modelled). *)
Definition is_space (c : ascii) : bool :=
  let n := nat_of_ascii c in
  ((9 <=? n)%nat && (n <=? 13)%nat) || (n =? 32)%nat.

Fixpoint skip_spaces (s : list ascii) : list ascii :=
  match s with
  | c :: r => if is_space c then skip_spaces r else s
  | [] => []
  end.

Definition trim (s : list ascii) : list ascii :=
  rev (skip_spaces (rev (skip_spaces s))).

Fixpoint span_digits (s : list ascii) : list ascii * list ascii :=
  match s with
  | c :: r =>
      if is_digit c
      then let '(ds, r') := span_digits r in (c :: ds, r')
      else ([], s)
  | [] => ([], [])
  end.

Definition digits_value (ds : list ascii) : Z :=
  fold_left (fun acc c => (10 * acc + digit_value c)%Z) ds 0%Z.

(** [decimal m e] is the number [m * 10^e]. *)
Definition decimal (m e : Z) : number :=
  Fin (Q2Qc (inject_Z m * Qpower (10 # 1) e)).

Definition scan_sign (s : list ascii) : bool * list ascii :=
  match s with
  | c :: r =>
      if Ascii.eqb c "+" then (false, r)
      else if Ascii.eqb c "-" then (true, r)
      else (false, s)
  | [] => (false, s)
  end.

Fixpoint strip_prefix (p s : list ascii) : option (list ascii) :=
  match p, s with
  | [], _ => Some s
  | a :: p', b :: s' => if Ascii.eqb a b then strip_prefix p' s' else None
  | _ :: _, [] => None
  end.

(** An exponent part is read only when a digit follows the [e]. *)
Definition scan_exponent (s : list ascii) : Z * list ascii :=
  match s with
  | c :: r =>
      if Ascii.eqb c "e" || Ascii.eqb c "E"
      then
        let '(minus, r1) := scan_sign r in
        let '(ds, r2) := span_digits r1 in
        match ds with
        | [] => (0%Z, s)
        | _ :: _ => ((if minus then - digits_value ds else digits_value ds)%Z, r2)
        end
      else (0%Z, s)
  | [] => (0%Z, s)
  end.

(** The longest prefix of [s] that is a [StrDecimalLiteral], with its value
    and the text left over; [None] when no prefix is one. *)
Definition scan_StrDecimalLiteral (s : list ascii) : option (number * list ascii) :=
  let '(minus, s1) := scan_sign s in
  match strip_prefix (list_ascii_of_string "Infinity") s1 with
  | Some r => Some (if minus then NInf else PInf, r)
  | None =>
      let '(ip, r1) := span_digits s1 in
      let '(fp, r2) :=
        match r1 with
        | c :: r => if Ascii.eqb c "." then span_digits r else ([], r1)
        | [] => ([], r1)
        end in
      match ip ++ fp with
      | [] => None
      | ds =>
          let '(e, r3) := scan_exponent r2 in
          let m := digits_value ds in
          Some (decimal (if minus then - m else m) (e - Z.of_nat (List.length fp)), r3)
      end
  end.

(** [parseFloat] applied to a string. *)
Definition parseFloat (s : string) : number :=
  match scan_StrDecimalLiteral (skip_spaces (list_ascii_of_string s)) with
  | Some (n, _) => n
  | None => NaN
  end.

(** [parseFloat(undefined)] reads the text [undefined], which is no number. *)
Definition parseFloat_opt (s : option string) : number :=
  match s with
  | Some s => parseFloat s
  | None => NaN
  end.

(** [parseInt(s, 10)]. *)
Definition parseInt10 (s : string) : number :=
  let '(minus, s1) := scan_sign (skip_spaces (list_ascii_of_string s)) in
  match fst (span_digits s1) with
  | [] => NaN
  | ds => of_Z (if minus then - digits_value ds else digits_value ds)
  end.

Definition radix_digit (radix : Z) (c : ascii) : option Z :=
  let n := Z.of_nat (nat_of_ascii c) in
  let v :=
    if (48 <=? n)%Z && (n <=? 57)%Z then (n - 48)%Z
    else if (97 <=? n)%Z && (n <=? 102)%Z then (n - 87)%Z
    else if (65 <=? n)%Z && (n <=? 70)%Z then (n - 55)%Z
    else radix in
  if (v <? radix)%Z then Some v else None.

Fixpoint radix_value (radix : Z) (s : list ascii) (acc : Z) : option Z :=
  match s with
  | [] => Some acc
  | c :: r =>
      match radix_digit radix c with
      | Some v => radix_value radix r (radix * acc + v)
      | None => None
      end
  end.

Definition radix_literal (radix : Z) (s : list ascii) : number :=
  match s with
  | [] => NaN
  | _ :: _ =>
      match radix_value radix s 0 with
      | Some v => of_Z v
      | None => NaN
      end
  end.

(** [ToNumber] applied to a string: the whole trimmed text must be a
    numeric literal, and the empty text is [0]. *)
Definition StringToNumber (s : string) : number :=
  match trim (list_ascii_of_string s) with
  | [] => zero
  | "0"%char :: "x"%char :: r | "0"%char :: "X"%char :: r => radix_literal 16 r
  | "0"%char :: "o"%char :: r | "0"%char :: "O"%char :: r => radix_literal 8 r
  | "0"%char :: "b"%char :: r | "0"%char :: "B"%char :: r => radix_literal 2 r
  | t =>
      match scan_StrDecimalLiteral t with
      | Some (n, []) => n
      | _ => NaN
      end
  end.

(** *** Printing numbers *)

Definition string_of_N (n : N) : string := NilZero.string_of_uint (N.to_uint n).

Fixpoint zeros (n : nat) : string :=
  match n with
  | O => EmptyString
  | S n' => String "0" (zeros n')
  end.

Definition strip_trailing_zeros (s : list ascii) : list ascii :=
  let fix drop (l : list ascii) : list ascii :=
    match l with
    | "0"%char :: r => drop r
    | _ => l
    end in
  rev (drop (rev s)).

(** The least [k], searched up to [fuel], with [d] dividing [10^k]. *)
Fixpoint decimal_scale (fuel : nat) (d p : Z) (k : Z) : option Z :=
  if (p mod d =? 0)%Z then Some k
  else
    match fuel with
    | O => None
    | S f => decimal_scale f d (10 * p) (k + 1)
    end.

(** [decimal_digits q], for [q > 0], is [(s, n)] with [q = 0.s * 10^n] and
    [s] the digits of [q] without trailing zeros.  A value whose expansion
    does not end (it can only come from an exact division, and the code
    prints no such value) is cut after seventeen digits. *)
Definition decimal_digits (q : Qc) : list ascii * Z :=
  let n := Qnum (this q) in
  let d := Z.pos (Qden (this q)) in
  let size (z : Z) := Z.of_nat (String.length (string_of_N (Z.to_N z))) in
  let k :=
    match decimal_scale (Z.to_nat (Z.log2 d)) d 1 0 with
    | Some k => k
    | None => (17 + size d - size n)%Z
    end in
  let m := ((n * 10 ^ Z.max k 0) / (d * 10 ^ Z.max (- k) 0))%Z in
  let ds := list_ascii_of_string (string_of_N (Z.to_N m)) in
  (strip_trailing_zeros ds, (Z.of_nat (List.length ds) - k)%Z).

Definition string_of_exponent (e : Z) : string :=
  ((if (e <? 0)%Z then "e-" else "e+") ++ string_of_N (Z.abs_N e))%string.

(** [Number::toString] in radix ten. *)
Definition number_toString (x : number) : string :=
  match x with
  | NaN => "NaN"
  | PInf => "Infinity"
  | NInf => "-Infinity"
  | Fin q =>
      match Qc_sign q with
      | Eq => "0"
      | sg =>
          let '(s, n) := decimal_digits (Qcabs q) in
          let k := Z.of_nat (List.length s) in
          let body :=
            if (k <=? n)%Z && (n <=? 21)%Z then
              string_of_list_ascii s ++ zeros (Z.to_nat (n - k))
            else if (0 <? n)%Z && (n <=? 21)%Z then
              string_of_list_ascii (firstn (Z.to_nat n) s) ++ "."
                ++ string_of_list_ascii (skipn (Z.to_nat n) s)
            else if (-6 <? n)%Z && (n <=? 0)%Z then
              "0." ++ zeros (Z.to_nat (- n)) ++ string_of_list_ascii s
            else
              match s with
              | [c] => String c (string_of_exponent (n - 1))
              | c :: r =>
                  String c ("." ++ string_of_list_ascii r
                              ++ string_of_exponent (n - 1))
              | [] => EmptyString
              end in
          match sg with
          | Lt => "-" ++ body
          | _ => body
          end
      end
  end%string.

(** [Number.prototype.toFixed(2)]: the nearest multiple of [1/100], the
    larger one on a tie, printed with two decimals. *)
Definition toFixed2 (x : number) : string :=
  match x with
  | Fin q =>
      let a := Qcabs q in
      if ltb (Fin a) (decimal 1 21) then
        let n := Qfloor (this a * 100 + (1 # 2)) in
        let m := string_of_N (Z.to_N n) in
        let m := (zeros (3 - String.length m) ++ m)%string in
        let k := String.length m in
        ((match Qc_sign q with Lt => "-" | _ => "" end)
           ++ substring 0 (k - 2) m ++ "." ++ substring (k - 2) 2 m)%string
      else number_toString x
  | _ => number_toString x
  end.

(** *** Exceptions *)

Inductive error : Type := SyntaxError | TypeError.

Inductive result (A : Type) : Type :=
| Ok (a : A)
| Throw (e : error).
Arguments Ok {A} a.
Arguments Throw {A} e.

Definition bind {A B : Type} (m : result A) (k : A -> result B) : result B :=
  match m with
  | Ok a => k a
  | Throw e => Throw e
  end.

Notation "x <- m ;; k" := (bind m (fun x => k))
  (at level 61, m at next level, right associativity).

Fixpoint mapM {A B : Type} (f : A -> result B) (l : list A) : result (list B) :=
  match l with
  | [] => Ok []
  | a :: l' => b <- f a ;; bs <- mapM f l' ;; Ok (b :: bs)
  end.

(** *** Values

    The values a decoded JSON text is made of, and [undefined].  An object is
    the list of its own properties; functions are not values of the model,
    so a member inherited from a prototype is reached only through the
    calls below ([call_startsWith], [call_reverse], [call_map],
    [call_toString]). *)

Inductive value : Type :=
| VUndefined
| VNull
| VBool (b : bool)
| VNumber (n : number)
| VString (s : string)
| VArray (elems : list value)
| VObject (fields : list (string * value)).

Fixpoint lookup {A : Type} (k : string) (fs : list (string * A)) : option A :=
  match fs with
  | [] => None
  | (k', a) :: fs' => if String.eqb k k' then Some a else lookup k fs'
  end.

(** [set k a fs] defines property [k]: a property set twice keeps its place
    and takes the later value. *)
Fixpoint set {A : Type} (k : string) (a : A) (fs : list (string * A)) : list (string * A) :=
  match fs with
  | [] => [(k, a)]
  | (k', a') :: fs' =>
      if String.eqb k k' then (k', a) :: fs' else (k', a') :: set k a fs'
  end.

(** [ToBoolean]. *)
Definition truthy (v : value) : bool :=
  match v with
  | VUndefined | VNull => false
  | VBool b => b
  | VNumber n => negb (eqb n zero) && negb (match n with NaN => true | _ => false end)
  | VString s => negb (String.eqb s "")
  | VArray _ | VObject _ => true
  end.

(** The array index a property key denotes, if it is one. *)
Definition index_of_key (k : string) : option nat :=
  match list_ascii_of_string k with
  | [] => None
  | "0"%char :: _ :: _ => None
  | cs => if forallb is_digit cs then Some (Z.to_nat (digits_value cs)) else None
  end.

(** The property read [v.k] (or [v[k]]): it throws on [undefined] and
    [null] and is [undefined] where [v] has no such property. *)
Definition get (v : value) (k : string) : result value :=
  match v with
  | VUndefined | VNull => Throw TypeError
  | VObject fs =>
      Ok (match lookup k fs with Some x => x | None => VUndefined end)
  | VArray l =>
      if String.eqb k "length" then Ok (VNumber (of_Z (Z.of_nat (List.length l))))
      else
        match index_of_key k with
        | Some i => Ok (nth i l VUndefined)
        | None => Ok VUndefined
        end
  | VString s =>
      if String.eqb k "length" then Ok (VNumber (of_Z (Z.of_nat (String.length s))))
      else
        match index_of_key k with
        | Some i =>
            Ok (match String.get i s with
                | Some c => VString (String c EmptyString)
                | None => VUndefined
                end)
        | None => Ok VUndefined
        end
  | VBool _ | VNumber _ => Ok VUndefined
  end.

(** [v === s] for a string [s]. *)
Definition strict_eq_string (v : value) (s : string) : bool :=
  match v with
  | VString t => String.eqb t s
  | _ => false
  end.

(** [ToString].  An array prints its elements joined by commas, [null] and
    [undefined] elements as nothing; an object prints as [[object Object]]
    unless a property of its own hides [toString], which then is no
    function. *)
Fixpoint ToString (v : value) : result string :=
  match v with
  | VUndefined => Ok "undefined"
  | VNull => Ok "null"
  | VBool b => Ok (if b then "true" else "false")
  | VNumber n => Ok (number_toString n)
  | VString s => Ok s
  | VArray l =>
      (fix join (l : list value) : result string :=
         match l with
         | [] => Ok ""
         | x :: r =>
             a <- match x with
                  | VUndefined | VNull => Ok ""
                  | _ => ToString x
                  end ;;
             match r with
             | [] => Ok a
             | _ :: _ => b <- join r ;; Ok (a ++ "," ++ b)
             end
         end) l
  | VObject fs =>
      match lookup "toString" fs with
      | Some _ => Throw TypeError
      | None => Ok "[object Object]"
      end
  end%string.

(** [ToNumber]; an array or an object is first turned into its text. *)
Definition ToNumber (v : value) : result number :=
  match v with
  | VUndefined => Ok NaN
  | VNull => Ok zero
  | VBool b => Ok (if b then of_Z 1 else zero)
  | VNumber n => Ok n
  | VString s => Ok (StringToNumber s)
  | VArray _ | VObject _ => s <- ToString v ;; Ok (StringToNumber s)
  end.

(** [v > 0]. *)
Definition gt_zero (v : value) : result bool :=
  n <- ToNumber v ;; Ok (gtb n zero).

(** [v.startsWith(p)]: only a string has the method. *)
Definition call_startsWith (v : value) (p : string) : result bool :=
  match v with
  | VString s => Ok (String.prefix p s)
  | _ => Throw TypeError
  end.

(** [v.reverse()]: only an array has the method. *)
Definition call_reverse (v : value) : result value :=
  match v with
  | VArray l => Ok (VArray (rev l))
  | _ => Throw TypeError
  end.

(** [v.map(f)]: only an array has the method. *)
Definition call_map (v : value) (f : value -> result value) : result value :=
  match v with
  | VArray l => l' <- mapM f l ;; Ok (VArray l')
  | _ => Throw TypeError
  end.

(** [v.toString()]. *)
Definition call_toString (v : value) : result string :=
  match v with
  | VUndefined | VNull => Throw TypeError
  | _ => ToString v
  end.

(** *** [JSON.parse] *)

Definition dquote : ascii := ascii_of_nat 34.

Definition is_json_space (c : ascii) : bool :=
  let n := nat_of_ascii c in
  (n =? 32)%nat || (n =? 9)%nat || (n =? 10)%nat || (n =? 13)%nat.

Fixpoint skip_json_spaces (s : list ascii) : list ascii :=
  match s with
  | c :: r => if is_json_space c then skip_json_spaces r else s
  | [] => []
  end.

Definition scan_json_fraction (s : list ascii) : option (list ascii * list ascii) :=
  match s with
  | c :: r =>
      if Ascii.eqb c "." then
        match span_digits r with
        | ([], _) => None
        | (fp, r') => Some (fp, r')
        end
      else Some ([], s)
  | [] => Some ([], s)
  end.

Definition scan_json_exponent (s : list ascii) : option (Z * list ascii) :=
  match s with
  | c :: r =>
      if Ascii.eqb c "e" || Ascii.eqb c "E"
      then
        let '(minus, r1) := scan_sign r in
        match span_digits r1 with
        | ([], _) => None
        | (ds, r2) => Some ((if minus then - digits_value ds else digits_value ds)%Z, r2)
        end
      else Some (0%Z, s)
  | [] => Some (0%Z, s)
  end.

Definition scan_json_number (s : list ascii) : option (number * list ascii) :=
  let '(minus, s1) :=
    match s with
    | c :: r => if Ascii.eqb c "-" then (true, r) else (false, s)
    | [] => (false, s)
    end in
  match span_digits s1 with
  | ([], _) => None
  | ((d :: more) as ip, r1) =>
      (* a leading zero stands alone *)
      if Ascii.eqb d "0" && negb (Nat.eqb (List.length more) 0) then None
      else
        match scan_json_fraction r1 with
        | None => None
        | Some (fp, r2) =>
            match scan_json_exponent r2 with
            | None => None
            | Some (e, r3) =>
                let m := digits_value (ip ++ fp) in
                Some (decimal (if minus then - m else m)
                        (e - Z.of_nat (List.length fp)), r3)
            end
        end
  end.

Definition hex4 (a b c d : ascii) : option Z := radix_value 16 [a; b; c; d] 0.

(** The bytes (UTF-8) that stand for a code unit. *)
Definition encode_unit (u : Z) : list ascii :=
  let byte (z : Z) := ascii_of_nat (Z.to_nat z) in
  if (u <? 128)%Z then [byte u]
  else if (u <? 2048)%Z then [byte (192 + u / 64)%Z; byte (128 + u mod 64)%Z]
  else [byte (224 + u / 4096)%Z; byte (128 + (u / 64) mod 64)%Z;
        byte (128 + u mod 64)%Z].

Definition unescape (c : ascii) : option ascii :=
  if Ascii.eqb c dquote then Some dquote
  else if Ascii.eqb c "\" then Some "\"%char
  else if Ascii.eqb c "/" then Some "/"%char
  else if Ascii.eqb c "b" then Some (ascii_of_nat 8)
  else if Ascii.eqb c "f" then Some (ascii_of_nat 12)
  else if Ascii.eqb c "n" then Some (ascii_of_nat 10)
  else if Ascii.eqb c "r" then Some (ascii_of_nat 13)
  else if Ascii.eqb c "t" then Some (ascii_of_nat 9)
  else None.

(** The rest of a string literal, after its opening quote; [acc] holds the
    bytes read so far, last first. *)
Fixpoint scan_json_string (s acc : list ascii) : option (string * list ascii) :=
  match s with
  | [] => None
  | c :: r =>
      if Ascii.eqb c dquote then Some (string_of_list_ascii (rev acc), r)
      else if Ascii.eqb c "\" then
        match r with
        | [] => None
        | e :: r' =>
            if Ascii.eqb e "u" then
              match r' with
              | h1 :: h2 :: h3 :: h4 :: r'' =>
                  match hex4 h1 h2 h3 h4 with
                  | Some u => scan_json_string r'' (rev (encode_unit u) ++ acc)
                  | None => None
                  end
              | _ => None
              end
            else
              match unescape e with
              | Some b => scan_json_string r' (b :: acc)
              | None => None
              end
        end
      else if (nat_of_ascii c <? 32)%nat then None
      else scan_json_string r (c :: acc)
  end.

Definition scan_json_literal (s : list ascii) : option (value * list ascii) :=
  match strip_prefix (list_ascii_of_string "true") s with
  | Some r => Some (VBool true, r)
  | None =>
      match strip_prefix (list_ascii_of_string "false") s with
      | Some r => Some (VBool false, r)
      | None =>
          match strip_prefix (list_ascii_of_string "null") s with
          | Some r => Some (VNull, r)
          | None =>
              match scan_json_number s with
              | Some (n, r) => Some (VNumber n, r)
              | None => None
              end
          end
      end
  end.

(** [expect c s] skips white space and then the byte [c]. *)
Definition expect (c : ascii) (s : list ascii) : option (list ascii) :=
  match skip_json_spaces s with
  | x :: r => if Ascii.eqb x c then Some r else None
  | [] => None
  end.

(** A JSON value at the head of [s], with the text after it.  Each call
    spends one unit of [fuel]; two units per byte of [s] are enough for any
    text ([parse_value_fuel] below). *)
Fixpoint parse_value (fuel : nat) (s : list ascii) : option (value * list ascii) :=
  match fuel with
  | O => None
  | S f =>
      match skip_json_spaces s with
      | [] => None
      | c :: r =>
          if Ascii.eqb c "{" then
            match expect "}" r with
            | Some r' => Some (VObject [], r')
            | None => parse_members f r []
            end
          else if Ascii.eqb c "[" then
            match expect "]" r with
            | Some r' => Some (VArray [], r')
            | None => parse_elements f r []
            end
          else if Ascii.eqb c dquote then
            match scan_json_string r [] with
            | Some (t, r') => Some (VString t, r')
            | None => None
            end
          else scan_json_literal (c :: r)
      end
  end
with parse_elements (fuel : nat) (s : list ascii) (acc : list value)
  : option (value * list ascii) :=
  match fuel with
  | O => None
  | S f =>
      match parse_value f s with
      | Some (v, r) =>
          match expect "," r with
          | Some r' => parse_elements f r' (v :: acc)
          | None =>
              match expect "]" r with
              | Some r' => Some (VArray (rev (v :: acc)), r')
              | None => None
              end
          end
      | None => None
      end
  end
with parse_members (fuel : nat) (s : list ascii) (acc : list (string * value))
  : option (value * list ascii) :=
  match fuel with
  | O => None
  | S f =>
      match expect dquote s with
      | Some r =>
          match scan_json_string r [] with
          | Some (k, r1) =>
              match expect ":" r1 with
              | Some r2 =>
                  match parse_value f r2 with
                  | Some (v, r3) =>
                      match expect "," r3 with
                      | Some r4 => parse_members f r4 (set k v acc)
                      | None =>
                          match expect "}" r3 with
                          | Some r4 => Some (VObject (set k v acc), r4)
                          | None => None
                          end
                      end
                  | None => None
                  end
              | None => None
              end
          | None => None
          end
      | None => None
      end
  end.

(** [JSON.parse(text)]: the value the whole text denotes, or a
    [SyntaxError]. *)
Definition JSON_parse (text : string) : result value :=
  let s := list_ascii_of_string text in
  match parse_value (2 * List.length s + 2) s with
  | Some (v, r) =>
      match skip_json_spaces r with
      | [] => Ok v
      | _ :: _ => Throw SyntaxError
      end
  | None => Throw SyntaxError
  end.

(** The result of a parse and what is left of the text do not depend on the
    fuel, once there are two units of it for every byte that is read. *)
Definition fuel_enough {A : Type}
  (parse : nat -> list ascii -> A -> option (value * list ascii)) (n : nat) : Prop :=
  forall (s : list ascii) (a : A) (v : value) (r : list ascii),
    parse n s a = Some (v, r) ->
    (List.length r < List.length s)%nat
    /\ forall m : nat,
        (2 * (List.length s - List.length r) <= m)%nat ->
        parse m s a = Some (v, r).

(** Messages are written below with ['] where the wire has a double quote. *)
Definition wire (s : string) : string :=
  string_of_list_ascii
    (map (fun c => if Ascii.eqb c "'" then dquote else c) (list_ascii_of_string s)).

End JS.

(** ** The venue adapters and the message handler ([useOrderbookWebSocket]) *)

Module Adapters.
Import JS.
Open Scope string_scope.

Inductive Venue : Type := OKX | Bybit | Deribit.

(** [a && b], where [b] is evaluated only when [a] holds. *)
Definition and_also (a : bool) (b : result bool) : result bool :=
  if a then b else Ok false.

(** The object literal [{ bids, asks }]. *)
Definition orderbook_object (bids asks : value) : value :=
  VObject [("bids", bids); ("asks", asks)].

(** [venueConfig.OKX.parse]; a function that returns nothing yields
    [undefined]. *)
Definition OKX_parse (data : value) : result value :=
  matched <-
    (arg <- get data "arg" ;;
     and_also (truthy arg)
       (channel <- get arg "channel" ;;
        and_also (strict_eq_string channel "books")
          (d <- get data "data" ;;
           and_also (truthy d)
             (len <- get d "length" ;; gt_zero len)))) ;;
  if matched then
    d <- get data "data" ;;
    first <- get d "0" ;;
    bids <- get first "bids" ;;
    asks <- get first "asks" ;;
    reversed <- call_reverse asks ;;
    Ok (orderbook_object bids reversed)
  else Ok VUndefined.

(** [venueConfig.Bybit.parse]. *)
Definition Bybit_parse (data : value) : result value :=
  matched <-
    (topic <- get data "topic" ;;
     and_also (truthy topic)
       (starts <- call_startsWith topic "orderbook.50" ;;
        and_also starts
          (d <- get data "data" ;; Ok (truthy d)))) ;;
  if matched then
    d <- get data "data" ;;
    bids <- get d "b" ;;
    asks <- get d "a" ;;
    Ok (orderbook_object bids asks)
  else Ok VUndefined.

(** The callback of Deribit's [map]: [[b[0].toString(), b[1].toString()]]. *)
Definition level_strings (b : value) : result value :=
  b0 <- get b "0" ;;
  s0 <- call_toString b0 ;;
  b1 <- get b "1" ;;
  s1 <- call_toString b1 ;;
  Ok (VArray [VString s0; VString s1]).

(** [venueConfig.Deribit.parse]. *)
Definition Deribit_parse (data : value) : result value :=
  matched <-
    (params <- get data "params" ;;
     and_also (truthy params)
       (channel <- get params "channel" ;;
        starts <- call_startsWith channel "book." ;;
        and_also starts
          (d <- get params "data" ;; Ok (truthy d)))) ;;
  if matched then
    params <- get data "params" ;;
    d <- get params "data" ;;
    bids <- get d "bids" ;;
    asks <- get d "asks" ;;
    bids' <- call_map bids level_strings ;;
    asks' <- call_map asks level_strings ;;
    Ok (orderbook_object bids' asks')
  else Ok VUndefined.

(** [venueConfig[venue].parse]. *)
Definition parse (venue : Venue) : value -> result value :=
  match venue with
  | OKX => OKX_parse
  | Bybit => Bybit_parse
  | Deribit => Deribit_parse
  end.

(** The test that opens [ws.current.onmessage]: a keep-alive frame. *)
Definition isKeepAlive (venue : Venue) (data : value) : result bool :=
  event <- get data "event" ;;
  if strict_eq_string event "pong" then Ok true
  else
    op <- get data "op" ;;
    if strict_eq_string op "pong" then Ok true
    else
      match venue with
      | Deribit =>
          method <- get data "method" ;;
          Ok (strict_eq_string method "heartbeat")
      | _ => Ok false
      end.

(** The hook's [orderbook] state as it is first rendered. *)
Definition initial_orderbook : value := orderbook_object (VArray []) (VArray []).

(** [ws.current.onmessage] on a frame whose [event.data] is [raw], with the
    hook's [orderbook] state threaded through: the outcome is the state
    after the handler has run, or the exception that leaves the handler. *)
Definition onmessage (venue : Venue) (orderbook : value) (raw : string) : result value :=
  data <- JSON_parse raw ;;
  keepAlive <- isKeepAlive venue data ;;
  if keepAlive then Ok orderbook
  else
    newOrderbook <- parse venue data ;;
    if truthy newOrderbook then Ok newOrderbook else Ok orderbook.

(** *** The book as the rest of the page reads it

    A level is an array of strings whose first two entries are the price
    and the size; a side is an array of levels. *)

Definition Level : Type := list string.

Record Book : Type := mkBook { bids : list Level; asks : list Level }.

Definition string_of_value (v : value) : option string :=
  match v with
  | VString s => Some s
  | _ => None
  end.

Fixpoint all_some {A B : Type} (f : A -> option B) (l : list A) : option (list B) :=
  match l with
  | [] => Some []
  | a :: l' =>
      match f a, all_some f l' with
      | Some b, Some bs => Some (b :: bs)
      | _, _ => None
      end
  end.

Definition level_of_value (v : value) : option Level :=
  match v with
  | VArray l => all_some string_of_value l
  | _ => None
  end.

Definition side_of_value (v : value) : option (list Level) :=
  match v with
  | VArray l => all_some level_of_value l
  | _ => None
  end.

(** The typed reading of an [orderbook] state, when it has that shape. *)
Definition book_of_value (v : value) : option Book :=
  match v with
  | VObject fs =>
      match lookup "bids" fs, lookup "asks" fs with
      | Some b, Some a =>
          match side_of_value b, side_of_value a with
          | Some bs, Some az => Some (mkBook bs az)
          | _, _ => None
          end
      | _, _ => None
      end
  | _ => None
  end.

(** The book the page shows after [raw] is the first frame to arrive. *)
Definition published (venue : Venue) (raw : string) : option Book :=
  match onmessage venue initial_orderbook raw with
  | Ok v => book_of_value v
  | Throw _ => None
  end.

(** [parseFloat(level[0])]. *)
Definition level_price (l : Level) : number := parseFloat_opt (nth_error l 0).

(** *** The ordering invariants of a canonical book *)

Fixpoint strictly_ascending (ps : list number) : bool :=
  match ps with
  | a :: (b :: _) as rest => ltb a b && strictly_ascending rest
  | _ => true
  end.

Fixpoint strictly_descending (ps : list number) : bool :=
  match ps with
  | a :: (b :: _) as rest => gtb a b && strictly_descending rest
  | _ => true
  end.

Fixpoint no_duplicate (ps : list number) : bool :=
  match ps with
  | [] => true
  | a :: rest => negb (existsb (eqb a) rest) && no_duplicate rest
  end.

Definition bids_canonical (b : Book) : bool :=
  let ps := map level_price (bids b) in
  strictly_descending ps && no_duplicate ps.

Definition asks_canonical (b : Book) : bool :=
  let ps := map level_price (asks b) in
  strictly_ascending ps && no_duplicate ps.

Definition canonical (b : Book) : bool := bids_canonical b && asks_canonical b.

End Adapters.

(** ** The order form and the impact simulator *)

Module Simulator.
Import JS Adapters.
Open Scope string_scope.

(** The form's data, and the order built from it by [{ ...formData, price }]:
    the same object but for [price], which [executeSimulation] may replace
    by an entry of the book (absent when the level holds none). *)
Record FormData : Type := mkForm {
  symbol : string;
  orderType : string;
  side : string;
  price : option string;
  quantity : string;
  delay : string
}.

(** The outcome of the form's [handleSubmit]: the error it shows, or the
    data it hands to [onSubmit]. *)
Inductive submission : Type :=
| Rejected (error : string)
| Submitted (formData : FormData).

Definition falsy_text (s : option string) : bool :=
  match s with
  | Some s => String.eqb s ""
  | None => true
  end.

(** [OrderForm.handleSubmit]. *)
Definition handleSubmit (formData : FormData) : submission :=
  if String.eqb (orderType formData) "Limit"
     && (falsy_text (price formData)
         || leb (parseFloat_opt (price formData)) zero)
  then Rejected "Please enter a valid price for a limit order."
  else if falsy_text (Some (quantity formData))
          || leb (parseFloat (quantity formData)) zero
  then Rejected "Please enter a valid quantity."
  else Submitted formData.

Record Metrics : Type := mkMetrics {
  fillPercent : number;
  slippage : number;
  impact : number;
  warning : string
}.

(** The variables the two loops of [calculateMetrics] update. *)
Record Fill : Type := mkFill {
  filledQty : number;
  totalCost : number;
  qtyToFill : number
}.

(** A [for (... of xs)] loop whose body may [break]. *)
Inductive flow (S : Type) : Type :=
| Next (s : S)
| Break (s : S).
Arguments Next {S} s.
Arguments Break {S} s.

Fixpoint for_of {A S : Type} (body : S -> A -> flow S) (xs : list A) (s : S) : S :=
  match xs with
  | [] => s
  | x :: xs' =>
      match body s x with
      | Next s' => for_of body xs' s'
      | Break s' => s'
      end
  end.

(** [if (qtyToFill <= 0) break;] *)
Definition break_when_filled (st : Fill) : flow Fill :=
  if leb (qtyToFill st) zero then Break st else Next st.

(** The body of the market order's loop. *)
Definition market_body (st : Fill) (level : Level) : flow Fill :=
  let p := parseFloat_opt (nth_error level 0) in
  let q := parseFloat_opt (nth_error level 1) in
  let fillable := min (qtyToFill st) q in
  break_when_filled
    {| filledQty := (filledQty st + fillable)%js;
       totalCost := (totalCost st + fillable * p)%js;
       qtyToFill := (qtyToFill st - fillable)%js |}.

(** [side === 'Buy' ? p <= limitPrice : p >= limitPrice] *)
Definition canFill (side : string) (limitPrice p : number) : bool :=
  if String.eqb side "Buy" then leb p limitPrice else geb p limitPrice.

(** The body of the limit order's loop. *)
Definition limit_body (side : string) (limitPrice : number)
  (st : Fill) (level : Level) : flow Fill :=
  let p := parseFloat_opt (nth_error level 0) in
  let q := parseFloat_opt (nth_error level 1) in
  break_when_filled
    (if canFill side limitPrice p then
       let fillable := min (qtyToFill st) q in
       {| filledQty := (filledQty st + fillable)%js;
          totalCost := totalCost st;
          qtyToFill := (qtyToFill st - fillable)%js |}
     else st).

Definition start (qty : number) : Fill :=
  {| filledQty := zero; totalCost := zero; qtyToFill := qty |}.

(** [side === 'Buy' ? book.asks : book.bids] *)
Definition bookSide (side : string) (book : Book) : list Level :=
  if String.eqb side "Buy" then asks book else bids book.

(** [parseFloat(bookSide[0]?.[0] || '0')] *)
Definition entryPrice (levels : list Level) : number :=
  parseFloat
    match levels with
    | [] => "0"
    | level :: _ =>
        if falsy_text (nth_error level 0) then "0"
        else match nth_error level 0 with Some s => s | None => "0" end
    end.

Definition marketLoop (levels : list Level) (qty : number) : Fill :=
  for_of market_body levels (start qty).

Definition limitLoop (side : string) (limitPrice : number)
  (levels : list Level) (qty : number) : Fill :=
  for_of (limit_body side limitPrice) levels (start qty).

(** [const avgFillPrice = totalCost / filledQty;] *)
Definition avgFillPrice (st : Fill) : number := (totalCost st / filledQty st)%js.

Definition slippage_warning (impact : number) : string :=
  "High slippage warning! Your order may cause a price impact of approximately $"
    ++ toFixed2 impact ++ ".".

(** [calculateMetrics(order, book)]. *)
Definition calculateMetrics (order : FormData) (book : Book) : Metrics :=
  let qty := parseFloat (quantity order) in
  let levels := bookSide (side order) book in
  let entry := entryPrice levels in
  let '(filled, slip, imp) :=
    if String.eqb (orderType order) "Market" then
      let st := marketLoop levels qty in
      let avg := avgFillPrice st in
      (filledQty st,
       if gtb entry zero && gtb (filledQty st) zero
       then (abs ((avg - entry) / entry) * of_Z 100)%js
       else zero,
       abs (avg - entry)%js)
    else
      let limitPrice := parseFloat_opt (price order) in
      let st := limitLoop (side order) limitPrice levels qty in
      (filledQty st, zero, zero) in
  {| fillPercent := if gtb qty zero then (filled / qty * of_Z 100)%js else of_Z 100;
     slippage := slip;
     impact := imp;
     warning := if gtb slip (of_Q (1 # 2)) then slippage_warning imp else "" |}.

(** [Array.prototype.findIndex]. *)
Fixpoint findIndex_from {A : Type} (f : A -> bool) (l : list A) (i : Z) : Z :=
  match l with
  | [] => (-1)%Z
  | x :: r => if f x then i else findIndex_from f r (i + 1)%Z
  end.

Definition findIndex {A : Type} (f : A -> bool) (l : list A) : Z :=
  findIndex_from f l 0%Z.

(** [findSimulatedIndex(levels, order)] of the [OrderBook] component;
    [order] is [None] while no order has been simulated. *)
Definition findSimulatedIndex (levels : list Level) (order : option FormData) : Z :=
  match order with
  | None => (-1)%Z
  | Some order =>
      let price := parseFloat_opt (price order) in
      if String.eqb (side order) "Buy"
      then findIndex (fun ask => geb price (parseFloat_opt (nth_error ask 0))) levels
      else findIndex (fun bid => leb price (parseFloat_opt (nth_error bid 0))) levels
  end.

Definition simulatedAskIndex (book : Book) (order : option FormData) : Z :=
  findSimulatedIndex (asks book) order.

Definition simulatedBidIndex (book : Book) (order : option FormData) : Z :=
  findSimulatedIndex (bids book) order.

End Simulator.

(** ** The page: delayed submission ([handleSimulationSubmit])

    The page is a reactive program: a state, and reactions that run one at
    a time.  A render binds the form's [onSubmit] to the
    [handleSimulationSubmit] that [useCallback] built for that render's
    [currentOrderbook] (the book is among its dependencies), so the handler
    a submission runs has captured the book of the latest render, and the
    [executeSimulation] it creates captures the same variable. *)

Module Page.
Import JS Adapters Simulator.
Open Scope string_scope.
Open Scope Z_scope.

(** [executeSimulation] as [setTimeout] holds it: the code with the
    variables of the enclosing call. *)
Record Closure : Type := mkClosure {
  closure_currentOrderbook : Book;
  closure_formData : FormData
}.

(** The page's state: the book of the latest render, the [useState] cells,
    the clock in milliseconds, and the timer [simulationTimeout.current]
    names while it is neither fired nor cleared (its due time and its
    callback). *)
Record State : Type := mkState {
  currentOrderbook : Book;
  symbol : string;
  simulatedOrder : option FormData;
  simulationMetrics : option Metrics;
  now : Z;
  simulationTimeout : option (Z * Closure)
}.

Definition initial (book : Book) : State :=
  {| currentOrderbook := book;
     symbol := "BTC-USD-SWAP";
     simulatedOrder := None;
     simulationMetrics := None;
     now := 0;
     simulationTimeout := None |}.

(** The price [executeSimulation] gives the order: the form's, or for a
    market order the first price of the side it consumes. *)
Definition orderPrice (formData : FormData) (book : Book) : option string :=
  if String.eqb (orderType formData) "Market" then
    if String.eqb (side formData) "Buy" && negb (Nat.eqb (List.length (asks book)) 0) then
      match asks book with
      | level :: _ => nth_error level 0
      | [] => None
      end
    else if String.eqb (side formData) "Sell" && negb (Nat.eqb (List.length (bids book)) 0) then
      match bids book with
      | level :: _ => nth_error level 0
      | [] => None
      end
    else price formData
  else price formData.

Definition with_price (formData : FormData) (p : option string) : FormData :=
  {| Simulator.symbol := Simulator.symbol formData;
     orderType := orderType formData;
     side := side formData;
     price := p;
     quantity := quantity formData;
     delay := delay formData |}.

(** [executeSimulation()]: [const book = currentOrderbook] reads the
    variable the closure captured. *)
Definition executeSimulation (c : Closure) (st : State) : State :=
  let book := closure_currentOrderbook c in
  let order := with_price (closure_formData c) (orderPrice (closure_formData c) book) in
  {| currentOrderbook := currentOrderbook st;
     symbol := symbol st;
     simulatedOrder := Some order;
     simulationMetrics := Some (calculateMetrics order book);
     now := now st;
     simulationTimeout := simulationTimeout st |}.

(** The delay [setTimeout] waits for: its argument as a 32-bit integer, and
    no less than zero. *)
Definition timeout_ms (d : number) : Z :=
  match d with
  | Fin q =>
      let t := Z.quot (Qnum (this q)) (Z.pos (Qden (this q))) in
      let w := t mod 2 ^ 32 in
      Z.max 0 (if w <? 2 ^ 31 then w else w - 2 ^ 32)
  | _ => 0
  end.

(** [handleSimulationSubmit(formData)], for the handler that captured
    [captured] as its [currentOrderbook]. *)
Definition handleSimulationSubmit (captured : Book) (formData : FormData)
  (st : State) : State :=
  let st1 :=
    {| currentOrderbook := currentOrderbook st;
       symbol := Simulator.symbol formData;
       simulatedOrder := simulatedOrder st;
       simulationMetrics := simulationMetrics st;
       now := now st;
       simulationTimeout := None |} in
  let c := mkClosure captured formData in
  let delay := (parseInt10 (delay formData) * of_Z 1000)%js in
  if gtb delay zero then
    {| currentOrderbook := currentOrderbook st1;
       symbol := symbol st1;
       simulatedOrder := simulatedOrder st1;
       simulationMetrics := simulationMetrics st1;
       now := now st1;
       simulationTimeout := Some (now st1 + timeout_ms delay, c) |}
  else executeSimulation c st1.

(** What happens to the page: the feed publishes a book (and the page
    renders it), the user submits the form, time passes. *)
Inductive event : Type :=
| Publish (book : Book)
| Submit (formData : FormData)
| Wait (ms : Z).

(** The pending timer fires once its time has come. *)
Definition fire (st : State) : State :=
  match simulationTimeout st with
  | Some (due, c) =>
      if due <=? now st then
        executeSimulation c
          {| currentOrderbook := currentOrderbook st;
             symbol := symbol st;
             simulatedOrder := simulatedOrder st;
             simulationMetrics := simulationMetrics st;
             now := now st;
             simulationTimeout := None |}
      else st
  | None => st
  end.

Definition step (st : State) (e : event) : State :=
  match e with
  | Publish book =>
      {| currentOrderbook := book;
         symbol := symbol st;
         simulatedOrder := simulatedOrder st;
         simulationMetrics := simulationMetrics st;
         now := now st;
         simulationTimeout := simulationTimeout st |}
  | Submit formData =>
      match handleSubmit formData with
      | Submitted formData => handleSimulationSubmit (currentOrderbook st) formData st
      | Rejected _ => st
      end
  | Wait ms =>
      fire
        {| currentOrderbook := currentOrderbook st;
           symbol := symbol st;
           simulatedOrder := simulatedOrder st;
           simulationMetrics := simulationMetrics st;
           now := now st + Z.max 0 ms;
           simulationTimeout := simulationTimeout st |}
  end.

Definition run (st : State) (es : list event) : State := fold_left step es st.

End Page.

(** ** The specification's wording of the walks

    Definitions that follow the words of the specification (section 4.3),
    to be compared with the loops of [calculateMetrics]. *)

Module Spec.
Import JS Adapters Simulator.

(** "Walk levels in order; at each level, fill [min(remainingQuantity,
    levelSize)], accumulate [filledQuantity] and [totalCost]; stop once
    [remainingQuantity <= 0] or levels are exhausted."  The result is the
    filled quantity and the total cost. *)
Fixpoint market_walk (levels : list Level) (remaining filled cost : number)
  : number * number :=
  match levels with
  | [] => (filled, cost)
  | level :: rest =>
      if leb remaining zero then (filled, cost)
      else
        let fill := min remaining (parseFloat_opt (nth_error level 1)) in
        market_walk rest (remaining - fill)%js (filled + fill)%js
          (cost + fill * level_price level)%js
  end.

(** "A level is eligible only if [levelPrice <= limitPrice] (Buy) or
    [levelPrice >= limitPrice] (Sell)." *)
Definition eligible (side : string) (limitPrice : number) (level : Level) : bool :=
  if String.eqb side "Buy" then leb (level_price level) limitPrice
  else geb (level_price level) limitPrice.

(** "The index of the first level whose price satisfies the condition;
    [-1] if no such level exists." *)
Definition first_index {A : Type} (holds : A -> bool) (l : list A) (i : Z) : Prop :=
  (i = (-1)%Z /\ forall x, In x l -> holds x = false)
  \/ (exists n x,
        i = Z.of_nat n /\ nth_error l n = Some x /\ holds x = true
        /\ forall m y, (m < n)%nat -> nth_error l m = Some y -> holds y = false).

End Spec.

(** ** Messages and books used as concrete inputs *)

Module Examples.
Import JS Adapters Simulator Page.
Open Scope string_scope.

(** An OKX [books] snapshot: bids descending and asks ascending by price,
    as the venue sends them. *)
Definition okx_snapshot : string :=
  wire ("{'arg':{'channel':'books','instId':'BTC-USD-SWAP'},'action':'snapshot',"
        ++ "'data':[{'asks':[['100','1','0','1'],['101','2','0','1']],"
        ++ "'bids':[['99','1','0','1'],['98','2','0','2']],'ts':'1','checksum':1}]}").

(** The same two sides in a Bybit [orderbook.50] message. *)
Definition bybit_snapshot : string :=
  wire ("{'topic':'orderbook.50.BTCUSDT','type':'snapshot','ts':1,"
        ++ "'data':{'s':'BTCUSDT','b':[['99','1'],['98','2']],"
        ++ "'a':[['100','1'],['101','2']],'u':1,'seq':1}}").

(** The same two sides in a Deribit [book] notification, prices and sizes
    as numbers. *)
Definition deribit_snapshot : string :=
  wire ("{'jsonrpc':'2.0','method':'subscription','params':{"
        ++ "'channel':'book.BTC-PERPETUAL.100ms','data':{'type':'snapshot',"
        ++ "'bids':[[99,1],[98,2]],'asks':[[100,1],[101,2]]}}}").

(** A text that is no JSON. *)
Definition malformed : string := "{".

(** A Deribit-shaped message whose [params] has no [channel]. *)
Definition deribit_without_channel : string :=
  wire "{'jsonrpc':'2.0','method':'subscription','params':{'data':{'bids':[],'asks':[]}}}".

(** The acknowledgement OKX sends for a subscription, Bybit's answer to a
    ping, and Deribit's heartbeat. *)
Definition okx_ack : string :=
  wire "{'event':'subscribe','arg':{'channel':'books','instId':'BTC-USD-SWAP'},'connId':'a4d3ae55'}".
Definition bybit_pong : string :=
  wire "{'success':true,'ret_msg':'pong','conn_id':'0970e817','op':'pong'}".
Definition deribit_heartbeat : string :=
  wire "{'jsonrpc':'2.0','method':'heartbeat','params':{'type':'heartbeat'}}".
Definition deribit_ack : string :=
  wire "{'jsonrpc':'2.0','id':1,'result':['book.BTC-PERPETUAL.100ms']}".

(** An OKX message of another channel. *)
Definition okx_trades : string :=
  wire "{'arg':{'channel':'trades','instId':'BTC-USD-SWAP'},'data':[{'px':'100','sz':'1'}]}".

(** Messages on the subscribed channel that carry no book: a Bybit topic
    and a Deribit channel without [data], and an OKX message whose [data]
    is empty. *)
Definition bybit_without_data : string :=
  wire "{'topic':'orderbook.50.BTCUSDT','type':'snapshot','ts':1}".
Definition deribit_without_data : string :=
  wire "{'jsonrpc':'2.0','method':'subscription','params':{'channel':'book.BTC-PERPETUAL.100ms'}}".
Definition okx_empty_data : string :=
  wire "{'arg':{'channel':'books','instId':'BTC-USD-SWAP'},'action':'update','data':[]}".

(** An OKX message whose [arg] names no channel. *)
Definition okx_without_channel : string :=
  wire "{'arg':{'instId':'BTC-USD-SWAP'},'data':[{'px':'100','sz':'1'}]}".

(** A Bybit message whose topic is a number. *)
Definition bybit_numeric_topic : string :=
  wire "{'topic':7,'data':{'b':[],'a':[]}}".

Definition book_as_sent : Book :=
  mkBook [["99"; "1"; "0"; "1"]; ["98"; "2"; "0"; "2"]]
         [["100"; "1"; "0"; "1"]; ["101"; "2"; "0"; "1"]].

Definition book_as_parsed_by_OKX : Book :=
  mkBook [["99"; "1"; "0"; "1"]; ["98"; "2"; "0"; "2"]]
         [["101"; "2"; "0"; "1"]; ["100"; "1"; "0"; "1"]].

Definition two_level_book : Book :=
  mkBook [["99"; "1"]; ["98"; "2"]] [["100"; "1"]; ["101"; "2"]].

(** The book at the time of a submission, and the book published while the
    submission waits. *)
Definition book_at_submission : Book := mkBook [["99"; "1"]] [["100"; "5"]].
Definition book_at_execution : Book :=
  mkBook [["199"; "1"]] [["200"; "1"]; ["220"; "5"]].

(** A market Buy of 2 with the form's five-second delay. *)
Definition delayed_buy : FormData :=
  mkForm "BTC-USD-SWAP" "Market" "Buy" (Some "") "2" "5".

(** A market Buy of 1 with no delay. *)
Definition market_buy_one : FormData :=
  mkForm "BTC-USD-SWAP" "Market" "Buy" (Some "") "1" "0".

End Examples.

(** ** How a message names its channel *)

Module Routing.
Import JS Adapters.
Open Scope string_scope.

(** The field of a message each adapter's guard reads first. *)
Definition routing_field (venue : Venue) : string :=
  match venue with
  | OKX => "arg"
  | Bybit => "topic"
  | Deribit => "params"
  end.

(** The channel a message names: [data.arg.channel], [data.topic] or
    [data.params.channel]. *)
Definition channel_of (venue : Venue) (data : value) : result value :=
  match venue with
  | OKX => arg <- get data "arg" ;; get arg "channel"
  | Bybit => get data "topic"
  | Deribit => params <- get data "params" ;; get params "channel"
  end.

(** Whether a channel name is the one the adapter's guard accepts. *)
Definition subscribed_channel (venue : Venue) (name : string) : bool :=
  match venue with
  | OKX => String.eqb name "books"
  | Bybit => String.prefix "orderbook.50" name
  | Deribit => String.prefix "book." name
  end.

(** Whether the guard can test the channel without an exception: OKX
    compares it with [===], which takes any value; Bybit and Deribit call
    [startsWith] on it, which only a string has. *)
Definition testable_channel (venue : Venue) (channel : value) : bool :=
  match venue, channel with
  | OKX, _ => true
  | _, VString _ => true
  | _, _ => false
  end.

(** Whether the channel, whatever value it is, is the one the guard
    accepts. *)
Definition on_subscribed_channel (venue : Venue) (channel : value) : bool :=
  match channel with
  | VString name => subscribed_channel venue name
  | _ => false
  end.

(** The payload the guard asks for: [data.data], or [data.params.data]. *)
Definition payload (venue : Venue) (data : value) : result value :=
  match venue with
  | OKX | Bybit => get data "data"
  | Deribit => params <- get data "params" ;; get params "data"
  end.

(** The ways in which a message falls short of its adapter's guard: the
    field read first is missing or falsy; the channel is another one; the
    payload is missing or falsy; on OKX, the payload has no positive
    [length]. *)
Definition unrouted (venue : Venue) (data : value) : Prop :=
  exists v, get data (routing_field venue) = Ok v /\ truthy v = false.

Definition on_other_channel (venue : Venue) (data : value) : Prop :=
  exists channel,
    channel_of venue data = Ok channel
    /\ testable_channel venue channel = true
    /\ on_subscribed_channel venue channel = false.

Definition without_payload (venue : Venue) (data : value) : Prop :=
  exists channel d,
    channel_of venue data = Ok channel
    /\ testable_channel venue channel = true
    /\ payload venue data = Ok d
    /\ truthy d = false.

Definition with_empty_payload (venue : Venue) (data : value) : Prop :=
  venue = OKX
  /\ exists channel d len,
       channel_of venue data = Ok channel
       /\ payload venue data = Ok d
       /\ get d "length" = Ok len
       /\ gt_zero len = Ok false.

(** The channel cannot be tested: the field read first is truthy and the
    channel is no string where [startsWith] is called on it. *)
Definition with_untestable_channel (venue : Venue) (data : value) : Prop :=
  exists v channel,
    get data (routing_field venue) = Ok v
    /\ truthy v = true
    /\ channel_of venue data = Ok channel
    /\ testable_channel venue channel = false.

End Routing.

(** ** Liquidity of a ladder *)

Module Liquidity.
Import JS Adapters Simulator.

(** [parseFloat(level[1])]. *)
Definition level_size (level : Level) : number := parseFloat_opt (nth_error level 1).

(** The quantity a ladder offers: the sum of its sizes. *)
Definition depth (levels : list Level) : number :=
  fold_right (fun level total => add (level_size level) total) zero levels.

(** Every size of the ladder is a finite number that is not negative. *)
Definition well_sized (levels : list Level) : bool :=
  forallb (fun level =>
             match level_size level with
             | Fin s => leb zero (Fin s)
             | _ => false
             end) levels.

(** A whole number from 0 to 2^53 - 1, a "safe integer": sums, differences
    and comparisons of such numbers are the same in double precision as in
    exact arithmetic while their results stay in the range, and so are a
    product in the range and the quotient of a number by one of its
    divisors. *)
Definition whole (x : number) : bool :=
  match x with
  | Fin q =>
      (Qden (this q) =? 1)%positive
      && (0 <=? Qnum (this q))%Z
      && (Qnum (this q) <=? 9007199254740991)%Z
  | _ => false
  end.

(** Every size of the ladder is whole. *)
Definition whole_sized (levels : list Level) : bool :=
  forallb (fun level => whole (level_size level)) levels.

(** Every price of the ladder is a finite number. *)
Definition well_priced (levels : list Level) : bool :=
  forallb (fun level =>
             match level_price level with
             | Fin _ => true
             | _ => false
             end) levels.

End Liquidity.

(** ** What goes out on the wire: the requests and [JSON.stringify] *)

Module Wire.
Import JS Adapters.
Open Scope string_scope.

(** [venueConfig[venue].subscribe(instId)] and [.unsubscribe(instId)], which
    differ in one word. *)
Definition request (verb : string) (venue : Venue) (instId : string) : value :=
  match venue with
  | OKX =>
      VObject [("op", VString verb);
               ("args", VArray [VObject [("channel", VString "books");
                                         ("instId", VString instId)]])]
  | Bybit =>
      VObject [("op", VString verb);
               ("args", VArray [VString ("orderbook.50." ++ instId)])]
  | Deribit =>
      VObject [("jsonrpc", VString "2.0");
               ("method", VString ("public/" ++ verb));
               ("params", VObject [("channels",
                                    VArray [VString ("book." ++ instId ++ ".100ms")])])]
  end.

Definition subscribe : Venue -> string -> value := request "subscribe".
Definition unsubscribe : Venue -> string -> value := request "unsubscribe".

(** The object [{ op: 'ping' }] of the Bybit keep-alive. *)
Definition ping : value := VObject [("op", VString "ping")].

Definition hex_digit (n : nat) : ascii :=
  ascii_of_nat (if (n <? 10)%nat then 48 + n else 87 + n).

(** How [JSON.stringify] writes one byte of a string. *)
Definition escape_byte (c : ascii) : list ascii :=
  let n := nat_of_ascii c in
  if Ascii.eqb c dquote then ["\"%char; dquote]
  else if Ascii.eqb c "\" then ["\"%char; "\"%char]
  else if (n =? 8)%nat then ["\"%char; "b"%char]
  else if (n =? 9)%nat then ["\"%char; "t"%char]
  else if (n =? 10)%nat then ["\"%char; "n"%char]
  else if (n =? 12)%nat then ["\"%char; "f"%char]
  else if (n =? 13)%nat then ["\"%char; "r"%char]
  else if (n <? 32)%nat then
    ["\"%char; "u"%char; "0"%char; "0"%char; hex_digit (n / 16); hex_digit (n mod 16)]
  else [c].

Definition quote (s : string) : list ascii :=
  (dquote :: flat_map escape_byte (list_ascii_of_string s) ++ [dquote])%list.

Fixpoint join (parts : list (list ascii)) : list ascii :=
  match parts with
  | [] => []
  | [p] => p
  | p :: rest => (p ++ ","%char :: join rest)%list
  end.

(** The order in which an object's own keys are written: the keys that are
    array indices, ascending, and then the others as they were set. *)
Fixpoint insert_by_index {A : Type} (i : nat) (x : A) (l : list (nat * A)) : list (nat * A) :=
  match l with
  | [] => [(i, x)]
  | (j, y) :: rest =>
      if (i <? j)%nat then (i, x) :: l else (j, y) :: insert_by_index i x rest
  end.

Definition own_keys_in_order {A : Type} (fs : list (string * A)) : list (string * A) :=
  let indexed :=
    fold_left (fun acc kv =>
                 match index_of_key (fst kv) with
                 | Some i => insert_by_index i kv acc
                 | None => acc
                 end) fs [] in
  (map snd indexed
   ++ filter (fun kv => match index_of_key (fst kv) with Some _ => false | None => true end) fs)%list.

(** [JSON.stringify(v)]; [None] stands for the [undefined] it returns for
    [undefined].  In an array [undefined] is written [null], in an object a
    property that is [undefined] is left out, and a number that is not
    finite is written [null]. *)
Fixpoint stringify (v : value) : option (list ascii) :=
  match v with
  | VUndefined => None
  | VNull => Some (list_ascii_of_string "null")
  | VBool b => Some (list_ascii_of_string (if b then "true" else "false"))
  | VNumber (Fin q) => Some (list_ascii_of_string (number_toString (Fin q)))
  | VNumber _ => Some (list_ascii_of_string "null")
  | VString s => Some (quote s)
  | VArray l =>
      Some ("["%char
              :: join (map (fun x => match stringify x with
                                     | Some t => t
                                     | None => list_ascii_of_string "null"
                                     end) l)
              ++ ["]"%char])%list
  | VObject fs =>
      let texts :=
        (fix members (fs : list (string * value)) : list (string * option (list ascii)) :=
           match fs with
           | [] => []
           | (k, x) :: rest => (k, stringify x) :: members rest
           end) fs in
      Some ("{"%char
              :: join (flat_map (fun kt =>
                                   match snd kt with
                                   | Some t => [(quote (fst kt) ++ ":"%char :: t)%list]
                                   | None => []
                                   end) (own_keys_in_order texts))
              ++ ["}"%char])%list
  end.

(** What is written for a value that has a text. *)
Definition text (v : value) : list ascii :=
  match stringify v with
  | Some t => t
  | None => []
  end.

(** One member of an object, as it is written. *)
Definition member_text (k : string) (t : list ascii) : list ascii :=
  (quote k ++ ":"%char :: t)%list.

(** The values made of strings, arrays and objects whose keys differ from
    one another and are no array indices: their text reads back as the
    value itself ([parse_stringify] below). *)
Definition plain_key (k : string) : bool :=
  match index_of_key k with
  | None => true
  | Some _ => false
  end.

Fixpoint distinct (ks : list string) : bool :=
  match ks with
  | [] => true
  | k :: rest => negb (existsb (String.eqb k) rest) && distinct rest
  end.

Fixpoint plain (v : value) : bool :=
  match v with
  | VString _ => true
  | VArray l => forallb plain l
  | VObject fs =>
      forallb (fun kv => plain_key (fst kv)) fs
      && distinct (map fst fs)
      && forallb (fun kv => plain (snd kv)) fs
  | _ => false
  end.

(** A text that begins with a byte no separator is made of, as the text of
    a string, an array or an object does. *)
Definition opens (t : list ascii) : Prop :=
  exists c t',
    t = c :: t'
    /\ is_json_space c = false
    /\ Ascii.eqb c "]" = false /\ Ascii.eqb c "}" = false
    /\ Ascii.eqb c "," = false.

(** [JSON.parse] reads the text of [v] back as [v], whatever follows it. *)
Definition reads_back (v : value) : Prop :=
  stringify v = Some (text v)
  /\ opens (text v)
  /\ forall (rest : list ascii) (m : nat),
       (2 * List.length (text v) <= m)%nat ->
       parse_value m (text v ++ rest) = Some (v, rest).

(** The text [send(JSON.stringify(v))] puts on the wire; [send(undefined)]
    would send the word. *)
Definition JSON_stringify (v : value) : string :=
  match stringify v with
  | Some t => string_of_list_ascii t
  | None => "undefined"
  end.

End Wire.

(** ** The feed session: the effect of [useOrderbookWebSocket]

    The page calls the hook three times, once for each venue with that
    venue's symbol, visible when the venue is the active one.  The hook's
    effect depends on [isVisible] alone (its other dependencies never
    change), so it runs at mount and for the two hooks a change of venue
    touches: React first runs the cleanups the previous runs returned, then
    the effects, both in the order of the hooks.

    A socket is the browser's: [close()] moves a socket that is connecting
    or open to CLOSING and changes no other; [send()] throws while the
    socket is connecting, transmits while it is open and discards
    afterwards; the browser fires [open] on a connecting socket, [message]
    on an open one, [close] once, on a socket not yet closed. *)

Module Session.
Import JS Adapters Wire.
Open Scope string_scope.

Inductive ReadyState : Type := CONNECTING | OPEN | CLOSING | CLOSED.

(** A socket with what its handlers share: [pingInterval] is the variable
    of the effect run that created the socket, read by that run's
    [onclose] and cleanup; [sent] holds the frames transmitted, oldest
    first. *)
Record Socket : Type := mkSocket {
  socket_venue : Venue;
  readyState : ReadyState;
  pingInterval : option nat;
  sent : list string
}.

(** One call of the hook: the ref [ws], the two [useState] cells, and the
    cleanup React holds for it, named by the socket of the run that
    returned it. *)
Record Hook : Type := mkHook {
  ws_current : option nat;
  orderbook : value;
  isConnected : bool;
  cleanup : option nat
}.

(** [intervals] are the running intervals, each with the hook whose [ws]
    its callback reads. *)
Record State : Type := mkState {
  activeVenue : Venue;
  hooks : Venue -> Hook;
  sockets : nat -> Socket;
  socket_count : nat;
  intervals : list (nat * Venue);
  interval_count : nat
}.

(** What can go wrong inside a handler: [ws.current] is [null], [send] is
    called on a connecting socket, or the message handler throws on the
    frame. *)
Inductive fault : Type :=
| NullSocket
| InvalidState
| Inbound (e : error).

Definition Venue_eqb (a b : Venue) : bool :=
  match a, b with
  | OKX, OKX | Bybit, Bybit | Deribit, Deribit => true
  | _, _ => false
  end.

Definition all_venues : list Venue := [OKX; Bybit; Deribit].

(** The symbols of the three calls. *)
Definition symbol_of (venue : Venue) : string :=
  match venue with
  | OKX => "BTC-USD-SWAP"
  | Bybit => "BTCUSDT"
  | Deribit => "BTC-PERPETUAL"
  end.

Definition set_activeVenue (venue : Venue) (st : State) : State :=
  {| activeVenue := venue;
     hooks := hooks st;
     sockets := sockets st;
     socket_count := socket_count st;
     intervals := intervals st;
     interval_count := interval_count st |}.

Definition set_hook (venue : Venue) (h : Hook) (st : State) : State :=
  {| activeVenue := activeVenue st;
     hooks := fun v => if Venue_eqb venue v then h else hooks st v;
     sockets := sockets st;
     socket_count := socket_count st;
     intervals := intervals st;
     interval_count := interval_count st |}.

Definition set_socket (id : nat) (s : Socket) (st : State) : State :=
  {| activeVenue := activeVenue st;
     hooks := hooks st;
     sockets := fun i => if Nat.eqb id i then s else sockets st i;
     socket_count := socket_count st;
     intervals := intervals st;
     interval_count := interval_count st |}.

Definition set_readyState (id : nat) (r : ReadyState) (st : State) : State :=
  let s := sockets st id in
  set_socket id (mkSocket (socket_venue s) r (pingInterval s) (sent s)) st.

Definition setIsConnected (venue : Venue) (b : bool) (st : State) : State :=
  let h := hooks st venue in
  set_hook venue (mkHook (ws_current h) (orderbook h) b (cleanup h)) st.

Definition setOrderbook (venue : Venue) (book : value) (st : State) : State :=
  let h := hooks st venue in
  set_hook venue (mkHook (ws_current h) book (isConnected h) (cleanup h)) st.

(** [socket.close()]. *)
Definition close (id : nat) (st : State) : State :=
  match readyState (sockets st id) with
  | CONNECTING | OPEN => set_readyState id CLOSING st
  | CLOSING | CLOSED => st
  end.

(** [socket.send(text)]. *)
Definition send (id : nat) (text : string) (st : State) : State + fault :=
  let s := sockets st id in
  match readyState s with
  | CONNECTING => inr InvalidState
  | OPEN =>
      inl (set_socket id
             (mkSocket (socket_venue s) OPEN (pingInterval s) (sent s ++ [text])) st)
  | CLOSING | CLOSED => inl st
  end.

(** [clearInterval(pingInterval)]; the variable may still be [undefined]. *)
Definition clearInterval (timer : option nat) (st : State) : State :=
  match timer with
  | None => st
  | Some t =>
      {| activeVenue := activeVenue st;
         hooks := hooks st;
         sockets := sockets st;
         socket_count := socket_count st;
         intervals := filter (fun tv => negb (Nat.eqb (fst tv) t)) (intervals st);
         interval_count := interval_count st |}
  end.

(** [pingInterval = setInterval(..., 20000)] in the run that created socket
    [self], for the hook of [venue]. *)
Definition setInterval (venue : Venue) (self : nat) (st : State) : State :=
  let t := interval_count st in
  let s := sockets st self in
  let st1 := set_socket self (mkSocket (socket_venue s) (readyState s) (Some t) (sent s)) st in
  {| activeVenue := activeVenue st1;
     hooks := hooks st1;
     sockets := sockets st1;
     socket_count := socket_count st1;
     intervals := intervals st1 ++ [(t, venue)];
     interval_count := S t |}.

(** [ws.current.onopen], set on socket [self] by the hook of [venue]. *)
Definition onopen (venue : Venue) (self : nat) (st : State) : State * option fault :=
  match ws_current (hooks st venue) with
  | None => (st, Some NullSocket)
  | Some current =>
      match send current (JSON_stringify (subscribe venue (symbol_of venue))) st with
      | inr f => (st, Some f)
      | inl st1 =>
          let st2 := setIsConnected venue true st1 in
          (match venue with
           | Bybit => setInterval venue self st2
           | _ => st2
           end, None)
      end
  end.

(** The callback of the Bybit interval. *)
Definition ping_callback (venue : Venue) (st : State) : State :=
  match ws_current (hooks st venue) with
  | Some current =>
      match readyState (sockets st current) with
      | OPEN =>
          match send current (JSON_stringify ping) st with
          | inl st1 => st1
          | inr _ => st
          end
      | _ => st
      end
  | None => st
  end.

(** [ws.current.onmessage] of the hook of [venue]. *)
Definition onmessage (venue : Venue) (raw : string) (st : State) : State * option fault :=
  match Adapters.onmessage venue (orderbook (hooks st venue)) raw with
  | Ok book => (setOrderbook venue book st, None)
  | Throw e => (st, Some (Inbound e))
  end.

(** [ws.current.onerror]. *)
Definition onerror (venue : Venue) (st : State) : State := setIsConnected venue false st.

(** [ws.current.onclose], set on socket [self]. *)
Definition onclose (venue : Venue) (self : nat) (st : State) : State :=
  clearInterval (pingInterval (sockets st self)) (setIsConnected venue false st).

(** The cleanup returned by the run that created socket [self]; [send] does
    not throw on an open socket, so the [catch] is never entered. *)
Definition run_cleanup (venue : Venue) (self : nat) (st : State) : State :=
  let st1 :=
    match ws_current (hooks st venue) with
    | Some current =>
        let st0 :=
          match readyState (sockets st current) with
          | OPEN =>
              match send current (JSON_stringify (unsubscribe venue (symbol_of venue))) st with
              | inl st' => st'
              | inr _ => st
              end
          | _ => st
          end in
        close current st0
    | None => st
    end in
  clearInterval (pingInterval (sockets st1 self)) st1.

(** One run of the effect for the hook of [venue]. *)
Definition run_effect (venue : Venue) (st : State) : State :=
  let h := hooks st venue in
  if Venue_eqb venue (activeVenue st) then
    let id := socket_count st in
    let st1 := set_socket id (mkSocket venue CONNECTING None []) st in
    let st2 := set_hook venue (mkHook (Some id) (orderbook h) (isConnected h) (Some id)) st1 in
    {| activeVenue := activeVenue st2;
       hooks := hooks st2;
       sockets := sockets st2;
       socket_count := S id;
       intervals := intervals st2;
       interval_count := interval_count st2 |}
  else
    let st1 :=
      match ws_current h with
      | Some current => close current st
      | None => st
      end in
    set_hook venue (mkHook None (orderbook h) (isConnected h) None) st1.

Definition cleanup_of (venue : Venue) (st : State) : State :=
  match cleanup (hooks st venue) with
  | Some self => run_cleanup venue self st
  | None => st
  end.

(** [setActiveVenue(venue)] and the render that follows. *)
Definition setActiveVenue (venue : Venue) (st : State) : State :=
  if Venue_eqb venue (activeVenue st) then st
  else
    let changed :=
      filter (fun v => Venue_eqb v (activeVenue st) || Venue_eqb v venue) all_venues in
    let st1 := set_activeVenue venue st in
    let st2 := fold_left (fun s v => cleanup_of v s) changed st1 in
    fold_left (fun s v => run_effect v s) changed st2.

(** The page before its first effects, and after them. *)
Definition blank : State :=
  {| activeVenue := OKX;
     hooks := fun _ => mkHook None initial_orderbook false None;
     sockets := fun _ => mkSocket OKX CLOSED None [];
     socket_count := 0;
     intervals := [];
     interval_count := 0 |}.

Definition mounted : State := fold_left (fun s v => run_effect v s) all_venues blank.

(** What happens to the page: a click on a venue tab, and what the browser
    reports of a socket or a timer. *)
Inductive event : Type :=
| Click (venue : Venue)
| Opened (id : nat)
| Message (id : nat) (raw : string)
| Errored (id : nat)
| PeerClosing (id : nat)
| Closed (id : nat)
| Tick (timer : nat).

Definition allocated (id : nat) (st : State) : bool := (id <? socket_count st)%nat.

(** One reaction: the state after it, and the fault that ended its handler,
    if one did.  An event the browser cannot deliver changes nothing. *)
Definition react (st : State) (e : event) : State * option fault :=
  match e with
  | Click venue => (setActiveVenue venue st, None)
  | Opened id =>
      match allocated id st, readyState (sockets st id) with
      | true, CONNECTING =>
          onopen (socket_venue (sockets st id)) id (set_readyState id OPEN st)
      | _, _ => (st, None)
      end
  | Message id raw =>
      match allocated id st, readyState (sockets st id) with
      | true, OPEN => onmessage (socket_venue (sockets st id)) raw st
      | _, _ => (st, None)
      end
  | Errored id =>
      match allocated id st, readyState (sockets st id) with
      | false, _ | _, CLOSED => (st, None)
      | _, _ => (onerror (socket_venue (sockets st id)) st, None)
      end
  | PeerClosing id =>
      match allocated id st, readyState (sockets st id) with
      | true, OPEN => (set_readyState id CLOSING st, None)
      | _, _ => (st, None)
      end
  | Closed id =>
      match allocated id st, readyState (sockets st id) with
      | false, _ | _, CLOSED => (st, None)
      | _, _ =>
          (onclose (socket_venue (sockets st id)) id (set_readyState id CLOSED st), None)
      end
  | Tick timer =>
      match find (fun tv => Nat.eqb (fst tv) timer) (intervals st) with
      | Some (_, venue) => (ping_callback venue st, None)
      | None => (st, None)
      end
  end.

Definition step (st : State) (e : event) : State := fst (react st e).

Definition run (es : list event) : State := fold_left step es mounted.

(** The book the page shows: [currentOrderbook]. *)
Definition currentOrderbook (st : State) : value := orderbook (hooks st (activeVenue st)).

(** The sockets that are connecting or open. *)
Definition live (s : Socket) : bool :=
  match readyState s with
  | CONNECTING | OPEN => true
  | CLOSING | CLOSED => false
  end.

End Session.

(** ** What every reachable session satisfies *)

Module Protocol.
Import JS Adapters Wire Session.

Definition subscribe_text (venue : Venue) : string :=
  JSON_stringify (subscribe venue (symbol_of venue)).

Definition unsubscribe_text (venue : Venue) : string :=
  JSON_stringify (unsubscribe venue (symbol_of venue)).

Definition ping_text : string := JSON_stringify ping.

(** The frames a connection may have carried: none, or the subscription,
    then pings on Bybit alone, then at most one cancellation of the
    subscription. *)
Definition conforms (venue : Venue) (frames : list string) : Prop :=
  frames = []
  \/ exists (pings : nat) (last : list string),
      frames = subscribe_text venue :: repeat ping_text pings ++ last
      /\ (pings <> 0%nat -> venue = Bybit)
      /\ (last = [] \/ last = [unsubscribe_text venue]).

(** The frames of a socket, by its state: nothing while connecting, the
    subscription and pings while open. *)
Definition history (s : Socket) : Prop :=
  match readyState s with
  | CONNECTING => sent s = []
  | OPEN =>
      exists pings : nat,
        sent s = subscribe_text (socket_venue s) :: repeat ping_text pings
        /\ (pings <> 0%nat -> socket_venue s = Bybit)
  | CLOSING | CLOSED => conforms (socket_venue s) (sent s)
  end.

Record invariant (st : State) : Prop := mkInvariant {
  inv_current :
    exists c,
      ws_current (hooks st (activeVenue st)) = Some c
      /\ cleanup (hooks st (activeVenue st)) = Some c
      /\ socket_venue (sockets st c) = activeVenue st
      /\ (c < socket_count st)%nat;
  inv_hidden :
    forall v, v <> activeVenue st ->
              ws_current (hooks st v) = None /\ cleanup (hooks st v) = None;
  inv_live :
    forall id, live (sockets st id) = true ->
               ws_current (hooks st (activeVenue st)) = Some id;
  inv_intervals :
    forall t v, In (t, v) (intervals st) ->
                v = Bybit /\ activeVenue st = Bybit
                /\ (t < interval_count st)%nat
                /\ exists c, ws_current (hooks st Bybit) = Some c
                             /\ pingInterval (sockets st c) = Some t;
  inv_nodup : NoDup (map fst (intervals st));
  inv_connecting :
    forall id, readyState (sockets st id) = CONNECTING ->
               pingInterval (sockets st id) = None;
  inv_history : forall id, history (sockets st id)
}.

(** [F] is [s] after the effects of a switch to [venue]: one new
    connecting socket, held by the hook of [venue] alone. *)
Definition switched (s F : State) (venue : Venue) : Prop :=
  activeVenue F = venue
  /\ (forall v, ws_current (hooks F v)
                = if Venue_eqb venue v then Some (socket_count s) else None)
  /\ (forall v, cleanup (hooks F v)
                = if Venue_eqb venue v then Some (socket_count s) else None)
  /\ (forall id, sockets F id
                 = if Nat.eqb (socket_count s) id then mkSocket venue CONNECTING None []
                   else sockets s id)
  /\ socket_count F = S (socket_count s)
  /\ intervals F = [].

(** A handler that ended normally, or on an exception of the message
    handler. *)
Definition harmless (f : option fault) : Prop :=
  f = None \/ exists e, f = Some (Inbound e).

End Protocol.

(** ** What the tables and the chart show *)

Module View.
Import JS Adapters Simulator Liquidity.
Open Scope string_scope.

(** [Math.max(x, y)]. *)
Definition max (x y : number) : number :=
  match x, y with
  | NaN, _ | _, NaN => NaN
  | _, _ => if ltb x y then y else x
  end.

(** [levels.slice(0, 15).reduce((acc, curr) => acc + parseFloat(curr[1]), 0)]. *)
Definition shown_total (levels : list Level) : number :=
  fold_left (fun acc curr => add acc (level_size curr)) (firstn 15 levels) zero.

Definition maxCumulative (book : Book) : number :=
  max (shown_total (bids book)) (shown_total (asks book)).

(** What an [OrderRow] is given and the width of its bar, in percent. *)
Record OrderRow : Type := mkOrderRow {
  row_price : option string;
  row_size : option string;
  row_cumulative : number;
  row_percentage : number;
  isSimulated : bool
}.

(** The rows of one table: [levels.slice(0, 15).map(([price, size], index) =>
    ...)], with the running total the callback adds to. *)
Fixpoint rows_from (maxC : number) (simulated : Z -> bool) (levels : list Level)
  (index : Z) (cumulative : number) : list OrderRow :=
  match levels with
  | [] => []
  | level :: rest =>
      let cumulative' := add cumulative (level_size level) in
      mkOrderRow (nth_error level 0) (nth_error level 1) cumulative'
        (mul (div cumulative' maxC) (of_Z 100)) (simulated index)
      :: rows_from maxC simulated rest (index + 1)%Z cumulative'
  end.

(** [simulatedOrder?.side === side]. *)
Definition side_is (order : option FormData) (s : string) : bool :=
  match order with
  | Some order => String.eqb (side order) s
  | None => false
  end.

Definition bid_rows (book : Book) (order : option FormData) : list OrderRow :=
  rows_from (maxCumulative book)
    (fun index => side_is order "Sell" && (index =? simulatedBidIndex book order)%Z)
    (firstn 15 (bids book)) 0%Z zero.

Definition ask_rows (book : Book) (order : option FormData) : list OrderRow :=
  rows_from (maxCumulative book)
    (fun index => side_is order "Buy" && (index =? simulatedAskIndex book order)%Z)
    (firstn 15 (asks book)) 0%Z zero.

(** A point of the depth chart. *)
Record Point : Type := mkPoint { point_price : number; point_size : number }.

Definition isNaN (x : number) : bool :=
  match x with
  | NaN => true
  | _ => false
  end.

(** The callback of the two [reduce] calls of [chartData]; the state is the
    array built so far and the running total it closes over. *)
Definition chart_step (st : list Point * number) (level : Level) : list Point * number :=
  let '(acc, cumulative) := st in
  let price := parseFloat_opt (nth_error level 0) in
  let size := parseFloat_opt (nth_error level 1) in
  if negb (isNaN price) && negb (isNaN size)
  then ((acc ++ [mkPoint price (add cumulative size)])%list, add cumulative size)
  else (acc, cumulative).

(** The levels that get a point: those whose price and size both parse. *)
Definition charted (level : Level) : bool :=
  negb (isNaN (level_price level)) && negb (isNaN (level_size level)).

(** The sum of the sizes of [levels], added up from the first on. *)
Definition running_total (levels : list Level) : number :=
  fold_left (fun acc level => add acc (level_size level)) levels zero.

(** [chartData.bids] and [chartData.asks]. *)
Definition bidData (bids : list Level) : list Point :=
  fst (fold_left chart_step (rev (firstn 50 bids)) ([], zero)).

Definition askData (asks : list Level) : list Point :=
  fst (fold_left chart_step (firstn 50 asks) ([], zero)).

(** Whether the chart is drawn, or the placeholder. *)
Definition chart_drawn (book : Book) : bool :=
  negb ((List.length (bidData (bids book)) =? 0)%nat
        || (List.length (askData (asks book)) =? 0)%nat).

(** [priceDomain], when the chart is drawn. *)
Definition priceDomain (book : Book) : option (number * number) :=
  match bidData (bids book), rev (askData (asks book)) with
  | first :: _, last :: _ => Some (point_price first, point_price last)
  | _, _ => None
  end.

End View.

(** ** Properties *)

Import JS Adapters Simulator Page Examples Routing.
Open Scope string_scope.

(** *** Numbers *)

Lemma eqb_eq (x y : number) : eqb x y = true -> x = y.
Proof.
  destruct x as [a| | |], y as [b| | |]; simpl; try discriminate; try reflexivity.
  destruct (Qccompare a b) eqn:E; try discriminate.
  intros _. f_equal. apply Qc_is_canon. apply Qeq_alt. exact E.
Qed.

Lemma gtb_not_leb (x y : number) : gtb x y = true -> leb x y = false.
Proof.
  unfold gtb, leb.
  destruct x as [a| | |], y as [b| | |]; simpl; try discriminate; try reflexivity.
  unfold Qccompare. rewrite <- (Qcompare_antisym (this a) (this b)).
  destruct (this a ?= this b)%Q; simpl; try discriminate; reflexivity.
Qed.

(** Closes a goal [x = y] between two numbers that evaluate. *)
Ltac number_eq := apply eqb_eq; vm_compute; reflexivity.

(** *** [JSON.parse]: the fuel is enough *)

Lemma skip_json_spaces_length (s : list ascii) :
  (List.length (skip_json_spaces s) <= List.length s)%nat.
Proof.
  induction s as [| c s IH]; simpl; [lia |].
  destruct (is_json_space c); simpl; lia.
Qed.

Lemma expect_length (c : ascii) (s r : list ascii) :
  expect c s = Some r -> (List.length r < List.length s)%nat.
Proof.
  unfold expect. pose proof (skip_json_spaces_length s) as H.
  destruct (skip_json_spaces s) as [| x r']; [discriminate |].
  destruct (Ascii.eqb x c); [| discriminate].
  intros [= <-]. simpl in H. lia.
Qed.

Lemma span_digits_length (s : list ascii) :
  (List.length (snd (span_digits s)) <= List.length s)%nat
  /\ (fst (span_digits s) <> [] ->
      (List.length (snd (span_digits s)) < List.length s)%nat).
Proof.
  induction s as [| c s [IH1 IH2]]; simpl.
  - split; [lia | intros H; contradiction].
  - destruct (is_digit c).
    + destruct (span_digits s) as [ds r]. simpl in *. split; intros; lia.
    + simpl. split; [lia | intros H; contradiction].
Qed.

Lemma strip_prefix_length (p s r : list ascii) :
  strip_prefix p s = Some r -> (List.length r + List.length p = List.length s)%nat.
Proof.
  revert s. induction p as [| a p IH]; intros s; simpl.
  - intros [= <-]. lia.
  - destruct s as [| b s]; [discriminate |].
    destruct (Ascii.eqb a b); [| discriminate].
    intros H. apply IH in H. simpl. lia.
Qed.

Lemma scan_sign_length (s : list ascii) :
  (List.length (snd (scan_sign s)) <= List.length s)%nat.
Proof.
  unfold scan_sign. destruct s as [| c r]; simpl; [lia |].
  destruct (Ascii.eqb c "+"); [simpl; lia |].
  destruct (Ascii.eqb c "-"); simpl; lia.
Qed.

Lemma scan_json_fraction_length (s fp r : list ascii) :
  scan_json_fraction s = Some (fp, r) -> (List.length r <= List.length s)%nat.
Proof.
  unfold scan_json_fraction. destruct s as [| c t]; [intros [= <- <-]; lia |].
  destruct (Ascii.eqb c ".").
  - pose proof (span_digits_length t) as [H _].
    destruct (span_digits t) as [[| d ds] r']; [discriminate |].
    intros [= <- <-]. simpl in *. lia.
  - intros [= <- <-]. lia.
Qed.

Lemma scan_json_exponent_length (s : list ascii) (e : Z) (r : list ascii) :
  scan_json_exponent s = Some (e, r) -> (List.length r <= List.length s)%nat.
Proof.
  unfold scan_json_exponent. destruct s as [| c t]; [intros [= <- <-]; lia |].
  destruct (Ascii.eqb c "e" || Ascii.eqb c "E").
  - pose proof (scan_sign_length t) as Hs.
    destruct (scan_sign t) as [minus r1]. simpl in Hs.
    pose proof (span_digits_length r1) as [Hd _].
    destruct (span_digits r1) as [[| d ds] r2]; [discriminate |].
    intros [= <- <-]. simpl in *. lia.
  - intros [= <- <-]. lia.
Qed.

Lemma scan_json_number_length (s : list ascii) (n : number) (r : list ascii) :
  scan_json_number s = Some (n, r) -> (List.length r < List.length s)%nat.
Proof.
  unfold scan_json_number.
  set (p := match s with
            | c :: r0 => if Ascii.eqb c "-" then (true, r0) else (false, s)
            | [] => (false, s)
            end).
  assert (Hp : (List.length (snd p) <= List.length s)%nat).
  { subst p. destruct s as [| c t]; simpl; [lia |].
    destruct (Ascii.eqb c "-"); simpl; lia. }
  destruct p as [minus s1]. simpl in Hp.
  pose proof (span_digits_length s1) as [_ Hd].
  destruct (span_digits s1) as [[| d more] r1]; [discriminate |].
  simpl in Hd.
  destruct (Ascii.eqb d "0" && negb (Nat.eqb (List.length more) 0)); [discriminate |].
  destruct (scan_json_fraction r1) as [[fp r2] |] eqn:Ef; [| discriminate].
  destruct (scan_json_exponent r2) as [[e r3] |] eqn:Ee; [| discriminate].
  intros [= _ <-].
  apply scan_json_fraction_length in Ef. apply scan_json_exponent_length in Ee.
  assert (d :: more <> []) as Hne by discriminate.
  specialize (Hd Hne). lia.
Qed.

Lemma scan_json_string_length (s : list ascii) :
  forall (acc : list ascii) (t : string) (r : list ascii),
    scan_json_string s acc = Some (t, r) -> (List.length r < List.length s)%nat.
Proof.
  induction s as [s IH] using (well_founded_induction
                                 (Wf_nat.well_founded_ltof _ (@List.length ascii))).
  unfold Wf_nat.ltof in IH.
  intros acc t r. destruct s as [| c s1]; simpl; [discriminate |].
  destruct (Ascii.eqb c dquote).
  - intros [= _ <-]. lia.
  - destruct (Ascii.eqb c "\").
    + destruct s1 as [| e s2]; [discriminate |].
      destruct (Ascii.eqb e "u").
      * destruct s2 as [| h1 [| h2 [| h3 [| h4 s3]]]]; try discriminate.
        destruct (hex4 h1 h2 h3 h4); [| discriminate].
        intros H. apply IH in H; simpl in *; lia.
      * destruct (unescape e); [| discriminate].
        intros H. apply IH in H; simpl in *; lia.
    + destruct (nat_of_ascii c <? 32)%nat; [discriminate |].
      intros H. apply IH in H; simpl in *; lia.
Qed.

Lemma scan_json_literal_length (s : list ascii) (v : value) (r : list ascii) :
  scan_json_literal s = Some (v, r) -> (List.length r < List.length s)%nat.
Proof.
  unfold scan_json_literal.
  destruct (strip_prefix (list_ascii_of_string "true") s) as [r1 |] eqn:E1.
  { intros [= _ <-]. apply strip_prefix_length in E1. simpl in E1. lia. }
  destruct (strip_prefix (list_ascii_of_string "false") s) as [r2 |] eqn:E2.
  { intros [= _ <-]. apply strip_prefix_length in E2. simpl in E2. lia. }
  destruct (strip_prefix (list_ascii_of_string "null") s) as [r3 |] eqn:E3.
  { intros [= _ <-]. apply strip_prefix_length in E3. simpl in E3. lia. }
  destruct (scan_json_number s) as [[n r4] |] eqn:E4; [| discriminate].
  intros [= _ <-]. exact (scan_json_number_length _ E4).
Qed.

Lemma parse_fuel (n : nat) :
  fuel_enough (fun n s (_ : unit) => parse_value n s) n
  /\ fuel_enough parse_elements n
  /\ fuel_enough parse_members n.
Proof.
  induction n as [| n (IHv & IHe & IHm)].
  - repeat split; discriminate.
  - split; [| split].
    + (* a value *)
      intros s [] v r. cbn [parse_value].
      pose proof (skip_json_spaces_length s) as Hskip.
      destruct (skip_json_spaces s) as [| c s0] eqn:Es; [discriminate |].
      simpl in Hskip.
      destruct (Ascii.eqb c "{") eqn:Eo.
      { destruct (expect "}" s0) as [r' |] eqn:Ec.
        - intros [= <- <-]. pose proof (expect_length _ _ Ec).
          split; [lia |]. intros [| m] Hm; [lia |].
          cbn [parse_value]. rewrite Es, Eo, Ec. reflexivity.
        - intros H. destruct (IHm _ _ _ _ H) as [Hlen Hm'].
          split; [lia |]. intros [| m] Hm; [lia |].
          cbn [parse_value]. rewrite Es, Eo, Ec. apply Hm'. lia. }
      destruct (Ascii.eqb c "[") eqn:Ea.
      { destruct (expect "]" s0) as [r' |] eqn:Ec.
        - intros [= <- <-]. pose proof (expect_length _ _ Ec).
          split; [lia |]. intros [| m] Hm; [lia |].
          cbn [parse_value]. rewrite Es, Eo, Ea, Ec. reflexivity.
        - intros H. destruct (IHe _ _ _ _ H) as [Hlen Hm'].
          split; [lia |]. intros [| m] Hm; [lia |].
          cbn [parse_value]. rewrite Es, Eo, Ea, Ec. apply Hm'. lia. }
      destruct (Ascii.eqb c dquote) eqn:Eq.
      { destruct (scan_json_string s0 []) as [[t r'] |] eqn:Et; [| discriminate].
        intros [= <- <-]. pose proof (scan_json_string_length _ _ Et).
        split; [lia |]. intros [| m] Hm; [lia |].
        cbn [parse_value]. rewrite Es, Eo, Ea, Eq, Et. reflexivity. }
      intros H. pose proof (scan_json_literal_length _ H) as Hlen. simpl in Hlen.
      split; [lia |]. intros [| m] Hm; [lia |].
      cbn [parse_value]. rewrite Es, Eo, Ea, Eq. exact H.
    + (* the elements of an array *)
      intros s acc v r. cbn [parse_elements].
      destruct (parse_value n s) as [[v1 r1] |] eqn:Ev; [| discriminate].
      destruct (IHv s tt v1 r1 Ev) as [Hlen1 Hm1].
      destruct (expect "," r1) as [r2 |] eqn:Ec.
      { intros H. destruct (IHe _ _ _ _ H) as [Hlen Hm'].
        pose proof (expect_length _ _ Ec).
        split; [lia |]. intros [| m] Hm; [lia |].
        cbn [parse_elements]. rewrite (Hm1 m) by lia. rewrite Ec. apply Hm'. lia. }
      destruct (expect "]" r1) as [r2 |] eqn:Ee; [| discriminate].
      intros [= <- <-]. pose proof (expect_length _ _ Ee).
      split; [lia |]. intros [| m] Hm; [lia |].
      cbn [parse_elements]. rewrite (Hm1 m) by lia. rewrite Ec, Ee. reflexivity.
    + (* the members of an object *)
      intros s acc v r. cbn [parse_members].
      destruct (expect dquote s) as [s1 |] eqn:Eq; [| discriminate].
      destruct (scan_json_string s1 []) as [[k s2] |] eqn:Ek; [| discriminate].
      destruct (expect ":" s2) as [s3 |] eqn:Ecolon; [| discriminate].
      destruct (parse_value n s3) as [[v1 r1] |] eqn:Ev; [| discriminate].
      destruct (IHv s3 tt v1 r1 Ev) as [Hlen1 Hm1].
      pose proof (expect_length _ _ Eq).
      pose proof (scan_json_string_length _ _ Ek).
      pose proof (expect_length _ _ Ecolon).
      destruct (expect "," r1) as [r2 |] eqn:Ec.
      { intros H'. destruct (IHm _ _ _ _ H') as [Hlen Hm'].
        pose proof (expect_length _ _ Ec).
        split; [lia |]. intros [| m] Hm; [lia |].
        cbn [parse_members]. rewrite Eq, Ek, Ecolon.
        rewrite (Hm1 m) by lia. rewrite Ec. apply Hm'. lia. }
      destruct (expect "}" r1) as [r2 |] eqn:Ee; [| discriminate].
      intros [= <- <-]. pose proof (expect_length _ _ Ee).
      split; [lia |]. intros [| m] Hm; [lia |].
      cbn [parse_members]. rewrite Eq, Ek, Ecolon.
      rewrite (Hm1 m) by lia. rewrite Ec, Ee. reflexivity.
Qed.

(** Whatever some amount of fuel reads from a text, the fuel [JSON_parse]
    gives reads it too: no text is rejected for want of fuel. *)
Lemma parse_value_fuel (n : nat) (s : list ascii) (v : value) (r : list ascii) :
  parse_value n s = Some (v, r) ->
  parse_value (2 * List.length s + 2) s = Some (v, r).
Proof.
  intros H. destruct (proj1 (parse_fuel n) s tt v r H) as [_ Hm].
  apply Hm. lia.
Qed.

(** *** The impact simulator *)

Lemma orderType_limit_not_market (order : FormData) :
  orderType order = "Limit" -> String.eqb (orderType order) "Market" = false.
Proof. intros ->. reflexivity. Qed.

(** C7. For every limit order and every book, the slippage and the price
    impact that [calculateMetrics] returns are exactly [0]: the limit
    branch assigns neither. *)
Theorem limit_order_slippage_and_impact_are_zero (order : FormData) (book : Book) :
  orderType order = "Limit" ->
  slippage (calculateMetrics order book) = zero
  /\ impact (calculateMetrics order book) = zero.
Proof.
  intros H. unfold calculateMetrics.
  rewrite (orderType_limit_not_market order H). split; reflexivity.
Qed.

Lemma limit_order_slippage_and_impact_are_zero_witness :
  let order := mkForm "BTCUSDT" "Limit" "Sell" (Some "98.5") "3" "0" in
  let book := mkBook [["99"; "1"]; ["98"; "2"]] [["100"; "1"]] in
  slippage (calculateMetrics order book) = zero
  /\ impact (calculateMetrics order book) = zero.
Proof.
  intros order book.
  apply (limit_order_slippage_and_impact_are_zero order book). reflexivity.
Defined.

Lemma slippage_warning_not_empty (imp : number) : slippage_warning imp <> "".
Proof. unfold slippage_warning. simpl. discriminate. Qed.

(** C8. The warning of a simulation result is a non-empty string if and
    only if the computed slippage exceeds [0.5]; at or below [0.5] (and for
    a slippage that is no number) it is the empty string the result starts
    with. *)
Theorem warning_iff_slippage_exceeds_half (order : FormData) (book : Book) :
  let m := calculateMetrics order book in
  (warning m <> "" <-> gtb (slippage m) (of_Q (1 # 2)) = true)
  /\ (warning m = "" <-> gtb (slippage m) (of_Q (1 # 2)) = false).
Proof.
  unfold calculateMetrics.
  destruct (if String.eqb (orderType order) "Market" then _ else _)
    as [[filled slip] imp].
  cbn [warning slippage].
  destruct (gtb slip (of_Q (1 # 2))) eqn:E.
  - split; split.
    + reflexivity.
    + intros _. apply slippage_warning_not_empty.
    + intros H. exfalso. exact (slippage_warning_not_empty H).
    + discriminate.
  - split; split.
    + intros H. exfalso. apply H. reflexivity.
    + discriminate.
    + reflexivity.
    + reflexivity.
Qed.

(** C10. An order whose parsed quantity is not strictly positive (zero,
    negative, or no number) is reported as filled at [100] percent by
    [calculateMetrics], which rejects nothing; it is the form's
    [handleSubmit] that turns away an empty, zero or negative quantity. *)
Theorem nonpositive_quantity_is_reported_fully_filled :
  (forall (order : FormData) (book : Book),
      gtb (parseFloat (quantity order)) zero = false ->
      fillPercent (calculateMetrics order book) = of_Z 100)
  /\ (forall formData : FormData,
        quantity formData = "" \/ leb (parseFloat (quantity formData)) zero = true ->
        exists error, handleSubmit formData = Rejected error).
Proof.
  split.
  - intros order book H. unfold calculateMetrics.
    destruct (if String.eqb (orderType order) "Market" then _ else _)
      as [[filled slip] imp].
    cbn [fillPercent]. rewrite H. reflexivity.
  - intros formData H. unfold handleSubmit.
    destruct (String.eqb (orderType formData) "Limit"
              && (falsy_text (price formData)
                  || leb (parseFloat_opt (price formData)) zero)).
    + eexists. reflexivity.
    + assert (E : falsy_text (Some (quantity formData))
                  || leb (parseFloat (quantity formData)) zero = true).
      { destruct H as [H | H].
        - rewrite H. reflexivity.
        - rewrite H. apply orb_true_r. }
      rewrite E. eexists. reflexivity.
Qed.

Lemma nonpositive_quantity_is_reported_fully_filled_witness :
  let book := mkBook [["99"; "1"]] [["100"; "1"]; ["101"; "2"]] in
  fillPercent (calculateMetrics (mkForm "BTCUSDT" "Market" "Buy" (Some "") "0" "0") book)
    = of_Z 100
  /\ fillPercent (calculateMetrics (mkForm "BTCUSDT" "Limit" "Sell" (Some "99") "-2" "0") book)
    = of_Z 100
  /\ fillPercent (calculateMetrics (mkForm "BTCUSDT" "Market" "Sell" (Some "") "abc" "0") book)
    = of_Z 100
  /\ exists error,
      handleSubmit (mkForm "BTCUSDT" "Market" "Buy" (Some "") "0" "0") = Rejected error.
Proof.
  intros book.
  split; [| split; [| split]].
  - apply (proj1 nonpositive_quantity_is_reported_fully_filled). reflexivity.
  - apply (proj1 nonpositive_quantity_is_reported_fully_filled). reflexivity.
  - apply (proj1 nonpositive_quantity_is_reported_fully_filled). reflexivity.
  - apply (proj2 nonpositive_quantity_is_reported_fully_filled). right. reflexivity.
Defined.

(** A quantity that is no number is not turned away by the form, and the
    order is then reported as filled. *)
Example unparsable_quantity_passes_the_form :
  let formData := mkForm "BTCUSDT" "Market" "Buy" (Some "") "abc" "0" in
  handleSubmit formData = Submitted formData
  /\ fillPercent (calculateMetrics formData two_level_book) = of_Z 100.
Proof. split; reflexivity. Qed.

Lemma findIndex_from_spec {A : Type} (f : A -> bool) (l : list A) :
  forall i : Z,
    (findIndex_from f l i = (-1)%Z /\ forall x, In x l -> f x = false)
    \/ (exists n x,
          findIndex_from f l i = (i + Z.of_nat n)%Z
          /\ nth_error l n = Some x /\ f x = true
          /\ forall m y, (m < n)%nat -> nth_error l m = Some y -> f y = false).
Proof.
  induction l as [| a l IH]; intros i; simpl.
  - left. split; [reflexivity | intros x []].
  - destruct (f a) eqn:Fa.
    + right. exists 0%nat, a. repeat split.
      * lia.
      * exact Fa.
      * intros m y Hm. lia.
    + destruct (IH (i + 1)%Z) as [[E Hall] | (n & x & E & Hn & Fx & Hbefore)].
      * left. split; [exact E |].
        intros x [<- | Hx]; [exact Fa | exact (Hall x Hx)].
      * right. exists (S n), x. repeat split.
        -- rewrite E. lia.
        -- exact Hn.
        -- exact Fx.
        -- intros [| m] y Hm Hy; simpl in Hy.
           ++ injection Hy as <-. exact Fa.
           ++ apply (Hbefore m y); [lia | exact Hy].
Qed.

Lemma findIndex_first_index {A : Type} (f : A -> bool) (l : list A) :
  Spec.first_index f l (findIndex f l).
Proof.
  unfold Spec.first_index, findIndex.
  destruct (findIndex_from_spec f l 0) as [H | (n & x & E & H)].
  - left. exact H.
  - right. exists n, x. split; [rewrite E; lia | exact H].
Qed.

(** C9. The book locator index of a pending order is the index of the first
    level of the asks ladder whose price the order's price is at or above
    (a Buy), or of the first level of the bids ladder whose price the
    order's price is at or below (a Sell); it is [-1] when no level of that
    ladder qualifies, an empty ladder included. *)
Theorem book_locator_index_is_first_match (order : FormData) (book : Book) :
  let orderPrice := parseFloat_opt (price order) in
  (side order = "Buy" ->
   Spec.first_index (fun level => geb orderPrice (level_price level))
     (asks book) (simulatedAskIndex book (Some order)))
  /\ (side order = "Sell" ->
      Spec.first_index (fun level => leb orderPrice (level_price level))
        (bids book) (simulatedBidIndex book (Some order))).
Proof.
  intros orderPrice. unfold simulatedAskIndex, simulatedBidIndex, findSimulatedIndex.
  split; intros ->; simpl String.eqb; cbv iota; apply findIndex_first_index.
Qed.

Lemma book_locator_index_is_first_match_witness :
  let book := mkBook [["99"; "1"]; ["98"; "2"]] [["100"; "1"]; ["101"; "2"]] in
  Spec.first_index (fun level => geb (parseFloat "100.5") (level_price level))
    (asks book)
    (simulatedAskIndex book (Some (mkForm "BTCUSDT" "Limit" "Buy" (Some "100.5") "1" "0")))
  /\ Spec.first_index (fun level => leb (parseFloat "98.5") (level_price level))
       (bids book)
       (simulatedBidIndex book (Some (mkForm "BTCUSDT" "Limit" "Sell" (Some "98.5") "1" "0"))).
Proof.
  intros book. split.
  - apply (proj1 (book_locator_index_is_first_match
                    (mkForm "BTCUSDT" "Limit" "Buy" (Some "100.5") "1" "0") book)).
    reflexivity.
  - apply (proj2 (book_locator_index_is_first_match
                    (mkForm "BTCUSDT" "Limit" "Sell" (Some "98.5") "1" "0") book)).
    reflexivity.
Defined.

Example locator_examples :
  let book := mkBook [["99"; "1"]; ["98"; "2"]] [["100"; "1"]; ["101"; "2"]] in
  simulatedAskIndex book (Some (mkForm "BTCUSDT" "Limit" "Buy" (Some "100.5") "1" "0")) = 0%Z
  /\ simulatedAskIndex book (Some (mkForm "BTCUSDT" "Limit" "Buy" (Some "99.5") "1" "0")) = (-1)%Z
  /\ simulatedBidIndex book (Some (mkForm "BTCUSDT" "Limit" "Sell" (Some "98.5") "1" "0")) = 0%Z
  /\ simulatedBidIndex book (Some (mkForm "BTCUSDT" "Limit" "Sell" (Some "99.5") "1" "0")) = (-1)%Z
  /\ simulatedAskIndex (mkBook [] []) (Some (mkForm "BTCUSDT" "Limit" "Buy" (Some "1") "1" "0")) = (-1)%Z.
Proof. vm_compute. repeat split. Qed.

(** While the quantity left is positive at the head of the loop, the market
    loop and the specification's walk agree. *)
Lemma market_loop_refines_walk (levels : list Level) :
  forall st : Fill,
    leb (qtyToFill st) zero = false ->
    let final := for_of market_body levels st in
    (filledQty final, totalCost final)
    = Spec.market_walk levels (qtyToFill st) (filledQty st) (totalCost st).
Proof.
  induction levels as [| level rest IH]; intros st Hpos.
  - reflexivity.
  - cbn [for_of Spec.market_walk]. rewrite Hpos.
    unfold market_body. cbv zeta.
    set (fill := min (qtyToFill st) (parseFloat_opt (nth_error level 1))).
    set (st' := {| filledQty := (filledQty st + fill)%js;
                   totalCost := (totalCost st + fill * parseFloat_opt (nth_error level 0))%js;
                   qtyToFill := (qtyToFill st - fill)%js |}).
    unfold break_when_filled.
    destruct (leb (qtyToFill st') zero) eqn:Hfilled.
    + destruct rest as [| next rest']; cbn [Spec.market_walk].
      * reflexivity.
      * change (qtyToFill st - fill)%js with (qtyToFill st').
        rewrite Hfilled. reflexivity.
    + exact (IH st' Hfilled).
Qed.

(** C5. A market order walks the levels of the opposite side in order: at
    each level it fills [min(remaining, levelSize)] and adds the fill times
    the level's price to the total cost, until nothing remains or the levels
    are exhausted; the average fill price is [totalCost / filledQty] and the
    fill percentage is [filledQty / quantity * 100].  On asks
    [[100,1],[101,2],[102,5]] a Buy of 2 fills 2 at an average of 100.5,
    that is 100 percent, and a Buy of 10 fills 8, that is 80 percent, at an
    average of [(100*1+101*2+102*5)/8]. *)
Theorem market_order_walks_the_opposite_side :
  (forall (order : FormData) (book : Book),
      orderType order = "Market" ->
      gtb (parseFloat (quantity order)) zero = true ->
      let qty := parseFloat (quantity order) in
      let levels := bookSide (side order) book in
      let st := marketLoop levels qty in
      (filledQty st, totalCost st) = Spec.market_walk levels qty zero zero
      /\ avgFillPrice st = (totalCost st / filledQty st)%js
      /\ impact (calculateMetrics order book)
         = abs (avgFillPrice st - entryPrice levels)%js
      /\ fillPercent (calculateMetrics order book)
         = (filledQty st / qty * of_Z 100)%js)
  /\ (let asks := [["100"; "1"]; ["101"; "2"]; ["102"; "5"]] in
      let buy quantity := mkForm "BTCUSDT" "Market" "Buy" (Some "") quantity "0" in
      (filledQty (marketLoop asks (parseFloat "2")) = of_Z 2
       /\ avgFillPrice (marketLoop asks (parseFloat "2")) = of_Q (201 # 2)
       /\ fillPercent (calculateMetrics (buy "2") (mkBook [] asks)) = of_Z 100)
      /\ (filledQty (marketLoop asks (parseFloat "10")) = of_Z 8
          /\ avgFillPrice (marketLoop asks (parseFloat "10"))
             = of_Q ((100 * 1 + 101 * 2 + 102 * 5) # 8)
          /\ fillPercent (calculateMetrics (buy "10") (mkBook [] asks)) = of_Z 80)).
Proof.
  split.
  - intros order book Hmarket Hqty qty levels st.
    split; [| split; [| split]].
    + exact (market_loop_refines_walk levels (start qty) (gtb_not_leb _ _ Hqty)).
    + reflexivity.
    + unfold calculateMetrics. rewrite Hmarket. reflexivity.
    + unfold calculateMetrics. rewrite Hmarket. cbn [String.eqb Ascii.eqb Bool.eqb].
      cbn [fillPercent]. rewrite Hqty. reflexivity.
  - cbv zeta beta. split; (split; [number_eq | split; number_eq]).
Qed.

Lemma market_order_walks_the_opposite_side_witness :
  let order := mkForm "BTCUSDT" "Market" "Sell" (Some "") "2.5" "0" in
  let book := mkBook [["99"; "1"]; ["98"; "2"]] [["100"; "1"]] in
  let st := marketLoop (bids book) (parseFloat "2.5") in
  (filledQty st, totalCost st)
  = Spec.market_walk (bids book) (parseFloat "2.5") zero zero
  /\ avgFillPrice st = (totalCost st / filledQty st)%js
  /\ impact (calculateMetrics order book)
     = abs (avgFillPrice st - entryPrice (bids book))%js
  /\ fillPercent (calculateMetrics order book)
     = (filledQty st / parseFloat "2.5" * of_Z 100)%js.
Proof.
  intros order book.
  apply (proj1 market_order_walks_the_opposite_side order book); reflexivity.
Defined.

Section LimitWalk.

Variable side : string.
Variable limitPrice : number.

Lemma canFill_eligible (level : Level) :
  canFill side limitPrice (parseFloat_opt (nth_error level 0))
  = Spec.eligible side limitPrice level.
Proof. reflexivity. Qed.

(** Two states of a walk that hold the same quantities. *)
Let same_quantities (st sm : Fill) : Prop :=
  filledQty st = filledQty sm /\ qtyToFill st = qtyToFill sm.

(** While the quantity left is positive at the head of the loop, the limit
    loop moves the quantities as the market loop does on the eligible
    levels alone. *)
Lemma limit_loop_skips_ineligible (levels : list Level) :
  forall st sm : Fill,
    same_quantities st sm ->
    leb (qtyToFill st) zero = false ->
    same_quantities
      (for_of (limit_body side limitPrice) levels st)
      (for_of market_body (filter (Spec.eligible side limitPrice) levels) sm).
Proof.
  unfold same_quantities.
  induction levels as [| level rest IH]; intros st sm [Hf Hq] Hpos.
  - split; assumption.
  - cbn [for_of filter]. unfold limit_body. rewrite canFill_eligible.
    destruct (Spec.eligible side limitPrice level).
    + cbn [for_of]. unfold market_body. cbv zeta. rewrite <- Hq, <- Hf.
      set (fill := min (qtyToFill st) (parseFloat_opt (nth_error level 1))).
      unfold break_when_filled. cbn [qtyToFill].
      destruct (leb (qtyToFill st - fill)%js zero) eqn:Hfilled.
      * split; reflexivity.
      * apply IH; [split; reflexivity | exact Hfilled].
    + unfold break_when_filled. rewrite Hpos. apply IH; [split |]; assumption.
Qed.

End LimitWalk.

(** C6. In a limit order a level of the consumed side fills quantity only
    when its price is at or below the limit (a Buy) or at or above it (a
    Sell): the quantities the loop ends with are those of the market walk
    over the eligible levels alone, an ineligible level leaves the state as
    it is and the walk goes on to the next level.  On bids
    [[99,1],[98,2]] a Sell of 1 with limit 100 fills nothing: filled
    quantity 0 and fill percentage 0. *)
Theorem limit_order_fills_only_eligible_levels :
  (forall (order : FormData) (book : Book),
      orderType order = "Limit" ->
      gtb (parseFloat (quantity order)) zero = true ->
      let qty := parseFloat (quantity order) in
      let limitPrice := parseFloat_opt (price order) in
      let levels := bookSide (side order) book in
      let st := limitLoop (side order) limitPrice levels qty in
      let reference :=
        marketLoop (filter (Spec.eligible (side order) limitPrice) levels) qty in
      filledQty st = filledQty reference
      /\ qtyToFill st = qtyToFill reference
      /\ fillPercent (calculateMetrics order book)
         = (filledQty st / qty * of_Z 100)%js)
  /\ (forall (side : string) (limitPrice : number) (st : Fill) (level : Level),
        Spec.eligible side limitPrice level = false ->
        leb (qtyToFill st) zero = false ->
        limit_body side limitPrice st level = Next st)
  /\ (let bids := [["99"; "1"]; ["98"; "2"]] in
      let order := mkForm "BTCUSDT" "Limit" "Sell" (Some "100") "1" "0" in
      filledQty (limitLoop "Sell" (parseFloat "100") bids (parseFloat "1")) = zero
      /\ fillPercent (calculateMetrics order (mkBook bids [])) = zero).
Proof.
  split; [| split].
  - intros order book Hlimit Hqty qty limitPrice levels st reference.
    destruct (limit_loop_skips_ineligible (side order) limitPrice levels
                (st := start qty) (sm := start qty) (conj eq_refl eq_refl)
                (gtb_not_leb _ _ Hqty))
      as [Hf Hq].
    split; [exact Hf | split; [exact Hq |]].
    unfold calculateMetrics. rewrite (orderType_limit_not_market order Hlimit).
    cbn [fillPercent]. rewrite Hqty. reflexivity.
  - intros side limitPrice st level Hno Hpos.
    unfold limit_body. rewrite canFill_eligible, Hno.
    unfold break_when_filled. rewrite Hpos. reflexivity.
  - cbv zeta. split; number_eq.
Qed.

Lemma limit_order_fills_only_eligible_levels_witness :
  let order := mkForm "BTCUSDT" "Limit" "Buy" (Some "100.5") "4" "0" in
  let book := mkBook [["99"; "1"]] [["100"; "1"]; ["101"; "2"]; ["100.5"; "2"]] in
  let st := limitLoop "Buy" (parseFloat "100.5") (asks book) (parseFloat "4") in
  let reference :=
    marketLoop (filter (Spec.eligible "Buy" (parseFloat "100.5")) (asks book))
      (parseFloat "4") in
  filledQty st = filledQty reference
  /\ qtyToFill st = qtyToFill reference
  /\ fillPercent (calculateMetrics order book)
     = (filledQty st / parseFloat "4" * of_Z 100)%js.
Proof.
  intros order book.
  apply (proj1 limit_order_fills_only_eligible_levels order book); reflexivity.
Defined.

(** A market order on an empty side averages [0/0]. *)
Lemma market_impact_on_empty_side (order : FormData) (book : Book) :
  orderType order = "Market" ->
  bookSide (side order) book = [] ->
  impact (calculateMetrics order book) = NaN
  /\ slippage (calculateMetrics order book) = zero.
Proof.
  intros Hmarket Hempty. unfold calculateMetrics.
  rewrite Hmarket, Hempty. split; reflexivity.
Qed.

(** A limit order on an empty side degrades to zeros. *)
Lemma limit_metrics_on_empty_side (order : FormData) (book : Book) :
  orderType order = "Limit" ->
  bookSide (side order) book = [] ->
  gtb (parseFloat (quantity order)) zero = true ->
  calculateMetrics order book
  = {| fillPercent := (zero / parseFloat (quantity order) * of_Z 100)%js;
       slippage := zero; impact := zero; warning := "" |}.
Proof.
  intros Hlimit Hempty Hqty. unfold calculateMetrics.
  rewrite (orderType_limit_not_market order Hlimit), Hempty, Hqty. reflexivity.
Qed.

(** C4. A market Buy of 1 against a book with no asks: the fill percentage
    is [0] and the slippage is [0], but the average fill price is [0/0] and
    the price impact that is returned is [NaN], which is not [>= 0]; only
    the slippage is guarded by [entryPrice > 0 && filledQty > 0]. *)
Theorem market_order_on_empty_side_returns_NaN_impact :
  let m := calculateMetrics market_buy_one (mkBook [["99"; "1"]] []) in
  fillPercent m = zero
  /\ slippage m = zero
  /\ avgFillPrice (marketLoop [] (parseFloat "1")) = NaN
  /\ impact m = NaN
  /\ geb (impact m) zero = false
  /\ warning m = "".
Proof.
  cbv zeta. split; [number_eq |]. split; [number_eq |].
  repeat split.
Qed.

(** *** The venue adapters *)

Lemma ltb_asym (x y : number) : ltb x y = true -> ltb y x = false.
Proof.
  destruct x as [a| | |], y as [b| | |]; simpl; try discriminate; try reflexivity.
  unfold Qccompare. rewrite <- (Qcompare_antisym (this a) (this b)).
  destruct (this a ?= this b)%Q; simpl; try discriminate; reflexivity.
Qed.

Lemma strictly_ascending_app_last (ps : list number) (a b : number) :
  strictly_ascending (ps ++ [a; b])%list = true -> ltb a b = true.
Proof.
  induction ps as [| p ps IH]; simpl.
  - rewrite andb_true_r. trivial.
  - destruct (ps ++ [a; b])%list eqn:E.
    + destruct ps; discriminate.
    + intros H. apply andb_prop in H. apply IH. apply H.
Qed.

(** Ascending prices, two or more, are no longer ascending once reversed. *)
Lemma reversed_ascending_is_not_ascending (a b : number) (ps : list number) :
  strictly_ascending (a :: b :: ps) = true ->
  strictly_ascending (rev (a :: b :: ps)) = false.
Proof.
  intros H.
  destruct (strictly_ascending (rev (a :: b :: ps))) eqn:E; [| reflexivity].
  simpl in E. rewrite <- app_assoc in E. simpl in E.
  apply strictly_ascending_app_last in E.
  simpl in H. apply andb_prop in H. destruct H as [H _].
  rewrite (ltb_asym _ _ H) in E. discriminate.
Qed.

(** The OKX adapter reverses whatever asks a [books] message carries. *)
Lemma OKX_parse_reverses_asks (instId : string) (bids : value) (asks : list value) :
  OKX_parse
    (VObject [("arg", VObject [("channel", VString "books"); ("instId", VString instId)]);
              ("data", VArray [VObject [("asks", VArray asks); ("bids", bids)]])])
  = Ok (orderbook_object bids (VArray (rev asks))).
Proof. reflexivity. Qed.

(** The Bybit adapter hands both sides on as they came. *)
Lemma Bybit_parse_keeps_order (symbol : string) (bids asks : value) :
  Bybit_parse
    (VObject [("topic", VString ("orderbook.50." ++ symbol));
              ("data", VObject [("b", bids); ("a", asks)])])
  = Ok (orderbook_object bids asks).
Proof. reflexivity. Qed.

(** C1. On an OKX [books] snapshot whose bids descend and whose asks ascend
    by price, the handler publishes a book whose asks are the message's in
    reverse, so strictly descending: the book breaks the invariant that
    asks are strictly ascending, although the sides as sent satisfy it, and
    although the Bybit and Deribit adapters hand the same sides on in
    order. *)
Theorem OKX_adapter_publishes_descending_asks :
  canonical book_as_sent = true
  /\ published OKX okx_snapshot = Some book_as_parsed_by_OKX
  /\ asks book_as_parsed_by_OKX = rev (asks book_as_sent)
  /\ strictly_descending (map level_price (asks book_as_parsed_by_OKX)) = true
  /\ asks_canonical book_as_parsed_by_OKX = false
  /\ canonical book_as_parsed_by_OKX = false
  /\ option_map canonical (published Bybit bybit_snapshot) = Some true
  /\ option_map canonical (published Deribit deribit_snapshot) = Some true.
Proof. vm_compute. repeat split. Qed.

(** A text [JSON.parse] rejects never reaches an adapter: the handler ends
    with the parser's exception. *)
Lemma onmessage_malformed (venue : Venue) (orderbook : value) (raw : string) (e : error) :
  JSON_parse raw = Throw e -> onmessage venue orderbook raw = Throw e.
Proof. intros H. unfold onmessage. rewrite H. reflexivity. Qed.

Lemma isKeepAlive_total (venue : Venue) (data : value) :
  data <> VNull -> data <> VUndefined ->
  exists b, isKeepAlive venue data = Ok b.
Proof.
  intros Hnull Hundef. unfold isKeepAlive.
  assert (Hget : forall k, exists v, get data k = Ok v).
  { intros k. destruct data; try contradiction; simpl;
      repeat match goal with
             | |- context [if ?c then _ else _] => destruct c
             | |- context [match ?x with _ => _ end] => destruct x
             end; eexists; reflexivity. }
  destruct (Hget "event") as [event ->]. cbn [bind].
  destruct (strict_eq_string event "pong"); [eexists; reflexivity |].
  destruct (Hget "op") as [op ->]. cbn [bind].
  destruct (strict_eq_string op "pong"); [eexists; reflexivity |].
  destruct venue; try (eexists; reflexivity).
  destruct (Hget "method") as [method ->]. eexists; reflexivity.
Qed.

(** A message whose field read first by its adapter's guard ([arg],
    [topic], [params]) is missing or falsy is no update. *)
Lemma parse_unrouted (venue : Venue) (data v : value) :
  get data (routing_field venue) = Ok v ->
  truthy v = false ->
  parse venue data = Ok VUndefined.
Proof.
  intros Hget Hfalsy.
  destruct venue; cbn [routing_field parse] in *;
    unfold OKX_parse, Bybit_parse, Deribit_parse;
    rewrite Hget; cbn [bind]; rewrite Hfalsy; reflexivity.
Qed.

(** A message that names a channel other than the subscribed one is no
    update. *)
Lemma parse_other_channel (venue : Venue) (data : value) (name : string) :
  channel_of venue data = Ok (VString name) ->
  subscribed_channel venue name = false ->
  parse venue data = Ok VUndefined.
Proof.
  intros Hchannel Hother.
  destruct venue; cbn [channel_of subscribed_channel parse] in *.
  - unfold OKX_parse.
    destruct (get data "arg") as [arg | e]; [| discriminate]. cbn [bind] in *.
    rewrite Hchannel. cbn [bind strict_eq_string]. rewrite Hother.
    destruct (truthy arg); reflexivity.
  - unfold Bybit_parse. rewrite Hchannel.
    cbn [bind call_startsWith]. rewrite Hother.
    destruct (truthy (VString name)); reflexivity.
  - unfold Deribit_parse.
    destruct (get data "params") as [params | e]; [| discriminate]. cbn [bind] in *.
    rewrite Hchannel. cbn [bind call_startsWith]. rewrite Hother.
    destruct (truthy params); reflexivity.
Qed.

Lemma channel_of_defined (venue : Venue) (data v : value) :
  channel_of venue data = Ok v -> data <> VNull /\ data <> VUndefined.
Proof.
  intros H. split; intros ->; destruct venue; discriminate.
Qed.

Lemma onmessage_no_update (venue : Venue) (orderbook data : value) (raw : string) :
  JSON_parse raw = Ok data ->
  data <> VNull -> data <> VUndefined ->
  parse venue data = Ok VUndefined ->
  onmessage venue orderbook raw = Ok orderbook.
Proof.
  intros Hparse Hnull Hundef Hnone. unfold onmessage.
  rewrite Hparse. cbn [bind].
  destruct (@isKeepAlive_total venue data Hnull Hundef) as [[|] ->]; cbn [bind].
  - reflexivity.
  - rewrite Hnone. reflexivity.
Qed.

Lemma strict_eq_books (channel : value) :
  strict_eq_string channel "books" = on_subscribed_channel OKX channel.
Proof. destruct channel; reflexivity. Qed.

Lemma testable_string (venue : Venue) (channel : value) :
  venue <> OKX ->
  testable_channel venue channel = true ->
  exists name, channel = VString name.
Proof.
  intros Hvenue H.
  destruct venue; try congruence; destruct channel; try discriminate; eexists; reflexivity.
Qed.

(** A message on another channel than the subscribed one, whatever value
    names it, is no update. *)
Lemma parse_on_other_channel (venue : Venue) (data : value) :
  on_other_channel venue data -> parse venue data = Ok VUndefined.
Proof.
  intros (channel & Hchannel & Htest & Hother).
  destruct venue.
  - cbn [channel_of parse] in *. unfold OKX_parse.
    destruct (get data "arg") as [arg | e]; [| discriminate]. cbn [bind] in *.
    rewrite Hchannel. cbn [bind]. rewrite strict_eq_books, Hother.
    destruct (truthy arg); reflexivity.
  - destruct (testable_string (venue := Bybit) channel) as [name ->];
      [discriminate | exact Htest |].
    exact (@parse_other_channel Bybit data name Hchannel Hother).
  - destruct (testable_string (venue := Deribit) channel) as [name ->];
      [discriminate | exact Htest |].
    exact (@parse_other_channel Deribit data name Hchannel Hother).
Qed.

(** A message whose payload is missing or falsy is no update. *)
Lemma parse_without_payload (venue : Venue) (data : value) :
  without_payload venue data -> parse venue data = Ok VUndefined.
Proof.
  intros (channel & d & Hchannel & Htest & Hpayload & Hfalsy).
  destruct venue.
  - cbn [channel_of payload parse] in *. unfold OKX_parse.
    destruct (get data "arg") as [arg | e]; [| discriminate]. cbn [bind] in *.
    rewrite Hchannel, Hpayload. cbn [bind]. rewrite Hfalsy.
    destruct (truthy arg), (strict_eq_string channel "books"); reflexivity.
  - destruct (testable_string (venue := Bybit) channel) as [name ->];
      [discriminate | exact Htest |].
    cbn [channel_of payload parse] in *. unfold Bybit_parse.
    rewrite Hchannel, Hpayload. cbn [bind call_startsWith]. rewrite Hfalsy.
    destruct (truthy (VString name)), (String.prefix "orderbook.50" name); reflexivity.
  - destruct (testable_string (venue := Deribit) channel) as [name ->];
      [discriminate | exact Htest |].
    cbn [channel_of payload parse] in *. unfold Deribit_parse.
    destruct (get data "params") as [params | e]; [| discriminate]. cbn [bind] in *.
    rewrite Hchannel, Hpayload. cbn [bind call_startsWith]. rewrite Hfalsy.
    destruct (truthy params), (String.prefix "book." name); reflexivity.
Qed.

(** An OKX message whose payload has no positive length is no update. *)
Lemma parse_with_empty_payload (venue : Venue) (data : value) :
  with_empty_payload venue data -> parse venue data = Ok VUndefined.
Proof.
  intros (-> & channel & d & len & Hchannel & Hpayload & Hlen & Hempty).
  cbn [channel_of payload parse] in *. unfold OKX_parse.
  destruct (get data "arg") as [arg | e]; [| discriminate]. cbn [bind] in *.
  rewrite Hchannel, Hpayload. cbn [bind]. rewrite Hlen. cbn [bind]. rewrite Hempty.
  destruct (truthy arg), (strict_eq_string channel "books"), (truthy d); reflexivity.
Qed.

(** Where [startsWith] is called on a channel that is no string, the
    adapter throws. *)
Lemma parse_untestable_channel (venue : Venue) (data : value) :
  with_untestable_channel venue data -> parse venue data = Throw TypeError.
Proof.
  intros (v & channel & Hfield & Htruthy & Hchannel & Htest).
  destruct venue; [discriminate | |].
  - cbn [routing_field channel_of parse] in *. unfold Bybit_parse.
    assert (channel = v) by congruence. subst channel.
    rewrite Hfield. cbn [bind]. rewrite Htruthy. cbn [and_also].
    destruct v; try discriminate; reflexivity.
  - cbn [routing_field channel_of parse] in *. unfold Deribit_parse.
    rewrite Hfield in *. cbn [bind] in *. rewrite Htruthy, Hchannel. cbn [and_also bind].
    destruct channel; try discriminate; reflexivity.
Qed.

(** Whenever an adapter returns nothing, the message falls short of its
    guard in one of the four ways. *)
Lemma parse_nothing_classified (venue : Venue) (data : value) :
  parse venue data = Ok VUndefined ->
  unrouted venue data \/ on_other_channel venue data
  \/ without_payload venue data \/ with_empty_payload venue data.
Proof.
  intros H. destruct venue; cbn [parse] in H.
  - unfold OKX_parse in H.
    destruct (get data "arg") as [arg | e] eqn:Earg; [| discriminate].
    cbn [bind] in H.
    destruct (truthy arg) eqn:Targ;
      [| left; exists arg; split; [exact Earg | exact Targ]].
    cbn [and_also] in H.
    destruct (get arg "channel") as [channel | e] eqn:Echannel; [| discriminate].
    cbn [bind] in H.
    assert (Hchannel : channel_of OKX data = Ok channel)
      by (cbn [channel_of]; rewrite Earg; exact Echannel).
    destruct (strict_eq_string channel "books") eqn:Sbooks;
      [| right; left; exists channel; rewrite <- strict_eq_books; auto].
    cbn [and_also] in H.
    destruct (get data "data") as [d | e] eqn:Ed; [| discriminate].
    cbn [bind] in H.
    destruct (truthy d) eqn:Td;
      [| right; right; left; exists channel, d; auto].
    cbn [and_also] in H.
    destruct (get d "length") as [len | e] eqn:Elen; [| discriminate].
    cbn [bind] in H.
    destruct (gt_zero len) as [[|] | e] eqn:Egt; try discriminate.
    + cbn [bind] in H. rewrite ?Ed in H. cbn [bind] in H.
      destruct (get d "0") as [first | e]; [| discriminate]. cbn [bind] in H.
      destruct (get first "bids") as [bids | e]; [| discriminate]. cbn [bind] in H.
      destruct (get first "asks") as [asks | e]; [| discriminate]. cbn [bind] in H.
      destruct (call_reverse asks) as [reversed | e]; discriminate.
    + right; right; right. split; [reflexivity |]. exists channel, d, len. auto.
  - unfold Bybit_parse in H.
    destruct (get data "topic") as [topic | e] eqn:Etopic; [| discriminate].
    cbn [bind] in H.
    destruct (truthy topic) eqn:Ttopic;
      [| left; exists topic; split; [exact Etopic | exact Ttopic]].
    cbn [and_also] in H.
    destruct topic as [| | b | n | name | l | fs]; try discriminate.
    cbn [call_startsWith bind] in H.
    destruct (String.prefix "orderbook.50" name) eqn:Sprefix;
      [| right; left; exists (VString name); auto].
    cbn [and_also] in H.
    destruct (get data "data") as [d | e] eqn:Ed; [| discriminate].
    cbn [bind] in H.
    destruct (truthy d) eqn:Td;
      [| right; right; left; exists (VString name), d; auto].
    cbn [bind] in H. rewrite ?Ed in H. cbn [bind] in H.
    destruct (get d "b") as [bids | e]; [| discriminate]. cbn [bind] in H.
    destruct (get d "a") as [asks | e]; discriminate.
  - unfold Deribit_parse in H.
    destruct (get data "params") as [params | e] eqn:Eparams; [| discriminate].
    cbn [bind] in H.
    destruct (truthy params) eqn:Tparams;
      [| left; exists params; split; [exact Eparams | exact Tparams]].
    cbn [and_also] in H.
    destruct (get params "channel") as [channel | e] eqn:Echannel; [| discriminate].
    cbn [bind] in H.
    destruct channel as [| | b | n | name | l | fs]; try discriminate.
    cbn [call_startsWith bind] in H.
    assert (Hchannel : channel_of Deribit data = Ok (VString name))
      by (cbn [channel_of]; rewrite Eparams; exact Echannel).
    destruct (String.prefix "book." name) eqn:Sprefix;
      [| right; left; exists (VString name); auto].
    cbn [and_also] in H.
    destruct (get params "data") as [d | e] eqn:Ed; [| discriminate].
    cbn [bind] in H.
    assert (Hpayload : payload Deribit data = Ok d)
      by (cbn [payload]; rewrite Eparams; exact Ed).
    destruct (truthy d) eqn:Td;
      [| right; right; left; exists (VString name), d; auto].
    cbn [bind] in H. rewrite ?Eparams in H. cbn [bind] in H. rewrite ?Ed in H.
    cbn [bind] in H.
    destruct (get d "bids") as [bids | e]; [| discriminate]. cbn [bind] in H.
    destruct (get d "asks") as [asks | e]; [| discriminate]. cbn [bind] in H.
    destruct (call_map bids level_strings) as [bids' | e]; [| discriminate].
    cbn [bind] in H.
    destruct (call_map asks level_strings) as [asks' | e]; discriminate.
Qed.

Lemma parse_defined (venue : Venue) (data v : value) :
  parse venue data = Ok v -> data <> VNull /\ data <> VUndefined.
Proof. intros H. split; intros ->; destruct venue; discriminate. Qed.

Lemma refused_is_no_update (venue : Venue) (data : value) :
  unrouted venue data \/ on_other_channel venue data
  \/ without_payload venue data \/ with_empty_payload venue data ->
  parse venue data = Ok VUndefined.
Proof.
  intros [(v & Hget & Hfalsy) | [H | [H | H]]].
  - exact (@parse_unrouted venue data v Hget Hfalsy).
  - exact (parse_on_other_channel H).
  - exact (parse_without_payload H).
  - exact (parse_with_empty_payload H).
Qed.

(** C2, as amended. Nothing is caught on the way in: the [SyntaxError] of
    [JSON.parse] on a frame that is not well-formed JSON leaves the message
    handler, and so does the [TypeError] of a frame whose channel is no
    string where the guard calls [startsWith] on it.  A frame that is
    well-formed JSON is dropped without an exception, the published book
    unchanged, when it is a keep-alive frame and whenever it falls short of
    its adapter's guard: the field read first ([arg], [topic], [params]) is
    missing or falsy, the channel is another than the subscribed one, the
    payload is missing or falsy, or, on OKX, the payload has no positive
    length.  These are all the frames an adapter returns nothing for. *)
Theorem handler_drops_what_its_guard_refuses_and_catches_nothing
  (venue : Venue) (orderbook : value) (raw : string) :
  (forall e, JSON_parse raw = Throw e -> onmessage venue orderbook raw = Throw e)
  /\ (forall data,
        JSON_parse raw = Ok data ->
        isKeepAlive venue data = Ok true ->
        onmessage venue orderbook raw = Ok orderbook)
  /\ (forall data,
        JSON_parse raw = Ok data ->
        unrouted venue data \/ on_other_channel venue data
        \/ without_payload venue data \/ with_empty_payload venue data ->
        onmessage venue orderbook raw = Ok orderbook)
  /\ (forall data,
        JSON_parse raw = Ok data ->
        isKeepAlive venue data = Ok false ->
        with_untestable_channel venue data ->
        onmessage venue orderbook raw = Throw TypeError)
  /\ (forall data,
        JSON_parse raw = Ok data ->
        parse venue data = Ok VUndefined ->
        (unrouted venue data \/ on_other_channel venue data
         \/ without_payload venue data \/ with_empty_payload venue data)
        /\ onmessage venue orderbook raw = Ok orderbook).
Proof.
  split; [| split; [| split; [| split]]].
  - intros e. apply onmessage_malformed.
  - intros data Hparse Hkeep. unfold onmessage.
    rewrite Hparse. cbn [bind]. rewrite Hkeep. reflexivity.
  - intros data Hparse Hrefused.
    pose proof (refused_is_no_update Hrefused) as Hnone.
    destruct (parse_defined _ _ Hnone) as [Hnull Hundef].
    exact (@onmessage_no_update venue orderbook data raw Hparse Hnull Hundef Hnone).
  - intros data Hparse Hkeep Hchannel. unfold onmessage.
    rewrite Hparse. cbn [bind]. rewrite Hkeep. cbn [bind].
    rewrite (parse_untestable_channel Hchannel). reflexivity.
  - intros data Hparse Hnone. split; [exact (parse_nothing_classified _ _ Hnone) |].
    destruct (parse_defined _ _ Hnone) as [Hnull Hundef].
    exact (@onmessage_no_update venue orderbook data raw Hparse Hnull Hundef Hnone).
Qed.

Lemma handler_drops_what_its_guard_refuses_and_catches_nothing_witness :
  onmessage Bybit initial_orderbook malformed = Throw SyntaxError
  /\ onmessage Deribit initial_orderbook deribit_heartbeat = Ok initial_orderbook
  /\ onmessage Deribit initial_orderbook deribit_ack = Ok initial_orderbook
  /\ onmessage OKX initial_orderbook okx_trades = Ok initial_orderbook
  /\ onmessage OKX initial_orderbook okx_without_channel = Ok initial_orderbook
  /\ onmessage OKX initial_orderbook okx_ack = Ok initial_orderbook
  /\ onmessage Bybit initial_orderbook bybit_without_data = Ok initial_orderbook
  /\ onmessage Deribit initial_orderbook deribit_without_data = Ok initial_orderbook
  /\ onmessage OKX initial_orderbook okx_empty_data = Ok initial_orderbook
  /\ onmessage Deribit initial_orderbook deribit_without_channel = Throw TypeError
  /\ onmessage Bybit initial_orderbook bybit_numeric_topic = Throw TypeError.
Proof.
  repeat match goal with |- _ /\ _ => split end.
  - apply (proj1 (handler_drops_what_its_guard_refuses_and_catches_nothing
                    Bybit initial_orderbook malformed)).
    reflexivity.
  - eapply (proj1 (proj2 (handler_drops_what_its_guard_refuses_and_catches_nothing
                            Deribit initial_orderbook deribit_heartbeat)));
      [vm_compute; reflexivity | reflexivity].
  - eapply (proj1 (proj2 (proj2 (handler_drops_what_its_guard_refuses_and_catches_nothing
                                   Deribit initial_orderbook deribit_ack))));
      [vm_compute; reflexivity |].
    left. eexists. split; reflexivity.
  - eapply (proj1 (proj2 (proj2 (handler_drops_what_its_guard_refuses_and_catches_nothing
                                   OKX initial_orderbook okx_trades))));
      [vm_compute; reflexivity |].
    right; left. eexists. split; [reflexivity | split; reflexivity].
  - eapply (proj1 (proj2 (proj2 (handler_drops_what_its_guard_refuses_and_catches_nothing
                                   OKX initial_orderbook okx_without_channel))));
      [vm_compute; reflexivity |].
    right; left. eexists. split; [reflexivity | split; reflexivity].
  - eapply (proj1 (proj2 (proj2 (handler_drops_what_its_guard_refuses_and_catches_nothing
                                   OKX initial_orderbook okx_ack))));
      [vm_compute; reflexivity |].
    right; right; left. eexists _, _.
    split; [reflexivity | split; [reflexivity | split; reflexivity]].
  - eapply (proj1 (proj2 (proj2 (handler_drops_what_its_guard_refuses_and_catches_nothing
                                   Bybit initial_orderbook bybit_without_data))));
      [vm_compute; reflexivity |].
    right; right; left. eexists _, _.
    split; [reflexivity | split; [reflexivity | split; reflexivity]].
  - eapply (proj1 (proj2 (proj2 (handler_drops_what_its_guard_refuses_and_catches_nothing
                                   Deribit initial_orderbook deribit_without_data))));
      [vm_compute; reflexivity |].
    right; right; left. eexists _, _.
    split; [reflexivity | split; [reflexivity | split; reflexivity]].
  - eapply (proj1 (proj2 (proj2 (handler_drops_what_its_guard_refuses_and_catches_nothing
                                   OKX initial_orderbook okx_empty_data))));
      [vm_compute; reflexivity |].
    right; right; right. split; [reflexivity |]. eexists _, _, _.
    split; [reflexivity | split; [reflexivity | split; reflexivity]].
  - eapply (proj1 (proj2 (proj2 (proj2
              (handler_drops_what_its_guard_refuses_and_catches_nothing
                 Deribit initial_orderbook deribit_without_channel)))));
      [vm_compute; reflexivity | reflexivity |].
    eexists _, _. split; [reflexivity | split; [reflexivity | split; reflexivity]].
  - eapply (proj1 (proj2 (proj2 (proj2
              (handler_drops_what_its_guard_refuses_and_catches_nothing
                 Bybit initial_orderbook bybit_numeric_topic)))));
      [vm_compute; reflexivity | reflexivity |].
    eexists _, _. split; [reflexivity | split; [reflexivity | split; reflexivity]].
Defined.

(** C2, as stated, fails: a frame that is no JSON makes the handler of
    every venue throw. *)
Lemma malformed_frame_makes_the_handler_throw :
  onmessage OKX initial_orderbook malformed = Throw SyntaxError
  /\ onmessage Bybit initial_orderbook malformed = Throw SyntaxError
  /\ onmessage Deribit initial_orderbook malformed = Throw SyntaxError.
Proof. repeat split. Qed.

(** A Deribit-shaped message whose [params] has no [channel] throws as
    well: [channel] is [undefined] and [startsWith] is read from it, where
    the Bybit guard tests [data.topic] before it calls [startsWith]. *)
Example deribit_without_channel_throws :
  onmessage Deribit initial_orderbook deribit_without_channel = Throw TypeError.
Proof. reflexivity. Qed.

(** *** The delayed submission *)

(** Whatever book is published while a submission waits, the metrics that
    appear when its timer fires are those of the book the page showed at
    the submission. *)
Lemma delayed_simulation_reads_captured_book
  (st : State) (formData : FormData) (later : Book) (ms : Z) :
  handleSubmit formData = Submitted formData ->
  gtb (parseInt10 (delay formData) * of_Z 1000)%js zero = true ->
  (timeout_ms (parseInt10 (delay formData) * of_Z 1000)%js <= ms)%Z ->
  let book := currentOrderbook st in
  let final := run st [Submit formData; Publish later; Wait ms] in
  currentOrderbook final = later
  /\ simulationMetrics final
     = Some (calculateMetrics (with_price formData (orderPrice formData book)) book).
Proof.
  intros Hvalid Hdelay Hdue book final. subst final.
  unfold run. cbn [fold_left step]. rewrite Hvalid.
  unfold handleSimulationSubmit. rewrite Hdelay.
  cbn [now simulationTimeout currentOrderbook symbol simulatedOrder simulationMetrics].
  unfold fire.
  cbn [now simulationTimeout currentOrderbook symbol simulatedOrder simulationMetrics].
  replace (_ <=? _)%Z with true by (symmetry; apply Z.leb_le; lia).
  split; reflexivity.
Qed.

(** C3. A market Buy submitted with a five-second delay while the page
    shows one book, followed by the publication of another book and five
    seconds of waiting: the metrics that are published are computed from
    the book of the time of submission (best ask 100, no slippage), not
    from the book that is current when the timer fires (best ask 200, fill
    across two levels, slippage warning). *)
Theorem delayed_simulation_uses_the_book_of_submission :
  let final :=
    run (initial book_at_submission)
      [Submit delayed_buy; Publish book_at_execution; Wait 5000] in
  let waiting :=
    run (initial book_at_submission)
      [Submit delayed_buy; Publish book_at_execution; Wait 4999] in
  simulationMetrics waiting = None
  /\ currentOrderbook final = book_at_execution
  /\ simulatedOrder final = Some (with_price delayed_buy (Some "100"))
  /\ simulationMetrics final
     = Some (calculateMetrics (with_price delayed_buy (Some "100")) book_at_submission)
  /\ simulationMetrics final
     <> Some (calculateMetrics (with_price delayed_buy (Some "200")) book_at_execution)
  /\ option_map warning (simulationMetrics final) = Some ""
  /\ warning (calculateMetrics (with_price delayed_buy (Some "200")) book_at_execution)
     <> "".
Proof.
  cbv zeta.
  split; [reflexivity |]. split; [reflexivity |]. split; [reflexivity |].
  split; [reflexivity |].
  split; [| split; [reflexivity | vm_compute; discriminate]].
  intros H. apply (f_equal (option_map warning)) in H.
  vm_compute in H. discriminate.
Qed.

(** *** Arithmetic of finite numbers *)

Import Liquidity.

Lemma ltb_Fin (a b : Qc) : ltb (Fin a) (Fin b) = true <-> (a < b)%Qc.
Proof.
  simpl. rewrite Qclt_alt. destruct (Qccompare a b); split; congruence.
Qed.

Lemma ltb_Fin_false (a b : Qc) : ltb (Fin a) (Fin b) = false <-> (b <= a)%Qc.
Proof.
  split.
  - intros H. apply Qcnot_lt_le. intros Hlt. apply ltb_Fin in Hlt. congruence.
  - intros H. destruct (ltb (Fin a) (Fin b)) eqn:E; [| reflexivity].
    apply ltb_Fin in E. exfalso. exact (Qcle_not_lt _ _ H E).
Qed.

Lemma eqb_Fin (a b : Qc) : eqb (Fin a) (Fin b) = true <-> a = b.
Proof.
  split.
  - intros H. apply eqb_eq in H. congruence.
  - intros ->. simpl. unfold Qccompare.
    replace (this b ?= this b)%Q with Eq by (symmetry; apply Qeq_alt; reflexivity).
    reflexivity.
Qed.

Lemma leb_Fin (a b : Qc) : leb (Fin a) (Fin b) = true <-> (a <= b)%Qc.
Proof.
  unfold leb. rewrite orb_true_iff, ltb_Fin, eqb_Fin. split.
  - intros [H | ->]; [apply Qclt_le_weak, H | apply Qcle_refl].
  - intros H. apply Qcle_lt_or_eq in H. exact H.
Qed.

Lemma leb_Fin_false (a b : Qc) : leb (Fin a) (Fin b) = false <-> (b < a)%Qc.
Proof.
  split.
  - intros H. apply Qcnot_le_lt. intros Hle. apply leb_Fin in Hle. congruence.
  - intros H. destruct (leb (Fin a) (Fin b)) eqn:E; [| reflexivity].
    apply leb_Fin in E. exfalso. exact (Qclt_not_le _ _ H E).
Qed.

(** Order facts of [Qc], decided on the underlying rationals. *)
Ltac qc_order :=
  unfold Qcle, Qclt, Qcminus, Qcopp, Qcplus, Q2Qc, inject_Z in *;
  cbn [this] in *; rewrite ?Qred_correct in *; lra.

Lemma min_Fin_l (a b : Qc) : (a <= b)%Qc -> min (Fin a) (Fin b) = Fin a.
Proof.
  intros H. unfold min. apply ltb_Fin_false in H. rewrite H. reflexivity.
Qed.

Lemma min_Fin_r (a b : Qc) : (b <= a)%Qc -> min (Fin a) (Fin b) = Fin b.
Proof.
  intros H. unfold min. destruct (ltb (Fin b) (Fin a)) eqn:E; [reflexivity |].
  apply ltb_Fin_false in E. f_equal. apply Qcle_antisym; assumption.
Qed.

Lemma sub_Fin (a b : Qc) : sub (Fin a) (Fin b) = Fin (a - b)%Qc.
Proof. reflexivity. Qed.

Lemma leb_zero_Fin (a : Qc) : leb zero (Fin a) = true <-> (0 <= a)%Qc.
Proof. change zero with (Fin 0%Qc). apply leb_Fin. Qed.

Lemma leb_Fin_zero_false (a : Qc) : leb (Fin a) zero = false <-> (0 < a)%Qc.
Proof. change zero with (Fin 0%Qc). apply leb_Fin_false. Qed.

Lemma gtb_Fin_zero (a : Qc) : gtb (Fin a) zero = true <-> (0 < a)%Qc.
Proof. unfold gtb. change zero with (Fin 0%Qc). apply ltb_Fin. Qed.

(** *** How much a walk fills *)

Lemma well_sized_cons (level : Level) (rest : list Level) :
  well_sized (level :: rest) = true ->
  (exists s, level_size level = Fin s /\ (0 <= s)%Qc) /\ well_sized rest = true.
Proof.
  unfold well_sized. cbn [forallb]. intros H. apply andb_prop in H.
  destruct H as [Hs Hrest]. split; [| exact Hrest].
  destruct (level_size level) as [s | | |]; try discriminate.
  exists s. split; [reflexivity | apply leb_zero_Fin, Hs].
Qed.

Lemma depth_well_sized (levels : list Level) :
  well_sized levels = true -> exists D, depth levels = Fin D /\ (0 <= D)%Qc.
Proof.
  induction levels as [| level rest IH]; intros H.
  - exists 0%Qc. split; [reflexivity | apply Qcle_refl].
  - apply well_sized_cons in H. destruct H as [(s & Hs & Hs0) Hrest].
    destruct (IH Hrest) as (D & HD & HD0).
    exists (s + D)%Qc. split.
    + cbn [depth fold_right]. fold (depth rest). rewrite Hs, HD. reflexivity.
    + qc_order.
Qed.

(** From any state of the loop with a positive quantity left, the market
    loop adds to the filled quantity the lesser of what is left and what
    the levels offer. *)
Lemma market_loop_fills_min (levels : list Level) :
  forall (f r : Qc) (c : number),
    (0 < r)%Qc ->
    well_sized levels = true ->
    filledQty (for_of market_body levels (mkFill (Fin f) c (Fin r)))
    = add (Fin f) (min (Fin r) (depth levels)).
Proof.
  induction levels as [| level rest IH]; intros f r c Hr Hsized.
  - cbn [for_of filledQty depth fold_right]. change zero with (Fin 0%Qc).
    rewrite min_Fin_r by qc_order. cbn [add]. f_equal. ring.
  - pose proof (depth_well_sized _ Hsized) as (D & HD & HD0).
    apply well_sized_cons in Hsized. destruct Hsized as [(s & Hs & Hs0) Hrest].
    pose proof (depth_well_sized _ Hrest) as (D' & HD' & HD'0).
    assert (ED : D = (s + D')%Qc).
    { cbn [depth fold_right] in HD. fold (depth rest) in HD.
      rewrite Hs, HD' in HD. cbn [add] in HD. congruence. }
    rewrite HD. cbn [for_of]. unfold market_body. cbv zeta.
    cbn [filledQty totalCost qtyToFill].
    change (parseFloat_opt (nth_error level 1)) with (level_size level).
    rewrite Hs. unfold break_when_filled.
    destruct (Qclt_le_dec s r) as [Hlt | Hle].
    + rewrite (min_Fin_r (a := r) (b := s)) by (apply Qclt_le_weak, Hlt).
      cbn [qtyToFill]. rewrite sub_Fin.
      replace (leb (Fin (r - s)) zero) with false
        by (symmetry; apply leb_Fin_zero_false; qc_order).
      cbn [add]. rewrite IH by (try assumption; qc_order). rewrite HD'.
      destruct (Qclt_le_dec (r - s) D') as [H1 | H1].
      * rewrite (min_Fin_l (a := r - s) (b := D')) by (apply Qclt_le_weak, H1).
        rewrite (min_Fin_l (a := r) (b := D)) by (subst D; qc_order).
        cbn [add]. f_equal. ring.
      * rewrite (min_Fin_r (a := r - s) (b := D')) by exact H1.
        rewrite (min_Fin_r (a := r) (b := D)) by (subst D; qc_order).
        cbn [add]. f_equal. subst D. ring.
    + rewrite (min_Fin_l (a := r) (b := s)) by exact Hle.
      cbn [qtyToFill]. rewrite sub_Fin.
      replace (leb (Fin (r - r)) zero) with true
        by (symmetry; change zero with (Fin 0%Qc); apply leb_Fin; qc_order).
      cbn [filledQty add].
      rewrite (min_Fin_l (a := r) (b := D)) by (subst D; qc_order).
      reflexivity.
Qed.

Lemma div_Fin (a b : Qc) : (0 < b)%Qc -> div (Fin a) (Fin b) = Fin (a / b)%Qc.
Proof.
  intros H. unfold div, Qc_sign.
  replace (Qccompare b (Q2Qc 0)) with Gt by (symmetry; apply Qcgt_alt; exact H).
  reflexivity.
Qed.

Lemma Qc_ratio_bounds (m q : Qc) :
  (0 <= m)%Qc -> (m <= q)%Qc -> (0 < q)%Qc -> (0 <= m / q)%Qc /\ (m / q <= 1)%Qc.
Proof.
  intros Hm Hmq Hq.
  assert (Hne : q <> 0%Qc).
  { intros ->. exact (Qclt_not_eq _ _ Hq eq_refl). }
  assert (E : (m / q * q = m)%Qc) by (field; exact Hne).
  split.
  - apply (Qcmult_lt_0_le_reg_r _ _ q Hq). rewrite E.
    replace (0 * q)%Qc with 0%Qc by ring. exact Hm.
  - apply (Qcmult_lt_0_le_reg_r _ _ q Hq). rewrite E.
    replace (1 * q)%Qc with q by ring. exact Hmq.
Qed.

Lemma min_Fin_bounds (a b : Qc) :
  (0 <= a)%Qc -> (0 <= b)%Qc ->
  exists m, min (Fin a) (Fin b) = Fin m /\ (0 <= m)%Qc /\ (m <= a)%Qc /\ (m <= b)%Qc
            /\ ((a <= b)%Qc -> m = a).
Proof.
  intros Ha Hb. destruct (Qclt_le_dec b a) as [H | H].
  - exists b. rewrite min_Fin_r by (apply Qclt_le_weak, H).
    repeat split; try assumption; try apply Qcle_refl.
    + apply Qclt_le_weak, H.
    + intros H'. apply Qcle_antisym; [apply Qclt_le_weak, H | exact H'].
  - exists a. rewrite min_Fin_l by exact H.
    repeat split; try assumption; apply Qcle_refl.
Qed.

Lemma fill_percent_bounds (m q : Qc) :
  (0 <= m)%Qc -> (m <= q)%Qc -> (0 < q)%Qc ->
  leb zero (Fin m / Fin q * of_Z 100)%js = true
  /\ leb (Fin m / Fin q * of_Z 100)%js (of_Z 100) = true.
Proof.
  intros Hm0 Hmq Hq.
  rewrite (div_Fin m Hq). unfold of_Z. cbn [mul].
  destruct (Qc_ratio_bounds Hm0 Hmq Hq) as [Hlo Hhi].
  set (c := Q2Qc (inject_Z 100)).
  assert (Hc : (0 <= c)%Qc) by (subst c; qc_order).
  split.
  - apply leb_zero_Fin.
    replace 0%Qc with (0 * c)%Qc by ring.
    apply Qcmult_le_compat_r; assumption.
  - apply leb_Fin.
    replace c with (1 * c)%Qc at 2 by ring.
    apply Qcmult_le_compat_r; assumption.
Qed.

(** *** Whole sizes *)

Lemma whole_Fin (x : number) :
  whole x = true -> exists q, x = Fin q /\ (0 <= q)%Qc.
Proof.
  destruct x as [q | | |]; try discriminate. cbn [whole]. intros H.
  apply andb_prop in H. destruct H as [H _]. apply andb_prop in H. destruct H as [_ H].
  apply Z.leb_le in H. exists q. split; [reflexivity |].
  unfold Qcle, Qle. cbn. lia.
Qed.

Lemma whole_sized_well_sized (levels : list Level) :
  whole_sized levels = true -> well_sized levels = true.
Proof.
  unfold whole_sized, well_sized. rewrite !forallb_forall. intros H level Hin.
  destruct (whole_Fin _ (H level Hin)) as (s & -> & Hs). apply leb_zero_Fin, Hs.
Qed.

(** With sums and differences that are exact, a market order fills the
    lesser of its quantity and the depth of the side. *)
Lemma market_fill_of_exact_sums
  (order : FormData) (book : Book) (q : Qc) :
  orderType order = "Market" ->
  parseFloat (quantity order) = Fin q ->
  (0 < q)%Qc ->
  well_sized (bookSide (side order) book) = true ->
  let levels := bookSide (side order) book in
  let percent := fillPercent (calculateMetrics order book) in
  filledQty (marketLoop levels (Fin q)) = min (Fin q) (depth levels)
  /\ leb zero percent = true
  /\ leb percent (of_Z 100) = true
  /\ (leb (Fin q) (depth levels) = true -> percent = of_Z 100).
Proof.
  intros Hmarket Hqty Hq Hsized levels percent.
  pose proof (depth_well_sized _ Hsized) as (D & HD & HD0). fold levels in HD.
  assert (Hfilled : filledQty (marketLoop levels (Fin q)) = min (Fin q) (depth levels)).
  { unfold marketLoop, start. change zero with (Fin 0%Qc).
    rewrite (market_loop_fills_min levels 0%Qc (Fin 0%Qc) Hq Hsized).
    rewrite HD.
    destruct (min_Fin_bounds (Qclt_le_weak _ _ Hq) HD0) as (m & -> & _).
    cbn [add]. f_equal. ring. }
  split; [exact Hfilled |].
  assert (Hpercent : percent = (min (Fin q) (depth levels) / Fin q * of_Z 100)%js).
  { subst percent. unfold calculateMetrics. rewrite Hmarket.
    cbn [String.eqb Ascii.eqb Bool.eqb fillPercent]. rewrite Hqty.
    replace (gtb (Fin q) zero) with true by (symmetry; apply gtb_Fin_zero, Hq).
    fold levels. rewrite Hfilled. reflexivity. }
  rewrite Hpercent, HD.
  destruct (min_Fin_bounds (Qclt_le_weak _ _ Hq) HD0) as (m & -> & Hm0 & Hmq & _ & Hfull).
  destruct (fill_percent_bounds Hm0 Hmq Hq) as [Hlo Hhi].
  split; [exact Hlo | split; [exact Hhi |]].
  intros Hdeep. apply leb_Fin in Hdeep. rewrite (Hfull Hdeep).
  rewrite (div_Fin q Hq). unfold of_Z. cbn [mul].
  f_equal. field. intros ->. exact (Qclt_not_eq _ _ Hq eq_refl).
Qed.


(** X1. A market order for a whole positive quantity, against a side whose
    sizes are whole and whose depth is whole (so that every sum and
    difference of the loop is exact in double precision), fills the lesser of
    the quantity and the depth of the side: it never overfills, its fill
    percentage lies between 0 and 100, and it is 100 as soon as the side is
    deep enough. *)
Theorem market_order_on_whole_sizes_fills_min_of_quantity_and_depth
  (order : FormData) (book : Book) :
  orderType order = "Market" ->
  whole (parseFloat (quantity order)) = true ->
  gtb (parseFloat (quantity order)) zero = true ->
  whole_sized (bookSide (side order) book) = true ->
  whole (depth (bookSide (side order) book)) = true ->
  let qty := parseFloat (quantity order) in
  let levels := bookSide (side order) book in
  let percent := fillPercent (calculateMetrics order book) in
  filledQty (marketLoop levels qty) = min qty (depth levels)
  /\ leb zero percent = true
  /\ leb percent (of_Z 100) = true
  /\ (leb qty (depth levels) = true -> percent = of_Z 100).
Proof.
  intros Hmarket Hwhole Hpositive Hsized _.
  destruct (whole_Fin _ Hwhole) as (q & Hqty & _).
  rewrite Hqty in *. apply gtb_Fin_zero in Hpositive.
  exact (@market_fill_of_exact_sums order book q Hmarket Hqty Hpositive
           (whole_sized_well_sized _ Hsized)).
Qed.

Lemma market_order_on_whole_sizes_fills_min_of_quantity_and_depth_witness :
  let order := mkForm "BTCUSDT" "Market" "Buy" (Some "") "2" "0" in
  let qty := parseFloat "2" in
  let levels := asks two_level_book in
  let percent := fillPercent (calculateMetrics order two_level_book) in
  filledQty (marketLoop levels qty) = min qty (depth levels)
  /\ leb zero percent = true
  /\ leb percent (of_Z 100) = true
  /\ (leb qty (depth levels) = true -> percent = of_Z 100).
Proof.
  apply (@market_order_on_whole_sizes_fills_min_of_quantity_and_depth
           (mkForm "BTCUSDT" "Market" "Buy" (Some "") "2" "0") two_level_book);
    reflexivity.
Defined.

Lemma well_sized_filter (keep : Level -> bool) (levels : list Level) :
  well_sized levels = true -> well_sized (filter keep levels) = true.
Proof.
  unfold well_sized. rewrite !forallb_forall. intros H level Hin.
  apply filter_In in Hin. apply H, Hin.
Qed.

Lemma depth_filter_le (keep : Level -> bool) (levels : list Level) :
  well_sized levels = true ->
  exists D E, depth levels = Fin D /\ depth (filter keep levels) = Fin E
              /\ (0 <= E)%Qc /\ (E <= D)%Qc.
Proof.
  induction levels as [| level rest IH]; intros H.
  - exists 0%Qc, 0%Qc. repeat split; apply Qcle_refl.
  - apply well_sized_cons in H. destruct H as [(s & Hs & Hs0) Hrest].
    destruct (IH Hrest) as (D & E & HD & HE & HE0 & HED).
    assert (Hcons : forall ls total, depth ls = Fin total ->
                      depth (level :: ls) = Fin (s + total)%Qc).
    { intros ls total Hls. cbn [depth fold_right]. fold (depth ls).
      rewrite Hs, Hls. reflexivity. }
    cbn [filter]. destruct (keep level).
    + exists (s + D)%Qc, (s + E)%Qc.
      rewrite (Hcons _ _ HD), (Hcons _ _ HE). repeat split; qc_order.
    + exists (s + D)%Qc, E.
      rewrite (Hcons _ _ HD), HE. repeat split; qc_order.
Qed.

(** With sums and differences that are exact, a limit order fills the
    lesser of its quantity and the depth of the levels it may fill. *)
Lemma limit_fill_of_exact_sums
  (order : FormData) (book : Book) (q : Qc) :
  orderType order = "Limit" ->
  parseFloat (quantity order) = Fin q ->
  (0 < q)%Qc ->
  well_sized (bookSide (side order) book) = true ->
  let levels := bookSide (side order) book in
  let limitPrice := parseFloat_opt (price order) in
  let filled := filledQty (limitLoop (side order) limitPrice levels (Fin q)) in
  let percent := fillPercent (calculateMetrics order book) in
  filled = min (Fin q) (depth (filter (Spec.eligible (side order) limitPrice) levels))
  /\ leb filled (filledQty (marketLoop levels (Fin q))) = true
  /\ leb zero percent = true
  /\ leb percent (of_Z 100) = true.
Proof.
  intros Hlimit Hqty Hq Hsized levels limitPrice filled percent.
  set (eligible := filter (Spec.eligible (side order) limitPrice) levels).
  assert (Hpos : leb (qtyToFill (start (Fin q))) zero = false)
    by (apply leb_Fin_zero_false, Hq).
  destruct (limit_loop_skips_ineligible (side order) limitPrice levels
              (st := start (Fin q)) (sm := start (Fin q)) (conj eq_refl eq_refl) Hpos)
    as [Hsame _].
  fold eligible in Hsame.
  destruct (@depth_filter_le (Spec.eligible (side order) limitPrice) levels Hsized)
    as (D & E & HD & HE & HE0 & HED).
  fold levels in HD. fold levels eligible in HE.
  pose proof (@well_sized_filter (Spec.eligible (side order) limitPrice) levels Hsized)
    as Hsized'.
  fold levels eligible in Hsized'.
  assert (HD0 : (0 <= D)%Qc) by qc_order.
  assert (Hfilled : filled = min (Fin q) (depth eligible)).
  { subst filled. unfold limitLoop. rewrite Hsame. unfold start.
    change zero with (Fin 0%Qc).
    rewrite (market_loop_fills_min eligible 0%Qc (Fin 0%Qc) Hq Hsized'). rewrite HE.
    destruct (min_Fin_bounds (Qclt_le_weak _ _ Hq) HE0) as (m & -> & _).
    cbn [add]. f_equal. ring. }
  assert (Hmarket : filledQty (marketLoop levels (Fin q)) = min (Fin q) (depth levels)).
  { unfold marketLoop, start. change zero with (Fin 0%Qc).
    rewrite (market_loop_fills_min levels 0%Qc (Fin 0%Qc) Hq Hsized). rewrite HD.
    destruct (min_Fin_bounds (Qclt_le_weak _ _ Hq) HD0) as (m & -> & _).
    cbn [add]. f_equal. ring. }
  split; [exact Hfilled |].
  assert (Hpercent : percent = (filled / Fin q * of_Z 100)%js).
  { subst percent filled. unfold calculateMetrics.
    rewrite (orderType_limit_not_market order Hlimit).
    cbn [fillPercent]. rewrite Hqty.
    replace (gtb (Fin q) zero) with true by (symmetry; apply gtb_Fin_zero, Hq).
    reflexivity. }
  rewrite Hpercent, Hmarket, Hfilled, HE, HD.
  destruct (min_Fin_bounds (Qclt_le_weak _ _ Hq) HE0)
    as (m & -> & Hm0 & Hmq & HmE & _).
  destruct (Qclt_le_dec D q) as [HDq | HqD].
  - rewrite (min_Fin_r (a := q) (b := D)) by (apply Qclt_le_weak, HDq).
    split; [apply leb_Fin; qc_order |].
    exact (fill_percent_bounds Hm0 Hmq Hq).
  - rewrite (min_Fin_l (a := q) (b := D)) by exact HqD.
    split; [apply leb_Fin; exact Hmq |].
    exact (fill_percent_bounds Hm0 Hmq Hq).
Qed.


(** X2. A limit order for a whole positive quantity, against a side whose
    sizes are whole and whose depth is whole (so that every sum and
    difference of the loop is exact in double precision), fills the lesser of
    the quantity and the depth of the eligible levels; it never fills more
    than the market order for the same quantity, and its fill percentage
    lies between 0 and 100. *)
Theorem limit_order_on_whole_sizes_fills_min_of_quantity_and_eligible_depth
  (order : FormData) (book : Book) :
  orderType order = "Limit" ->
  whole (parseFloat (quantity order)) = true ->
  gtb (parseFloat (quantity order)) zero = true ->
  whole_sized (bookSide (side order) book) = true ->
  whole (depth (bookSide (side order) book)) = true ->
  let qty := parseFloat (quantity order) in
  let levels := bookSide (side order) book in
  let limitPrice := parseFloat_opt (price order) in
  let filled := filledQty (limitLoop (side order) limitPrice levels qty) in
  let percent := fillPercent (calculateMetrics order book) in
  filled = min qty (depth (filter (Spec.eligible (side order) limitPrice) levels))
  /\ leb filled (filledQty (marketLoop levels qty)) = true
  /\ leb zero percent = true
  /\ leb percent (of_Z 100) = true.
Proof.
  intros Hlimit Hwhole Hpositive Hsized _.
  destruct (whole_Fin _ Hwhole) as (q & Hqty & _).
  rewrite Hqty in *. apply gtb_Fin_zero in Hpositive.
  exact (@limit_fill_of_exact_sums order book q Hlimit Hqty Hpositive
           (whole_sized_well_sized _ Hsized)).
Qed.

Lemma limit_order_on_whole_sizes_fills_min_of_quantity_and_eligible_depth_witness :
  let order := mkForm "BTCUSDT" "Limit" "Buy" (Some "100.5") "2" "0" in
  let qty := parseFloat "2" in
  let levels := asks two_level_book in
  let limitPrice := parseFloat "100.5" in
  let filled := filledQty (limitLoop "Buy" limitPrice levels qty) in
  let percent := fillPercent (calculateMetrics order two_level_book) in
  filled = min qty (depth (filter (Spec.eligible "Buy" limitPrice) levels))
  /\ leb filled (filledQty (marketLoop levels qty)) = true
  /\ leb zero percent = true
  /\ leb percent (of_Z 100) = true.
Proof.
  apply (@limit_order_on_whole_sizes_fills_min_of_quantity_and_eligible_depth
           (mkForm "BTCUSDT" "Limit" "Buy" (Some "100.5") "2" "0") two_level_book);
    reflexivity.
Defined.

Lemma entryPrice_of_priced_level (level : Level) (rest : list Level) (p : Qc) :
  level_price level = Fin p -> entryPrice (level :: rest) = Fin p.
Proof.
  unfold level_price, entryPrice. destruct (nth_error level 0) as [text |].
  - cbn [parseFloat_opt falsy_text]. destruct (String.eqb text "") eqn:E.
    + apply String.eqb_eq in E. subst text. discriminate.
    + trivial.
  - discriminate.
Qed.

Lemma abs_Fin_zero : abs (Fin 0%Qc) = zero.
Proof. apply eqb_eq. reflexivity. Qed.

(** With a product and a quotient that are exact, a market order the best
    level can supply on its own is filled at that level's price. *)
Lemma market_within_best_level_of_exact_products
  (order : FormData) (book : Book) (level : Level) (rest : list Level) (q s p : Qc) :
  orderType order = "Market" ->
  parseFloat (quantity order) = Fin q ->
  (0 < q)%Qc ->
  bookSide (side order) book = level :: rest ->
  level_size level = Fin s ->
  (q <= s)%Qc ->
  level_price level = Fin p ->
  calculateMetrics order book
  = {| fillPercent := of_Z 100; slippage := zero; impact := zero; warning := "" |}.
Proof.
  intros Hmarket Hqty Hq Hside Hs Hqs Hp.
  assert (Hne : q <> 0%Qc) by (intros ->; exact (Qclt_not_eq _ _ Hq eq_refl)).
  assert (Hloop : marketLoop (level :: rest) (Fin q)
                  = mkFill (Fin q) (Fin (q * p)%Qc) (Fin 0%Qc)).
  { unfold marketLoop, start. cbn [for_of]. unfold market_body. cbv zeta.
    cbn [filledQty totalCost qtyToFill].
    change (parseFloat_opt (nth_error level 1)) with (level_size level).
    change (parseFloat_opt (nth_error level 0)) with (level_price level).
    rewrite Hs, Hp, (min_Fin_l Hqs). change zero with (Fin 0%Qc).
    cbn [add mul]. rewrite sub_Fin.
    replace (0 + q)%Qc with q by ring.
    replace (0 + q * p)%Qc with (q * p)%Qc by ring.
    replace (q - q)%Qc with 0%Qc by ring.
    unfold break_when_filled. cbn [qtyToFill].
    replace (leb (Fin 0%Qc) (Fin 0%Qc)) with true
      by (symmetry; apply leb_Fin, Qcle_refl).
    reflexivity. }
  unfold calculateMetrics. rewrite Hmarket, Hside, Hqty.
  cbn [String.eqb Ascii.eqb Bool.eqb].
  rewrite (entryPrice_of_priced_level level rest Hp), Hloop.
  unfold avgFillPrice. cbn [filledQty totalCost].
  rewrite (div_Fin (q * p) Hq), sub_Fin.
  replace (q * p / q - p)%Qc with 0%Qc by (field; exact Hne).
  rewrite abs_Fin_zero.
  replace (gtb (Fin q) zero) with true by (symmetry; apply gtb_Fin_zero, Hq).
  rewrite (div_Fin q Hq). replace (q / q)%Qc with 1%Qc by (field; exact Hne).
  assert (Hslip : (if gtb (Fin p) zero && true
                   then (abs (Fin 0%Qc / Fin p) * of_Z 100)%js else zero) = zero).
  { destruct (gtb (Fin p) zero) eqn:Ep; [| reflexivity].
    apply gtb_Fin_zero in Ep. cbn [andb]. rewrite (div_Fin 0%Qc Ep).
    replace (0 / p)%Qc with 0%Qc
      by (field; intros ->; exact (Qclt_not_eq _ _ Ep eq_refl)).
    rewrite abs_Fin_zero. apply eqb_eq. reflexivity. }
  rewrite Hslip. f_equal; try (unfold of_Z; cbn [mul]; f_equal; ring).
Qed.


(** The loop of a market order that the first level can supply on its own
    ends at that level, with the quantity filled. *)
Lemma market_loop_within_best_level (level : Level) (rest : list Level) (q s : Qc) :
  level_size level = Fin s ->
  (q <= s)%Qc ->
  marketLoop (level :: rest) (Fin q)
  = mkFill (Fin q) (zero + Fin q * level_price level)%js zero.
Proof.
  intros Hs Hqs.
  unfold marketLoop, start. cbn [for_of]. unfold market_body. cbv zeta.
  cbn [filledQty totalCost qtyToFill].
  change (parseFloat_opt (nth_error level 1)) with (level_size level).
  change (parseFloat_opt (nth_error level 0)) with (level_price level).
  rewrite Hs, (min_Fin_l Hqs). change zero with (Fin 0%Qc).
  cbn [add]. rewrite sub_Fin.
  replace (0 + q)%Qc with q by ring.
  replace (q - q)%Qc with 0%Qc by ring.
  unfold break_when_filled. cbn [qtyToFill].
  replace (leb (Fin 0%Qc) (Fin 0%Qc)) with true
    by (symmetry; apply leb_Fin, Qcle_refl).
  reflexivity.
Qed.

(** X3. A market order for a finite positive quantity that the best level
    of the consumed side can supply on its own is filled in full at that
    level, whatever the price and the rest of the ladder: the quantity is
    filled, nothing is left, and the fill percentage is 100.  When the
    quantity, the price and their product are whole (so that the average
    price is computed exactly in double precision), the slippage and the
    price impact are 0 as well and there is no warning. *)
Theorem market_order_within_best_level_is_filled_in_full
  (order : FormData) (book : Book) (level : Level) (rest : list Level) (q s : Qc) :
  orderType order = "Market" ->
  parseFloat (quantity order) = Fin q ->
  (0 < q)%Qc ->
  bookSide (side order) book = level :: rest ->
  level_size level = Fin s ->
  (q <= s)%Qc ->
  filledQty (marketLoop (level :: rest) (Fin q)) = Fin q
  /\ qtyToFill (marketLoop (level :: rest) (Fin q)) = zero
  /\ fillPercent (calculateMetrics order book) = of_Z 100
  /\ (whole (Fin q) = true ->
      whole (level_price level) = true ->
      whole (Fin q * level_price level)%js = true ->
      calculateMetrics order book
      = {| fillPercent := of_Z 100; slippage := zero; impact := zero; warning := "" |}).
Proof.
  intros Hmarket Hqty Hq Hside Hs Hqs.
  pose proof (market_loop_within_best_level level rest Hs Hqs) as Hloop.
  assert (Hne : q <> 0%Qc) by (intros ->; exact (Qclt_not_eq _ _ Hq eq_refl)).
  split; [now rewrite Hloop |]. split; [now rewrite Hloop |]. split.
  - unfold calculateMetrics. rewrite Hmarket, Hside, Hqty.
    cbn [String.eqb Ascii.eqb Bool.eqb]. rewrite Hloop. cbn [filledQty fillPercent].
    replace (gtb (Fin q) zero) with true by (symmetry; apply gtb_Fin_zero, Hq).
    rewrite (div_Fin q Hq). unfold of_Z. cbn [mul]. f_equal. field. exact Hne.
  - intros _ Hprice _. destruct (whole_Fin _ Hprice) as (p & Hp & _).
    exact (@market_within_best_level_of_exact_products order book level rest q s p
             Hmarket Hqty Hq Hside Hs Hqs Hp).
Qed.

Lemma market_order_within_best_level_is_filled_in_full_witness :
  fillPercent (calculateMetrics (mkForm "BTCUSDT" "Market" "Sell" (Some "") "0.5" "0")
                 two_level_book) = of_Z 100
  /\ calculateMetrics (mkForm "BTCUSDT" "Market" "Sell" (Some "") "1" "0") two_level_book
     = {| fillPercent := of_Z 100; slippage := zero; impact := zero; warning := "" |}.
Proof.
  split.
  - apply (@market_order_within_best_level_is_filled_in_full
             (mkForm "BTCUSDT" "Market" "Sell" (Some "") "0.5" "0") two_level_book
             ["99"; "1"] [["98"; "2"]] (Q2Qc (1 # 2)) (Q2Qc 1)).
    + reflexivity.
    + apply eqb_eq. vm_compute. reflexivity.
    + reflexivity.
    + reflexivity.
    + apply eqb_eq. vm_compute. reflexivity.
    + vm_compute. discriminate.
  - apply (@market_order_within_best_level_is_filled_in_full
             (mkForm "BTCUSDT" "Market" "Sell" (Some "") "1" "0") two_level_book
             ["99"; "1"] [["98"; "2"]] (Q2Qc 1) (Q2Qc 1)).
    + reflexivity.
    + apply eqb_eq. vm_compute. reflexivity.
    + reflexivity.
    + reflexivity.
    + apply eqb_eq. vm_compute. reflexivity.
    + vm_compute. discriminate.
    + reflexivity.
    + reflexivity.
    + reflexivity.
Defined.

(** *** The locator on an ordered ladder *)

Lemma ltb_leb_trans (a b c : number) :
  ltb a b = true -> leb b c = true -> leb a c = true.
Proof.
  destruct a as [x | | |], b as [y | | |], c as [z | | |];
    try discriminate; try reflexivity.
  intros H1 H2. apply ltb_Fin in H1. apply leb_Fin in H2. apply leb_Fin.
  apply Qclt_le_weak. exact (Qclt_le_trans _ _ _ H1 H2).
Qed.

Lemma leb_ltb_trans (a b c : number) :
  leb a b = true -> ltb b c = true -> leb a c = true.
Proof.
  destruct a as [x | | |], b as [y | | |], c as [z | | |];
    try discriminate; try reflexivity.
  intros H1 H2. apply leb_Fin in H1. apply ltb_Fin in H2. apply leb_Fin.
  apply Qclt_le_weak. exact (Qcle_lt_trans _ _ _ H1 H2).
Qed.

Lemma ltb_trans (a b c : number) :
  ltb a b = true -> ltb b c = true -> ltb a c = true.
Proof.
  destruct a as [x | | |], b as [y | | |], c as [z | | |];
    try discriminate; try reflexivity.
  intros H1 H2. apply ltb_Fin in H1. apply ltb_Fin in H2. apply ltb_Fin.
  exact (Qclt_trans _ _ _ H1 H2).
Qed.

Lemma strictly_ascending_head (ps : list number) :
  forall a x, strictly_ascending (a :: ps) = true -> In x ps -> ltb a x = true.
Proof.
  induction ps as [| b ps IH]; intros a x H Hin; [destruct Hin |].
  cbn [strictly_ascending] in H. apply andb_prop in H. destruct H as [Hab Hrest].
  destruct Hin as [<- | Hin]; [exact Hab |].
  exact (ltb_trans _ _ _ Hab (IH b x Hrest Hin)).
Qed.

Lemma strictly_descending_head (ps : list number) :
  forall a x, strictly_descending (a :: ps) = true -> In x ps -> ltb x a = true.
Proof.
  induction ps as [| b ps IH]; intros a x H Hin; [destruct Hin |].
  cbn [strictly_descending] in H. apply andb_prop in H. destruct H as [Hab Hrest].
  destruct Hin as [<- | Hin]; [exact Hab |].
  exact (ltb_trans _ _ _ (IH b x Hrest Hin) Hab).
Qed.

(** When a test that holds at a level holds at the first level too, the
    first index it yields is 0 or -1. *)
Lemma findIndex_top_or_none {A : Type} (f : A -> bool) (first : A) (rest : list A) :
  (forall x, In x rest -> f x = true -> f first = true) ->
  findIndex f (first :: rest) = (if f first then 0 else -1)%Z.
Proof.
  intros Hfirst.
  destruct (findIndex_first_index f (first :: rest))
    as [[-> Hnone] | (n & x & -> & Hn & Hx & Hbefore)].
  - rewrite (Hnone first (or_introl eq_refl)). reflexivity.
  - destruct n as [| n].
    + cbn [nth_error] in Hn. injection Hn as <-. rewrite Hx. reflexivity.
    + cbn [nth_error] in Hn. apply nth_error_In in Hn.
      pose proof (Hfirst x Hn Hx) as Htop.
      rewrite (Hbefore 0%nat first) in Htop; [discriminate | lia | reflexivity].
Qed.

(** X4. On a ladder in canonical order the book locator never points inside
    the ladder: for a Buy on strictly ascending asks it is 0 when the
    order's price is at or above the best ask and -1 otherwise, and for a
    Sell on strictly descending bids it is 0 when the order's price is at
    or below the best bid and -1 otherwise. *)
Theorem locator_on_canonical_ladder_is_top_or_none
  (order : FormData) (book : Book) (best : Level) (rest : list Level) :
  let orderPrice := parseFloat_opt (price order) in
  (side order = "Buy" ->
   asks book = best :: rest ->
   strictly_ascending (map level_price (asks book)) = true ->
   simulatedAskIndex book (Some order)
   = (if geb orderPrice (level_price best) then 0 else -1)%Z)
  /\ (side order = "Sell" ->
      bids book = best :: rest ->
      strictly_descending (map level_price (bids book)) = true ->
      simulatedBidIndex book (Some order)
      = (if leb orderPrice (level_price best) then 0 else -1)%Z).
Proof.
  intros orderPrice. unfold simulatedAskIndex, simulatedBidIndex, findSimulatedIndex.
  split; intros -> -> Hordered; simpl String.eqb; cbv iota;
    cbn [map] in Hordered.
  - apply (findIndex_top_or_none
             (fun ask => geb (parseFloat_opt (price order)) (parseFloat_opt (nth_error ask 0)))).
    intros x Hin Hx. unfold geb in *.
    refine (ltb_leb_trans _ _ _ _ Hx).
    apply (strictly_ascending_head _ _ _ Hordered).
    apply (in_map level_price) in Hin. exact Hin.
  - apply (findIndex_top_or_none
             (fun bid => leb (parseFloat_opt (price order)) (parseFloat_opt (nth_error bid 0)))).
    intros x Hin Hx.
    refine (leb_ltb_trans _ _ _ Hx _).
    apply (strictly_descending_head _ _ _ Hordered).
    apply (in_map level_price) in Hin. exact Hin.
Qed.

Lemma locator_on_canonical_ladder_is_top_or_none_witness :
  simulatedAskIndex two_level_book
    (Some (mkForm "BTCUSDT" "Limit" "Buy" (Some "101") "1" "0"))
  = (if geb (parseFloat "101") (level_price ["100"; "1"]) then 0 else -1)%Z
  /\ simulatedBidIndex two_level_book
       (Some (mkForm "BTCUSDT" "Limit" "Sell" (Some "98.5") "1" "0"))
     = (if leb (parseFloat "98.5") (level_price ["99"; "1"]) then 0 else -1)%Z.
Proof.
  split.
  - apply (proj1 (@locator_on_canonical_ladder_is_top_or_none
                    (mkForm "BTCUSDT" "Limit" "Buy" (Some "101") "1" "0")
                    two_level_book ["100"; "1"] [["101"; "2"]])); reflexivity.
  - apply (proj2 (@locator_on_canonical_ladder_is_top_or_none
                    (mkForm "BTCUSDT" "Limit" "Sell" (Some "98.5") "1" "0")
                    two_level_book ["99"; "1"] [["98"; "2"]])); reflexivity.
Defined.

(** *** Submissions that overtake one another *)

(** X5. A delayed submission that is followed by another valid submission
    before its timer fires leaves no trace: the page goes on exactly as if
    the first form had never been submitted, so the first submission's
    metrics are never published. *)
Theorem superseded_submission_leaves_no_trace
  (st : State) (first second : FormData) (ms : Z) (later : list event) :
  handleSubmit first = Submitted first ->
  gtb (parseInt10 (delay first) * of_Z 1000)%js zero = true ->
  (0 <= ms < timeout_ms (parseInt10 (delay first) * of_Z 1000)%js)%Z ->
  simulationTimeout st = None ->
  handleSubmit second = Submitted second ->
  run st ([Submit first; Wait ms; Submit second] ++ later)
  = run st ([Wait ms; Submit second] ++ later).
Proof.
  intros Hfirst Hdelay Hms Hidle Hsecond.
  unfold run. rewrite !fold_left_app. f_equal.
  cbn [fold_left step]. rewrite Hfirst, Hsecond.
  assert (Hpending :
            handleSimulationSubmit (currentOrderbook st) first st
            = {| currentOrderbook := currentOrderbook st;
                 symbol := Simulator.symbol first;
                 simulatedOrder := simulatedOrder st;
                 simulationMetrics := simulationMetrics st;
                 now := now st;
                 simulationTimeout :=
                   Some ((now st + timeout_ms (parseInt10 (delay first) * of_Z 1000)%js)%Z,
                         mkClosure (currentOrderbook st) first) |}).
  { unfold handleSimulationSubmit. rewrite Hdelay. reflexivity. }
  rewrite Hpending. unfold fire.
  cbn [now simulationTimeout currentOrderbook symbol simulatedOrder simulationMetrics].
  rewrite Hidle.
  replace (_ <=? _)%Z with false by (symmetry; apply Z.leb_gt; lia).
  unfold handleSimulationSubmit.
  cbn [now simulationTimeout currentOrderbook symbol simulatedOrder simulationMetrics].
  destruct (gtb (parseInt10 (delay second) * of_Z 1000)%js zero); reflexivity.
Qed.

Lemma superseded_submission_leaves_no_trace_witness :
  let second := mkForm "BTC-USD-SWAP" "Limit" "Sell" (Some "99") "1" "0" in
  run (initial book_at_submission)
    ([Submit delayed_buy; Wait 4999; Submit second] ++ [Publish book_at_execution; Wait 10])
  = run (initial book_at_submission)
      ([Wait 4999; Submit second] ++ [Publish book_at_execution; Wait 10]).
Proof.
  apply superseded_submission_leaves_no_trace.
  - reflexivity.
  - reflexivity.
  - vm_compute. split; [discriminate | reflexivity].
  - reflexivity.
  - reflexivity.
Defined.

(** *** What the form lets through *)

Lemma not_leb_zero (x : number) :
  leb x zero = false -> gtb x zero = true \/ x = NaN.
Proof.
  destruct x as [a | | |]; intros H.
  - left. apply gtb_Fin_zero. apply leb_Fin_zero_false. exact H.
  - left. reflexivity.
  - discriminate.
  - right. reflexivity.
Qed.

(** X6. Whatever the form hands to [onSubmit] is the form's data unchanged,
    with a quantity that is not empty and parses to a positive number or to
    no number at all; and for a limit order the same holds of the price.
    So the simulator's precondition [quantity > 0] can only fail on text
    that does not parse. *)
Theorem form_submits_only_checked_orders (formData submitted : FormData) :
  handleSubmit formData = Submitted submitted ->
  submitted = formData
  /\ quantity formData <> ""
  /\ (gtb (parseFloat (quantity formData)) zero = true
      \/ parseFloat (quantity formData) = NaN)
  /\ (orderType formData = "Limit" ->
      exists text,
        price formData = Some text /\ text <> ""
        /\ (gtb (parseFloat text) zero = true \/ parseFloat text = NaN)).
Proof.
  unfold handleSubmit.
  destruct (String.eqb (orderType formData) "Limit"
            && (falsy_text (price formData)
                || leb (parseFloat_opt (price formData)) zero)) eqn:Eprice;
    [discriminate |].
  destruct (falsy_text (Some (quantity formData))
            || leb (parseFloat (quantity formData)) zero) eqn:Eqty;
    [discriminate |].
  intros [= <-]. apply orb_false_elim in Eqty. destruct Eqty as [Hempty Hqty].
  split; [reflexivity |]. split; [| split].
  - cbn [falsy_text] in Hempty. intros E. rewrite E in Hempty. discriminate.
  - exact (not_leb_zero _ Hqty).
  - intros Hlimit. rewrite Hlimit in Eprice. cbn [String.eqb Ascii.eqb Bool.eqb andb] in Eprice.
    apply orb_false_elim in Eprice. destruct Eprice as [Hfalsy Hprice].
    destruct (price formData) as [text |]; [| discriminate].
    exists text. split; [reflexivity |]. split.
    + cbn [falsy_text] in Hfalsy. intros ->. discriminate.
    + exact (not_leb_zero _ Hprice).
Qed.

Lemma form_submits_only_checked_orders_witness :
  let formData := mkForm "BTCUSDT" "Limit" "Buy" (Some "100.5") "2" "5" in
  formData = formData
  /\ quantity formData <> ""
  /\ (gtb (parseFloat (quantity formData)) zero = true
      \/ parseFloat (quantity formData) = NaN)
  /\ (orderType formData = "Limit" ->
      exists text,
        price formData = Some text /\ text <> ""
        /\ (gtb (parseFloat text) zero = true \/ parseFloat text = NaN)).
Proof.
  intros formData. apply (@form_submits_only_checked_orders formData formData).
  reflexivity.
Defined.

(** *** What the adapters hand on *)

Lemma mapM_level_strings (l l' : list value) :
  mapM level_strings l = Ok l' ->
  exists levels,
    all_some level_of_value l' = Some levels
    /\ Forall (fun level : Level => List.length level = 2%nat) levels
    /\ List.length levels = List.length l.
Proof.
  revert l'. induction l as [| b l IH]; intros l'; cbn [mapM bind].
  - intros [= <-]. exists []. repeat split. constructor.
  - destruct (level_strings b) as [pair |] eqn:Epair; [| discriminate].
    cbn [bind]. destruct (mapM level_strings l) as [tail |]; [| discriminate].
    cbn [bind]. intros [= <-].
    destruct (IH tail eq_refl) as (levels & Hlevels & Hpairs & Hlen).
    unfold level_strings in Epair.
    destruct (get b "0") as [b0 |]; [| discriminate]. cbn [bind] in Epair.
    destruct (call_toString b0) as [s0 |]; [| discriminate]. cbn [bind] in Epair.
    destruct (get b "1") as [b1 |]; [| discriminate]. cbn [bind] in Epair.
    destruct (call_toString b1) as [s1 |]; [| discriminate]. cbn [bind] in Epair.
    injection Epair as <-.
    exists ([s0; s1] :: levels). cbn [all_some level_of_value string_of_value].
    rewrite Hlevels. repeat split.
    + constructor; [reflexivity | exact Hpairs].
    + cbn [List.length]. rewrite Hlen. reflexivity.
Qed.

(** X7. Whenever the Deribit adapter returns a book, both of its sides are
    arrays of levels that hold exactly two strings, a price and a size, one
    level for each level of the message: the numbers of the wire never
    reach the rest of the page. *)
Theorem Deribit_parse_yields_pairs_of_strings (data v : value) :
  Deribit_parse data = Ok v ->
  v = VUndefined
  \/ exists book,
      book_of_value v = Some book
      /\ Forall (fun level : Level => List.length level = 2%nat) (bids book)
      /\ Forall (fun level : Level => List.length level = 2%nat) (asks book).
Proof.
  unfold Deribit_parse.
  match goal with
  | |- bind ?guard _ = _ -> _ => destruct guard as [[|] |]
  end; cbn [bind]; try discriminate.
  2: { intros [= <-]. left. reflexivity. }
  destruct (get data "params") as [params |]; [| discriminate]. cbn [bind].
  destruct (get params "data") as [d |]; [| discriminate]. cbn [bind].
  destruct (get d "bids") as [rawBids |]; [| discriminate]. cbn [bind].
  destruct (get d "asks") as [rawAsks |]; [| discriminate]. cbn [bind].
  destruct rawBids as [| | | | | bs |]; try discriminate. cbn [call_map].
  destruct (mapM level_strings bs) as [bs' |] eqn:Ebids; [| discriminate].
  cbn [bind].
  destruct rawAsks as [| | | | | az |]; try discriminate. cbn [call_map].
  destruct (mapM level_strings az) as [az' |] eqn:Easks; [| discriminate].
  cbn [bind]. intros [= <-]. right.
  destruct (mapM_level_strings _ Ebids) as (bidLevels & Hb & Hbp & _).
  destruct (mapM_level_strings _ Easks) as (askLevels & Ha & Hap & _).
  exists (mkBook bidLevels askLevels).
  unfold orderbook_object, book_of_value. cbn [lookup String.eqb Ascii.eqb Bool.eqb].
  cbn [side_of_value]. rewrite Hb, Ha. repeat split; assumption.
Qed.

Lemma Deribit_parse_yields_pairs_of_strings_witness :
  exists book,
    published Deribit deribit_snapshot = Some book
    /\ Forall (fun level : Level => List.length level = 2%nat) (bids book)
    /\ Forall (fun level : Level => List.length level = 2%nat) (asks book).
Proof.
  assert (Hparse : exists data v,
             JSON_parse deribit_snapshot = Ok data /\ Deribit_parse data = Ok v
             /\ v <> VUndefined
             /\ published Deribit deribit_snapshot = book_of_value v).
  { eexists. eexists. split; [vm_compute; reflexivity |].
    split; [vm_compute; reflexivity |]. split; [discriminate | reflexivity]. }
  destruct Hparse as (data & v & _ & Hv & Hdef & ->).
  destruct (Deribit_parse_yields_pairs_of_strings data Hv) as [Hnone | Hbook].
  - contradiction.
  - exact Hbook.
Defined.

(** X8. Every update is a full replacement: what a frame does to the
    published book is decided by the frame alone.  Either the handler
    throws, or it keeps whatever book was published, or it publishes a book
    built from the frame without reading the previous one; so a frame
    delivered twice leaves the book it left the first time. *)
Theorem onmessage_replaces_or_keeps (venue : Venue) (raw : string) :
  (exists update : result (option value),
      forall orderbook,
        onmessage venue orderbook raw
        = match update with
          | Ok (Some book) => Ok book
          | Ok None => Ok orderbook
          | Throw e => Throw e
          end)
  /\ (forall orderbook published,
        onmessage venue orderbook raw = Ok published ->
        onmessage venue published raw = Ok published).
Proof.
  assert (H : exists update : result (option value),
             forall orderbook,
               onmessage venue orderbook raw
               = match update with
                 | Ok (Some book) => Ok book
                 | Ok None => Ok orderbook
                 | Throw e => Throw e
                 end).
  { unfold onmessage.
    destruct (JSON_parse raw) as [data | e]; cbn [bind];
      [| exists (Throw e); reflexivity].
    destruct (isKeepAlive venue data) as [[|] | e]; cbn [bind];
      [exists (Ok None); reflexivity | | exists (Throw e); reflexivity].
    destruct (parse venue data) as [newOrderbook | e]; cbn [bind];
      [| exists (Throw e); reflexivity].
    destruct (truthy newOrderbook);
      [exists (Ok (Some newOrderbook)) | exists (Ok None)]; reflexivity. }
  split; [exact H |].
  destruct H as [[[book |] | e] H]; intros orderbook published;
    rewrite !H; trivial.
Qed.

(** ** The connection lifecycle *)

Import Wire Session Protocol.

Lemma Venue_eqb_eq (a b : Venue) : Venue_eqb a b = true <-> a = b.
Proof. destruct a, b; cbn; split; congruence. Qed.

Lemma Venue_eqb_refl (a : Venue) : Venue_eqb a a = true.
Proof. now destruct a. Qed.

Lemma Venue_eqb_neq (a b : Venue) : a <> b -> Venue_eqb a b = false.
Proof. destruct a, b; cbn; congruence. Qed.

Lemma invariant_mounted : invariant mounted.
Proof.
  constructor; cbn.
  - exists 0%nat. repeat split; auto.
  - intros v Hv. destruct v; try congruence; cbn; auto.
  - intros id. unfold live. destruct id; cbn; [reflexivity | discriminate].
  - intros t v [].
  - constructor.
  - intros id; destruct id; cbn; auto.
  - intros id; unfold history; destruct id; cbn; auto; left; reflexivity.
Qed.

(** A change that moves no ref, opens no socket, starts no interval and
    keeps every socket's frames in order keeps the invariant. *)
Lemma invariant_weaken (st st' : State) :
  activeVenue st' = activeVenue st ->
  (forall v, ws_current (hooks st' v) = ws_current (hooks st v)) ->
  (forall v, cleanup (hooks st' v) = cleanup (hooks st v)) ->
  (forall id, socket_venue (sockets st' id) = socket_venue (sockets st id)) ->
  (forall id, pingInterval (sockets st' id) = pingInterval (sockets st id)) ->
  (forall id, live (sockets st' id) = true -> live (sockets st id) = true) ->
  (forall id, readyState (sockets st' id) = CONNECTING ->
              readyState (sockets st id) = CONNECTING) ->
  (forall id, history (sockets st id) -> history (sockets st' id)) ->
  socket_count st' = socket_count st ->
  incl (intervals st') (intervals st) ->
  NoDup (map fst (intervals st')) ->
  interval_count st' = interval_count st ->
  invariant st -> invariant st'.
Proof.
  intros Ha Hws Hcl Hsv Hpi Hlive Hconn Hhist Hsc Hincl Hnd Hic [Ic Ih Il Ii Ind Icn Ihi].
  constructor.
  - destruct Ic as (c & H1 & H2 & H3 & H4). exists c.
    rewrite Ha, Hws, Hcl, Hsv, Hsc. auto.
  - intros v Hv. rewrite Ha in Hv. rewrite Hws, Hcl. auto.
  - intros id Hid. rewrite Ha, Hws. auto.
  - intros t v Hin. apply Hincl in Hin. destruct (Ii t v Hin) as (E1 & E2 & E3 & c & E4 & E5).
    rewrite Ha, Hic. repeat split; auto. exists c. rewrite Hws, Hpi. auto.
  - exact Hnd.
  - intros id Hid. rewrite Hpi. auto.
  - intros id. auto.
Qed.

Lemma hooks_set_hook venue h st v :
  hooks (set_hook venue h st) v = if Venue_eqb venue v then h else hooks st v.
Proof. reflexivity. Qed.

Lemma sockets_set_socket id s st i :
  sockets (set_socket id s st) i = if Nat.eqb id i then s else sockets st i.
Proof. reflexivity. Qed.

Lemma invariant_setIsConnected venue b st :
  invariant st -> invariant (setIsConnected venue b st).
Proof.
  intros Hinv. apply invariant_weaken with (st := st);
    try reflexivity; auto using incl_refl; try apply Hinv.
  - intros v. unfold setIsConnected. rewrite hooks_set_hook.
    destruct (Venue_eqb venue v) eqn:E; [apply Venue_eqb_eq in E; subst |]; reflexivity.
  - intros v. unfold setIsConnected. rewrite hooks_set_hook.
    destruct (Venue_eqb venue v) eqn:E; [apply Venue_eqb_eq in E; subst |]; reflexivity.
Qed.

Lemma invariant_setOrderbook venue book st :
  invariant st -> invariant (Session.setOrderbook venue book st).
Proof.
  intros Hinv. apply invariant_weaken with (st := st);
    try reflexivity; auto using incl_refl; try apply Hinv.
  - intros v. unfold Session.setOrderbook. rewrite hooks_set_hook.
    destruct (Venue_eqb venue v) eqn:E; [apply Venue_eqb_eq in E; subst |]; reflexivity.
  - intros v. unfold Session.setOrderbook. rewrite hooks_set_hook.
    destruct (Venue_eqb venue v) eqn:E; [apply Venue_eqb_eq in E; subst |]; reflexivity.
Qed.

Lemma NoDup_map_fst_filter (A B : Type) (keep : A * B -> bool) (l : list (A * B)) :
  NoDup (map fst l) -> NoDup (map fst (filter keep l)).
Proof.
  induction l as [|x l IH]; cbn; intros H; [constructor |].
  inversion H as [|? ? Hnot Hrest]; subst.
  destruct (keep x); cbn; auto.
  constructor; auto.
  intros Hin. apply Hnot. apply in_map_iff in Hin. destruct Hin as (y & Hy & Hin).
  apply filter_In in Hin. apply in_map_iff. exists y. tauto.
Qed.

Lemma invariant_clearInterval timer st :
  invariant st -> invariant (clearInterval timer st).
Proof.
  intros Hinv. destruct timer as [t|]; [| exact Hinv].
  apply invariant_weaken with (st := st); try reflexivity; auto.
  - intros tv Hin. cbn in Hin. apply filter_In in Hin. tauto.
  - cbn. apply NoDup_map_fst_filter, Hinv.
Qed.

(** Shutting a socket. *)
Lemma invariant_shut id r st :
  r = CLOSING \/ r = CLOSED ->
  invariant st -> invariant (set_readyState id r st).
Proof.
  intros Hr Hinv.
  apply invariant_weaken with (st := st); try reflexivity; auto using incl_refl;
    try apply Hinv; intros i; unfold set_readyState; rewrite sockets_set_socket;
    destruct (Nat.eqb id i) eqn:E; try reflexivity; auto;
    apply Nat.eqb_eq in E; subst i; cbn; try reflexivity.
  - unfold live; cbn. destruct Hr; subst r; cbn; discriminate.
  - destruct Hr; subst r; cbn; discriminate.
  - unfold history; cbn. intros H.
    assert (Hc : conforms (socket_venue (sockets st id)) (sent (sockets st id))).
    { destruct (readyState (sockets st id)); auto.
      - left; exact H.
      - destruct H as (n & H1 & H2). right. exists n, []. rewrite app_nil_r. auto. }
    destruct Hr; subst r; exact Hc.
Qed.

Lemma invariant_close id st : invariant st -> invariant (close id st).
Proof.
  intros Hinv. unfold close.
  destruct (readyState (sockets st id)); auto using invariant_shut.
Qed.

Lemma invariant_current_live id st :
  invariant st -> live (sockets st id) = true ->
  ws_current (hooks st (activeVenue st)) = Some id
  /\ cleanup (hooks st (activeVenue st)) = Some id
  /\ socket_venue (sockets st id) = activeVenue st
  /\ (id < socket_count st)%nat.
Proof.
  intros Hinv Hlive. pose proof (inv_live Hinv id Hlive) as Hid.
  destruct (inv_current Hinv) as (c & H1 & H2 & H3 & H4).
  assert (c = id) by congruence. subst c. auto.
Qed.

(** While the current socket has no interval of its own, none runs. *)
Lemma invariant_no_interval id st :
  invariant st ->
  ws_current (hooks st (activeVenue st)) = Some id ->
  pingInterval (sockets st id) = None ->
  intervals st = [].
Proof.
  intros Hinv Hid Hcell. destruct (intervals st) as [|[t v] rest] eqn:E; [reflexivity |].
  destruct (inv_intervals Hinv t v) as (_ & Ha & _ & c & Hc & Hp).
  { rewrite E. left; reflexivity. }
  rewrite Ha in Hid. congruence.
Qed.

(** A frame sent on the open socket that continues its history. *)
Lemma invariant_sent id text r st :
  invariant st ->
  live (sockets st id) = true ->
  r <> CONNECTING ->
  history (mkSocket (socket_venue (sockets st id)) r (pingInterval (sockets st id))
             (sent (sockets st id) ++ [text])) ->
  invariant (set_socket id
               (mkSocket (socket_venue (sockets st id)) r (pingInterval (sockets st id))
                  (sent (sockets st id) ++ [text])) st).
Proof.
  intros Hinv Hlive Hr Hhist.
  apply invariant_weaken with (st := st); try reflexivity; auto using incl_refl;
    try apply Hinv; intros i; rewrite sockets_set_socket;
    destruct (Nat.eqb id i) eqn:E; try reflexivity; auto;
    apply Nat.eqb_eq in E; subst i; cbn; try reflexivity; auto.
  intros Hc; congruence.
Qed.

Lemma repeat_snoc (A : Type) (x : A) (n : nat) : (repeat x n ++ [x])%list = repeat x (S n).
Proof. induction n as [|n IH]; cbn; [reflexivity | now rewrite IH]. Qed.

Lemma invariant_setInterval id st :
  invariant st ->
  activeVenue st = Bybit ->
  ws_current (hooks st Bybit) = Some id ->
  intervals st = [] ->
  readyState (sockets st id) <> CONNECTING ->
  invariant (setInterval Bybit id st).
Proof.
  intros Hinv Ha Hid Hnil Hopen.
  destruct Hinv as [Ic Ih Il Ii Ind Icn Ihi].
  constructor; cbn.
  - destruct Ic as (c & H1 & H2 & H3 & H4). exists c.
    repeat split; auto.
    destruct (Nat.eqb id c) eqn:E; [apply Nat.eqb_eq in E; subst c; cbn |]; auto.
  - exact Ih.
  - intros i. destruct (Nat.eqb id i) eqn:E.
    + apply Nat.eqb_eq in E; subst i. intros _. rewrite Ha. exact Hid.
    + apply Il.
  - intros t v Hin. rewrite Hnil in Hin. destruct Hin as [Hin | []].
    inversion Hin; subst. repeat split; auto.
    exists id. rewrite Nat.eqb_refl. auto.
  - rewrite Hnil. cbn. constructor; [intros [] | constructor].
  - intros i. destruct (Nat.eqb id i) eqn:E.
    + apply Nat.eqb_eq in E; subst i. cbn. intros H; contradiction.
    + apply Icn.
  - intros i. destruct (Nat.eqb id i) eqn:E.
    + apply Nat.eqb_eq in E; subst i. exact (Ihi id).
    + apply Ihi.
Qed.

Lemma react_Opened id st :
  invariant st ->
  invariant (fst (react st (Opened id))) /\ snd (react st (Opened id)) = None.
Proof.
  intros Hinv. cbn [react].
  destruct (allocated id st) eqn:Halloc; [| auto].
  destruct (readyState (sockets st id)) eqn:Hready; auto.
  assert (Hlive : live (sockets st id) = true) by (unfold live; now rewrite Hready).
  destruct (invariant_current_live id Hinv Hlive) as (Hcur & Hcl & Hven & Hlt).
  pose proof (inv_history Hinv id) as Hhist. unfold history in Hhist.
  rewrite Hready in Hhist.
  pose proof (inv_connecting Hinv id Hready) as Hcell.
  pose proof (invariant_no_interval Hinv Hcur Hcell) as Hnil.
  rewrite Hven. set (a := activeVenue st) in *.
  unfold onopen.
  change (hooks (set_readyState id OPEN st) a) with (hooks st a). rewrite Hcur.
  unfold send.
  change (sockets (set_readyState id OPEN st) id) with
    (if Nat.eqb id id
     then mkSocket (socket_venue (sockets st id)) OPEN (pingInterval (sockets st id))
            (sent (sockets st id))
     else sockets st id).
  rewrite Nat.eqb_refl. cbn [readyState socket_venue pingInterval sent].
  rewrite Hhist, Hven, Hcell. cbn [app].
  set (st1 := set_socket id _ _).
  assert (Hinv1 : invariant st1).
  { apply invariant_weaken with (st := st); try reflexivity; auto using incl_refl;
      try apply Hinv; intros i; subst st1; unfold set_readyState;
      rewrite !sockets_set_socket; destruct (Nat.eqb id i) eqn:E; try reflexivity; auto;
      apply Nat.eqb_eq in E; subst i;
      unfold live, history; cbn [socket_venue readyState pingInterval sent]; auto.
    intros _. exists 0%nat. split; [reflexivity | congruence]. }
  assert (Hinv2 : invariant (setIsConnected a true st1))
    by (apply invariant_setIsConnected, Hinv1).
  destruct a eqn:Ea; cbn [fst snd]; split; auto.
  apply invariant_setInterval; auto.
  subst st1. cbn [setIsConnected set_hook set_socket sockets].
  rewrite Nat.eqb_refl. cbn [readyState]. discriminate.
Qed.

Lemma react_Message id raw st :
  invariant st ->
  invariant (fst (react st (Message id raw))) /\ harmless (snd (react st (Message id raw))).
Proof.
  intros Hinv. cbn [react].
  destruct (allocated id st); [| split; [auto | left; reflexivity]].
  destruct (readyState (sockets st id)); try (split; [auto | left; reflexivity]).
  unfold Session.onmessage.
  destruct (Adapters.onmessage _ _ raw) as [book | e]; cbn [fst snd].
  - split; [apply invariant_setOrderbook, Hinv | left; reflexivity].
  - split; [exact Hinv | right; exists e; reflexivity].
Qed.

Lemma react_Errored id st :
  invariant st ->
  invariant (fst (react st (Errored id))) /\ snd (react st (Errored id)) = None.
Proof.
  intros Hinv. cbn [react].
  destruct (allocated id st); [| auto].
  destruct (readyState (sockets st id)); cbn [fst snd]; split; auto;
    apply invariant_setIsConnected, Hinv.
Qed.

Lemma react_PeerClosing id st :
  invariant st ->
  invariant (fst (react st (PeerClosing id))) /\ snd (react st (PeerClosing id)) = None.
Proof.
  intros Hinv. cbn [react].
  destruct (allocated id st); [| auto].
  destruct (readyState (sockets st id)); cbn [fst snd]; split; auto.
  apply invariant_shut; auto.
Qed.

Lemma react_Closed id st :
  invariant st ->
  invariant (fst (react st (Closed id))) /\ snd (react st (Closed id)) = None.
Proof.
  intros Hinv. cbn [react].
  destruct (allocated id st); [| auto].
  destruct (readyState (sockets st id)); cbn [fst snd]; split; auto;
    unfold onclose; apply invariant_clearInterval, invariant_setIsConnected,
      invariant_shut; auto.
Qed.

Lemma react_Tick timer st :
  invariant st ->
  invariant (fst (react st (Tick timer))) /\ snd (react st (Tick timer)) = None.
Proof.
  intros Hinv. cbn [react].
  destruct (find _ (intervals st)) as [[t v]|] eqn:Hfind; [| auto].
  cbn [fst snd]. split; [| reflexivity].
  apply find_some in Hfind. destruct Hfind as [Hin _].
  destruct (inv_intervals Hinv t v Hin) as (Hv & Ha & _ & c & Hc & Hp). subst v.
  unfold ping_callback. rewrite Hc.
  destruct (readyState (sockets st c)) eqn:Hready; auto.
  unfold send. rewrite Hready.
  destruct (inv_current Hinv) as (c' & H1 & _ & H3 & _).
  rewrite Ha in H1. assert (c' = c) by congruence. subst c'.
  pose proof (inv_history Hinv c) as Hhist. unfold history in Hhist.
  rewrite Hready in Hhist. destruct Hhist as (n & Hsent & _).
  apply invariant_sent; auto.
  - unfold live. now rewrite Hready.
  - discriminate.
  - unfold history. cbn. exists (S n). split; [| congruence].
    rewrite Hsent. cbn [app]. f_equal. apply repeat_snoc.
Qed.

(** *** Switching venue *)

Lemma clearInterval_current c st :
  invariant st ->
  ws_current (hooks st (activeVenue st)) = Some c ->
  intervals (clearInterval (pingInterval (sockets st c)) st) = [].
Proof.
  intros Hinv Hcur.
  destruct (pingInterval (sockets st c)) as [t|] eqn:Hcell;
    [| exact (invariant_no_interval Hinv Hcur Hcell)].
  cbn. destruct (filter _ (intervals st)) as [|[t' v] rest] eqn:E; [reflexivity |].
  assert (Hin : List.In (t', v)
                  (filter (fun tv => negb (Nat.eqb (fst tv) t)) (intervals st)))
    by (rewrite E; left; reflexivity).
  apply filter_In in Hin. destruct Hin as [Hin Hkeep]. cbn in Hkeep.
  destruct (inv_intervals Hinv t' v Hin) as (_ & Ha & _ & c' & Hc' & Hp).
  rewrite Ha in Hcur. assert (c' = c) by congruence. subst c'.
  assert (t' = t) by congruence. subst t'.
  rewrite Nat.eqb_refl in Hkeep. discriminate.
Qed.

(** The cleanup of the visible hook leaves no socket live and no interval
    running. *)
Lemma run_cleanup_quiesces c st :
  invariant st ->
  ws_current (hooks st (activeVenue st)) = Some c ->
  let s := run_cleanup (activeVenue st) c st in
  invariant s
  /\ (forall id, live (sockets s id) = false)
  /\ intervals s = []
  /\ hooks s = hooks st
  /\ socket_count s = socket_count st
  /\ activeVenue s = activeVenue st.
Proof.
  intros Hinv Hcur. cbv zeta. unfold run_cleanup. rewrite Hcur.
  set (s1 := close c _).
  assert (H1 : invariant s1 /\ (forall id, live (sockets s1 id) = false)
               /\ hooks s1 = hooks st /\ socket_count s1 = socket_count st
               /\ activeVenue s1 = activeVenue st).
  { subst s1.
    assert (Hothers : forall id, Nat.eqb c id = false -> live (sockets st id) = false).
    { intros id Hne. destruct (live (sockets st id)) eqn:Hl; [| reflexivity].
      apply (inv_live Hinv) in Hl. rewrite Hcur in Hl. inversion Hl; subst.
      rewrite Nat.eqb_refl in Hne. discriminate. }
    destruct (readyState (sockets st c)) eqn:Hready.
    - unfold close. rewrite Hready. split; [apply invariant_shut; auto |].
      split; [| auto]. intros id. unfold set_readyState. rewrite sockets_set_socket.
      destruct (Nat.eqb c id) eqn:E; auto.
    - unfold send. rewrite Hready. unfold close.
      rewrite sockets_set_socket, Nat.eqb_refl. cbn [readyState].
      unfold set_readyState. rewrite sockets_set_socket, Nat.eqb_refl.
      cbn [socket_venue pingInterval sent].
      split; [| split; [| auto]].
      + pose proof (inv_history Hinv c) as Hhist. unfold history in Hhist.
        rewrite Hready in Hhist. destruct Hhist as (n & Hsent & Hbybit).
        apply invariant_weaken with (st := st); try reflexivity; auto using incl_refl;
          try apply Hinv; intros i; rewrite !sockets_set_socket;
          destruct (Nat.eqb c i) eqn:E; try reflexivity; auto;
          apply Nat.eqb_eq in E; subst i;
          unfold live, history; cbn [socket_venue readyState pingInterval sent]; auto;
          try discriminate.
        intros _. right. exists n, [unsubscribe_text (socket_venue (sockets st c))].
        destruct (inv_current Hinv) as (c' & E1 & _ & E3 & _).
        assert (c' = c) by congruence. subst c'.
        rewrite Hsent, E3. cbn [app].
        split; [reflexivity | split; [rewrite <- E3; exact Hbybit | right; reflexivity]].
      + intros id. rewrite !sockets_set_socket.
        destruct (Nat.eqb c id) eqn:E; auto.
    - unfold close. rewrite Hready. split; [exact Hinv |]. split; [| auto].
      intros id. destruct (Nat.eqb c id) eqn:E; auto.
      apply Nat.eqb_eq in E; subst id. unfold live. now rewrite Hready.
    - unfold close. rewrite Hready. split; [exact Hinv |]. split; [| auto].
      intros id. destruct (Nat.eqb c id) eqn:E; auto.
      apply Nat.eqb_eq in E; subst id. unfold live. now rewrite Hready. }
  destruct H1 as (Hinv1 & Hdead & Hhooks & Hcount & Hactive).
  split; [apply invariant_clearInterval, Hinv1 |].
  assert (Hsame : forall t s, sockets (clearInterval t s) = sockets s
                              /\ hooks (clearInterval t s) = hooks s
                              /\ socket_count (clearInterval t s) = socket_count s
                              /\ activeVenue (clearInterval t s) = activeVenue s)
    by (intros [t|] s; cbn; auto).
  destruct (Hsame (pingInterval (sockets s1 c)) s1) as (E1 & E2 & E3 & E4).
  rewrite E1, E2, E3, E4. repeat split; auto.
  apply clearInterval_current; [exact Hinv1 |].
  rewrite Hactive, Hhooks. exact Hcur.
Qed.

Lemma run_cleanup_set_activeVenue a c v st :
  run_cleanup a c (set_activeVenue v st) = set_activeVenue v (run_cleanup a c st).
Proof.
  unfold run_cleanup, send, close, set_readyState, set_socket, set_activeVenue.
  cbn [hooks sockets].
  destruct (ws_current (hooks st a)) as [cur|];
    [destruct (readyState (sockets st cur)) eqn:E |];
    repeat (cbn [hooks sockets readyState pingInterval sent socket_venue
                 activeVenue socket_count intervals interval_count];
            rewrite ?E, ?Nat.eqb_refl);
    unfold clearInterval;
    try (destruct (Nat.eqb cur c));
    cbn [hooks sockets readyState pingInterval sent socket_venue
         activeVenue socket_count intervals interval_count];
    match goal with
    | |- context [match pingInterval ?s with _ => _ end] => destruct (pingInterval s)
    end; reflexivity.
Qed.

(** The state after the effects of a switch satisfies the invariant. *)
Lemma switched_invariant (s F : State) (v' : Venue) :
  invariant s ->
  (forall id, live (sockets s id) = false) ->
  v' <> activeVenue s ->
  switched s F v' ->
  invariant F.
Proof.
  intros Hinv Hdead Hne (Ha & Hws & Hcl & Hso & Hsc & Hiv).
  constructor.
  - exists (socket_count s). rewrite Ha, Hws, Hcl, Hso, Hsc, Venue_eqb_refl, Nat.eqb_refl.
    cbn. auto.
  - intros v Hv. rewrite Ha in Hv. rewrite Hws, Hcl.
    rewrite Venue_eqb_neq by congruence. auto.
  - intros id. rewrite Hso, Ha, Hws, Venue_eqb_refl.
    destruct (Nat.eqb (socket_count s) id) eqn:E.
    + apply Nat.eqb_eq in E. now subst id.
    + rewrite Hdead. discriminate.
  - intros t v Hin. rewrite Hiv in Hin. destruct Hin.
  - rewrite Hiv. constructor.
  - intros id. rewrite Hso. destruct (Nat.eqb (socket_count s) id) eqn:E; [reflexivity |].
    intros Hc. specialize (Hdead id). unfold live in Hdead. rewrite Hc in Hdead. discriminate.
  - intros id. rewrite Hso. destruct (Nat.eqb (socket_count s) id) eqn:E.
    + unfold history. cbn. reflexivity.
    + apply (inv_history Hinv).
Qed.

Lemma close_dead c s : live (sockets s c) = false -> close c s = s.
Proof. unfold close, live. destruct (readyState (sockets s c)); congruence. Qed.

Lemma run_effect_hidden v c s :
  Venue_eqb v (activeVenue s) = false ->
  ws_current (hooks s v) = Some c ->
  live (sockets s c) = false ->
  run_effect v s =
  set_hook v (mkHook None (orderbook (hooks s v)) (isConnected (hooks s v)) None) s.
Proof.
  intros Hv Hc Hdead. unfold run_effect. rewrite Hv, Hc, close_dead by exact Hdead.
  reflexivity.
Qed.

Lemma run_effect_visible v s :
  Venue_eqb v (activeVenue s) = true ->
  run_effect v s =
  {| activeVenue := activeVenue s;
     hooks := fun w =>
                if Venue_eqb v w
                then mkHook (Some (socket_count s)) (orderbook (hooks s v))
                       (isConnected (hooks s v)) (Some (socket_count s))
                else hooks s w;
     sockets := fun i =>
                  if Nat.eqb (socket_count s) i then mkSocket v CONNECTING None []
                  else sockets s i;
     socket_count := S (socket_count s);
     intervals := intervals s;
     interval_count := interval_count s |}.
Proof. intros Hv. unfold run_effect. rewrite Hv. reflexivity. Qed.

Ltac fields :=
  cbn [hooks sockets activeVenue socket_count intervals interval_count
       set_hook set_socket set_activeVenue ws_current cleanup orderbook isConnected].

Lemma effects_switched (s : State) (c : nat) (v' : Venue) :
  invariant s ->
  ws_current (hooks s (activeVenue s)) = Some c ->
  (forall id, live (sockets s id) = false) ->
  intervals s = [] ->
  v' <> activeVenue s ->
  switched s (run_effect v' (run_effect (activeVenue s) (set_activeVenue v' s))) v'
  /\ switched s (run_effect (activeVenue s) (run_effect v' (set_activeVenue v' s))) v'.
Proof.
  intros Hinv Hcur Hdead Hnil Hne.
  remember (activeVenue s) as a eqn:Ea.
  assert (Hav : Venue_eqb a v' = false) by (apply Venue_eqb_neq; congruence).
  assert (Hva : Venue_eqb v' a = false) by (apply Venue_eqb_neq; congruence).
  destruct (inv_current Hinv) as (c' & E1 & _ & _ & Hlt).
  rewrite <- Ea in E1. assert (c' = c) by congruence. subst c'.
  assert (Hcn : Nat.eqb (socket_count s) c = false) by (apply Nat.eqb_neq; lia).
  assert (Hhid : forall v, Venue_eqb a v = false -> Venue_eqb v' v = false ->
                           ws_current (hooks s v) = None /\ cleanup (hooks s v) = None).
  { intros v H1 H2. apply (inv_hidden Hinv). intros ->. rewrite <- Ea in H1.
    rewrite Venue_eqb_refl in H1. discriminate. }
  split.
  - rewrite (@run_effect_hidden a c (set_activeVenue v' s)); auto; [| apply Hdead].
    rewrite run_effect_visible by (fields; apply Venue_eqb_refl).
    unfold switched. fields.
    repeat split; auto; intros v;
      destruct (Venue_eqb v' v) eqn:E1'; try reflexivity;
      destruct (Venue_eqb a v) eqn:E2'; try reflexivity; apply Hhid; auto.
  - rewrite (@run_effect_visible v' (set_activeVenue v' s)) by (fields; apply Venue_eqb_refl).
    rewrite (@run_effect_hidden a c); fields; rewrite ?Hva, ?Hcn; auto.
    unfold switched. fields.
    repeat split; auto; intros v;
      destruct (Venue_eqb a v) eqn:E2'; destruct (Venue_eqb v' v) eqn:E1';
      try reflexivity; try (apply Hhid; auto);
      apply Venue_eqb_eq in E2', E1'; congruence.
Qed.

(** The cleanups and then the effects of the two hooks whose [isVisible]
    changed run in the order of the hook calls. *)
Lemma setActiveVenue_order (st : State) (v' : Venue) :
  v' <> activeVenue st ->
  let a := activeVenue st in
  let s1 := set_activeVenue v' st in
  setActiveVenue v' st = run_effect v' (run_effect a (cleanup_of v' (cleanup_of a s1)))
  \/ setActiveVenue v' st = run_effect a (run_effect v' (cleanup_of a (cleanup_of v' s1))).
Proof.
  intros Hne. cbv zeta. unfold setActiveVenue.
  rewrite Venue_eqb_neq by exact Hne.
  destruct (activeVenue st) eqn:Ea, v'; try congruence;
    cbn [all_venues filter Venue_eqb orb fold_left];
    [left | left | right | left | right | right]; reflexivity.
Qed.

(** A click on another tab: the cleanup of the hook that was visible, then
    one new socket for the hook that is. *)
Lemma setActiveVenue_switched venue st :
  invariant st ->
  venue <> activeVenue st ->
  exists c,
    ws_current (hooks st (activeVenue st)) = Some c
    /\ switched (run_cleanup (activeVenue st) c st) (setActiveVenue venue st) venue.
Proof.
  intros Hinv Hne.
  destruct (inv_current Hinv) as (c & Hcur & Hcl & _ & _).
  exists c. split; [exact Hcur |].
  destruct (inv_hidden Hinv Hne) as (_ & Hnone).
  destruct (run_cleanup_quiesces Hinv Hcur) as (Hinv' & Hdead & Hnil & Hhooks & Hcount & Hactive).
  set (s := run_cleanup (activeVenue st) c st) in *.
  assert (E1 : cleanup_of (activeVenue st) (set_activeVenue venue st) = set_activeVenue venue s).
  { unfold cleanup_of. change (hooks (set_activeVenue venue st)) with (hooks st).
    rewrite Hcl. apply run_cleanup_set_activeVenue. }
  assert (E2 : forall x, hooks x = hooks st -> cleanup_of venue x = x).
  { intros x Hx. unfold cleanup_of. now rewrite Hx, Hnone. }
  assert (Hboth := @effects_switched s c venue Hinv').
  rewrite Hactive, Hhooks in Hboth.
  specialize (Hboth Hcur Hdead Hnil Hne). destruct Hboth as [Hfirst Hsecond].
  destruct (setActiveVenue_order st Hne) as [E | E]; rewrite E.
  - rewrite E1, E2 by exact Hhooks. exact Hfirst.
  - rewrite (E2 (set_activeVenue venue st)) by reflexivity. rewrite E1. exact Hsecond.
Qed.

Lemma react_Click venue st :
  invariant st -> invariant (setActiveVenue venue st).
Proof.
  intros Hinv.
  destruct (Venue_eqb venue (activeVenue st)) eqn:Esame.
  { unfold setActiveVenue. now rewrite Esame. }
  assert (Hne : venue <> activeVenue st).
  { intros ->. rewrite Venue_eqb_refl in Esame. discriminate. }
  destruct (setActiveVenue_switched Hinv Hne) as (c & Hcur & Hsw).
  destruct (run_cleanup_quiesces Hinv Hcur) as (Hinv' & Hdead & _ & _ & _ & Hactive).
  apply switched_invariant with (s := run_cleanup (activeVenue st) c st) (v' := venue); auto.
  now rewrite Hactive.
Qed.

(** Every reaction keeps the invariant, and its handler ends without a
    fault unless the message handler threw on the frame. *)
Lemma react_invariant (st : State) (e : event) :
  invariant st -> invariant (fst (react st e)) /\ harmless (snd (react st e)).
Proof.
  intros Hinv. destruct e as [venue | id | id raw | id | id | id | timer].
  - split; [apply react_Click, Hinv | left; reflexivity].
  - destruct (react_Opened id Hinv) as [H1 H2]. split; [exact H1 | left; exact H2].
  - apply react_Message, Hinv.
  - destruct (react_Errored id Hinv) as [H1 H2]. split; [exact H1 | left; exact H2].
  - destruct (react_PeerClosing id Hinv) as [H1 H2]. split; [exact H1 | left; exact H2].
  - destruct (react_Closed id Hinv) as [H1 H2]. split; [exact H1 | left; exact H2].
  - destruct (react_Tick timer Hinv) as [H1 H2]. split; [exact H1 | left; exact H2].
Qed.

Lemma run_snoc (es : list event) (e : event) : run (es ++ [e]) = step (run es) e.
Proof. unfold run. now rewrite fold_left_app. Qed.

Lemma invariant_run (es : list event) : invariant (run es).
Proof.
  induction es as [|e es IH] using rev_ind.
  - exact invariant_mounted.
  - rewrite run_snoc. apply react_invariant, IH.
Qed.

(** X9. Whatever the clicks, socket events and timer ticks since the page
    was mounted, at most one socket is connecting or open: the one in the
    ref of the hook of the active venue, and it was opened for that venue;
    the hooks of the other venues hold no socket. *)
Theorem only_the_active_venue_has_a_live_socket (es : list event) (id : nat) :
  live (sockets (run es) id) = true ->
  ws_current (hooks (run es) (activeVenue (run es))) = Some id
  /\ socket_venue (sockets (run es) id) = activeVenue (run es)
  /\ allocated id (run es) = true
  /\ (forall other, live (sockets (run es) other) = true -> other = id)
  /\ (forall v, v <> activeVenue (run es) -> ws_current (hooks (run es) v) = None).
Proof.
  intros Hlive. pose proof (invariant_run es) as Hinv.
  destruct (invariant_current_live id Hinv Hlive) as (H1 & _ & H3 & H4).
  split; [exact H1 |]. split; [exact H3 |].
  split; [apply Nat.ltb_lt, H4 |]. split.
  - intros other Hother. apply (inv_live Hinv) in Hother. congruence.
  - intros v Hv. apply (inv_hidden Hinv), Hv.
Qed.

Lemma only_the_active_venue_has_a_live_socket_witness :
  live (sockets (run [Click Bybit; Opened 1%nat]) 1%nat) = true
  /\ ws_current (hooks (run [Click Bybit; Opened 1%nat]) Bybit) = Some 1%nat.
Proof.
  split; [reflexivity |].
  exact (proj1 (@only_the_active_venue_has_a_live_socket
                  [Click Bybit; Opened 1%nat] 1%nat eq_refl)).
Defined.

(** X10. At most one keep-alive interval runs at any time; one that runs
    was started by the Bybit hook while Bybit is the active venue, and it is
    the interval of the socket in that hook's ref, which has opened.  So no
    interval outlives a switch away from Bybit. *)
Theorem keep_alive_interval_belongs_to_the_active_Bybit_socket (es : list event) :
  (List.length (intervals (run es)) <= 1)%nat
  /\ (forall t v,
        List.In (t, v) (intervals (run es)) ->
        v = Bybit /\ activeVenue (run es) = Bybit
        /\ exists c, ws_current (hooks (run es) Bybit) = Some c
                     /\ pingInterval (sockets (run es) c) = Some t
                     /\ readyState (sockets (run es) c) <> CONNECTING)
  /\ (activeVenue (run es) <> Bybit -> intervals (run es) = []).
Proof.
  pose proof (invariant_run es) as Hinv.
  assert (Hall : forall t v,
             List.In (t, v) (intervals (run es)) ->
             v = Bybit /\ activeVenue (run es) = Bybit
             /\ exists c, ws_current (hooks (run es) Bybit) = Some c
                          /\ pingInterval (sockets (run es) c) = Some t
                          /\ readyState (sockets (run es) c) <> CONNECTING).
  { intros t v Hin. destruct (inv_intervals Hinv t v Hin) as (H1 & H2 & _ & c & H3 & H4).
    repeat split; auto. exists c. repeat split; auto.
    intros Hc. apply (inv_connecting Hinv) in Hc. congruence. }
  split; [| split; [exact Hall |]].
  - pose proof (inv_nodup Hinv) as Hnd.
    destruct (intervals (run es)) as [|[t1 v1] [|[t2 v2] rest]]; cbn; try lia.
    destruct (Hall t1 v1) as (_ & _ & c1 & E1 & F1 & _); [left; reflexivity |].
    destruct (Hall t2 v2) as (_ & _ & c2 & E2 & F2 & _); [right; left; reflexivity |].
    assert (c1 = c2) by congruence. subst c2. assert (t1 = t2) by congruence. subst t2.
    cbn in Hnd. inversion Hnd as [|? ? Hnot _]. exfalso. apply Hnot. left; reflexivity.
  - intros Hne. destruct (intervals (run es)) as [|[t v] rest] eqn:E; [reflexivity |].
    destruct (Hall t v) as (_ & Ha & _); [left; reflexivity |]. contradiction.
Qed.

(** X11. No handler of the hook ever finds [ws.current] null or calls
    [send] on a socket that is still connecting: a reaction ends normally,
    or it is the message handler that threw on the frame it was given. *)
Theorem handlers_fault_only_on_a_frame (es : list event) (e : event) :
  snd (react (run es) e) = None
  \/ exists id raw err,
       e = Message id raw /\ snd (react (run es) e) = Some (Inbound err).
Proof.
  destruct (react_invariant e (invariant_run es)) as [_ [Hnone | [err Herr]]];
    [left; exact Hnone |].
  destruct e as [venue | id | id raw | id | id | id | timer];
    try (right; exists id, raw, err; split; [reflexivity | exact Herr]).
  - cbn in Herr. discriminate.
  - destruct (react_Opened id (invariant_run es)) as [_ H]. congruence.
  - destruct (react_Errored id (invariant_run es)) as [_ H]. congruence.
  - destruct (react_PeerClosing id (invariant_run es)) as [_ H]. congruence.
  - destruct (react_Closed id (invariant_run es)) as [_ H]. congruence.
  - destruct (react_Tick timer (invariant_run es)) as [_ H]. congruence.
Qed.

(** X12. Over its whole life a socket carries nothing, or the subscription
    of its own venue first, then pings and these on Bybit alone, then at
    most one cancellation of that subscription as its last frame; while it
    is connecting it has carried nothing, and while it is open no
    cancellation. *)
Theorem every_socket_follows_the_protocol (es : list event) (id : nat) :
  conforms (socket_venue (sockets (run es) id)) (sent (sockets (run es) id))
  /\ (readyState (sockets (run es) id) = CONNECTING -> sent (sockets (run es) id) = [])
  /\ (readyState (sockets (run es) id) = OPEN ->
      exists pings,
        sent (sockets (run es) id)
        = subscribe_text (socket_venue (sockets (run es) id)) :: repeat ping_text pings).
Proof.
  pose proof (inv_history (invariant_run es) id) as H. unfold history in H.
  destruct (readyState (sockets (run es) id)) eqn:E.
  - split; [left; exact H |]. split; [auto | discriminate].
  - destruct H as (n & H1 & H2).
    split; [| split; [discriminate | intros _; exists n; exact H1]].
    right. exists n, []. rewrite app_nil_r. auto.
  - split; [exact H |]. split; discriminate.
  - split; [exact H |]. split; discriminate.
Qed.

Lemma sockets_clearInterval t st : sockets (clearInterval t st) = sockets st.
Proof. now destruct t. Qed.

(** What the cleanup does to each socket. *)
Lemma run_cleanup_sockets c st id :
  invariant st ->
  ws_current (hooks st (activeVenue st)) = Some c ->
  let s := run_cleanup (activeVenue st) c st in
  socket_venue (sockets s id) = socket_venue (sockets st id)
  /\ readyState (sockets s id)
     = match readyState (sockets st id) with
       | CONNECTING | OPEN => CLOSING
       | r => r
       end
  /\ sent (sockets s id)
     = match readyState (sockets st id) with
       | OPEN => (sent (sockets st id) ++ [unsubscribe_text (activeVenue st)])%list
       | _ => sent (sockets st id)
       end.
Proof.
  intros Hinv Hcur. cbv zeta. unfold run_cleanup. rewrite Hcur, sockets_clearInterval.
  destruct (Nat.eqb c id) eqn:E.
  - apply Nat.eqb_eq in E. subst id.
    unfold send, close.
    destruct (readyState (sockets st c)) eqn:Hready; cbv beta iota;
      repeat (cbn [sockets set_socket set_readyState readyState socket_venue sent pingInterval];
              rewrite ?Hready, ?Nat.eqb_refl); auto.
  - assert (Hdead : live (sockets st id) = false).
    { destruct (live (sockets st id)) eqn:Hl; [| reflexivity].
      apply (inv_live Hinv) in Hl. rewrite Hcur in Hl. inversion Hl; subst.
      rewrite Nat.eqb_refl in E. discriminate. }
    unfold live in Hdead.
    destruct (readyState (sockets st c)) eqn:Hready.
    + unfold close. rewrite Hready. cbn [sockets set_socket set_readyState]. rewrite E.
      destruct (readyState (sockets st id)); try discriminate; auto.
    + unfold send. rewrite Hready. unfold close.
      repeat (cbn [sockets set_socket set_readyState readyState socket_venue sent pingInterval];
              rewrite ?Nat.eqb_refl, ?E).
      destruct (readyState (sockets st id)); try discriminate; auto.
    + unfold close. rewrite Hready.
      destruct (readyState (sockets st id)); try discriminate; auto.
    + unfold close. rewrite Hready.
      destruct (readyState (sockets st id)); try discriminate; auto.
Qed.

(** X13. A click on the tab of another venue closes the connection of the
    venue that was shown, after cancelling its subscription if it was open,
    and opens exactly one new connection, for the venue that was chosen: no
    earlier socket stays live, no interval stays, and each earlier socket
    gets the cancellation as one more frame only if it was open. *)
Theorem switching_venue_replaces_the_connection
  (es : list event) (venue : Venue) :
  venue <> activeVenue (run es) ->
  let st := run es in
  let st' := step st (Click venue) in
  activeVenue st' = venue
  /\ ws_current (hooks st' venue) = Some (socket_count st)
  /\ sockets st' (socket_count st) = mkSocket venue CONNECTING None []
  /\ socket_count st' = S (socket_count st)
  /\ intervals st' = []
  /\ forall id,
       (id < socket_count st)%nat ->
       live (sockets st' id) = false
       /\ socket_venue (sockets st' id) = socket_venue (sockets st id)
       /\ readyState (sockets st' id)
          = match readyState (sockets st id) with
            | CONNECTING | OPEN => CLOSING
            | r => r
            end
       /\ sent (sockets st' id)
          = match readyState (sockets st id) with
            | OPEN => (sent (sockets st id) ++ [unsubscribe_text (activeVenue st)])%list
            | _ => sent (sockets st id)
            end.
Proof.
  intros Hne. cbv zeta. pose proof (invariant_run es) as Hinv.
  set (st := run es) in *. unfold step. cbn [react fst].
  destruct (setActiveVenue_switched Hinv Hne) as (c & Hcur & Ha & Hws & _ & Hso & Hsc & Hiv).
  destruct (run_cleanup_quiesces Hinv Hcur) as (_ & Hdead & _ & _ & Hcount & _).
  rewrite Hcount in *.
  split; [exact Ha |]. split; [now rewrite Hws, Venue_eqb_refl |].
  split; [now rewrite Hso, Nat.eqb_refl |]. split; [exact Hsc |]. split; [exact Hiv |].
  intros id Hid. rewrite Hso.
  assert (E : Nat.eqb (socket_count st) id = false) by (apply Nat.eqb_neq; lia).
  rewrite E. split; [apply Hdead |]. apply run_cleanup_sockets; auto.
Qed.

Lemma switching_venue_replaces_the_connection_witness :
  activeVenue (step (run [Opened 0%nat]) (Click Deribit)) = Deribit
  /\ sent (sockets (step (run [Opened 0%nat]) (Click Deribit)) 0%nat)
     = [subscribe_text OKX; unsubscribe_text OKX].
Proof.
  assert (Hne : Deribit <> activeVenue (run [Opened 0%nat])) by discriminate.
  pose proof (@switching_venue_replaces_the_connection [Opened 0%nat] Deribit Hne) as H.
  cbv zeta in H. destruct H as (H1 & _ & _ & _ & _ & H6).
  split; [exact H1 |].
  destruct (H6 0%nat) as (_ & _ & _ & H); [cbn; lia |]. exact H.
Defined.

(** The state after [onopen]. *)
Lemma react_Opened_state id st :
  invariant st ->
  allocated id st = true ->
  readyState (sockets st id) = CONNECTING ->
  socket_venue (sockets st id) = activeVenue st
  /\ intervals st = []
  /\ react st (Opened id)
     = (let st2 :=
          setIsConnected (activeVenue st) true
            (set_socket id
               (mkSocket (activeVenue st) OPEN None [subscribe_text (activeVenue st)])
               (set_readyState id OPEN st)) in
        match activeVenue st with
        | Bybit => setInterval Bybit id st2
        | _ => st2
        end, None).
Proof.
  intros Hinv Halloc Hready. cbn [react]. rewrite Halloc, Hready.
  assert (Hlive : live (sockets st id) = true) by (unfold live; now rewrite Hready).
  destruct (invariant_current_live id Hinv Hlive) as (Hcur & Hcl & Hven & Hlt).
  pose proof (inv_history Hinv id) as Hhist. unfold history in Hhist.
  rewrite Hready in Hhist.
  pose proof (inv_connecting Hinv id Hready) as Hcell.
  pose proof (invariant_no_interval Hinv Hcur Hcell) as Hnil.
  split; [exact Hven |]. split; [exact Hnil |].
  rewrite Hven. unfold onopen.
  change (hooks (set_readyState id OPEN st) (activeVenue st))
    with (hooks st (activeVenue st)).
  rewrite Hcur. unfold send.
  change (sockets (set_readyState id OPEN st) id) with
    (if Nat.eqb id id
     then mkSocket (socket_venue (sockets st id)) OPEN (pingInterval (sockets st id))
            (sent (sockets st id))
     else sockets st id).
  rewrite Nat.eqb_refl. cbn [readyState socket_venue pingInterval sent].
  rewrite Hhist, Hven, Hcell. cbn [app].
  destruct (activeVenue st); reflexivity.
Qed.

(** X14. When a connecting socket opens it is the socket of the active
    venue; its handler sends that venue's subscription as the socket's first
    frame, sets the venue's connection flag and, on Bybit alone, starts the
    one keep-alive interval. *)
Theorem opening_subscribes_and_flags_the_venue (es : list event) (id : nat) :
  allocated id (run es) = true ->
  readyState (sockets (run es) id) = CONNECTING ->
  let st := run es in
  let st' := step st (Opened id) in
  socket_venue (sockets st id) = activeVenue st
  /\ readyState (sockets st' id) = OPEN
  /\ sent (sockets st' id) = [subscribe_text (activeVenue st)]
  /\ isConnected (hooks st' (activeVenue st)) = true
  /\ intervals st'
     = (if Venue_eqb (activeVenue st) Bybit then [(interval_count st, Bybit)] else [])
  /\ pingInterval (sockets st' id)
     = (if Venue_eqb (activeVenue st) Bybit then Some (interval_count st) else None).
Proof.
  intros Halloc Hready. cbv zeta. pose proof (invariant_run es) as Hinv.
  set (st := run es) in *.
  destruct (react_Opened_state id Hinv Halloc Hready) as (Hven & Hnil & Hstate).
  unfold step. rewrite Hstate. cbn [fst].
  split; [exact Hven |].
  destruct (activeVenue st) eqn:Ea;
    cbn [setInterval setIsConnected set_socket set_readyState set_hook
         sockets hooks intervals interval_count Venue_eqb
         readyState sent isConnected pingInterval socket_venue];
    rewrite ?Nat.eqb_refl, ?Hnil;
    cbn [readyState sent isConnected pingInterval socket_venue app];
    repeat split; reflexivity.
Qed.

Lemma opening_subscribes_and_flags_the_venue_witness :
  sent (sockets (step (run [Click Bybit]) (Opened 1%nat)) 1%nat) = [subscribe_text Bybit]
  /\ intervals (step (run [Click Bybit]) (Opened 1%nat)) = [(0%nat, Bybit)].
Proof.
  pose proof (@opening_subscribes_and_flags_the_venue [Click Bybit] 1%nat eq_refl eq_refl)
    as H.
  cbv zeta in H. destruct H as (_ & _ & H3 & _ & H5 & _).
  split; [exact H3 | exact H5].
Defined.

(** *** What changes a book *)

Lemma hooks_close c st : hooks (close c st) = hooks st.
Proof. unfold close. destruct (readyState (sockets st c)); reflexivity. Qed.

Lemma hooks_clearInterval t st : hooks (clearInterval t st) = hooks st.
Proof. now destruct t. Qed.

Lemma hooks_run_cleanup a c st : hooks (run_cleanup a c st) = hooks st.
Proof.
  unfold run_cleanup. rewrite hooks_clearInterval.
  destruct (ws_current (hooks st a)) as [cur|]; [| reflexivity].
  rewrite hooks_close. unfold send.
  destruct (readyState (sockets st cur)); reflexivity.
Qed.

Lemma hooks_cleanup_of a st : hooks (cleanup_of a st) = hooks st.
Proof.
  unfold cleanup_of. destruct (cleanup (hooks st a)); [apply hooks_run_cleanup | reflexivity].
Qed.

Lemma run_effect_keeps_data v st w :
  orderbook (hooks (run_effect v st) w) = orderbook (hooks st w)
  /\ isConnected (hooks (run_effect v st) w) = isConnected (hooks st w).
Proof.
  unfold run_effect. destruct (Venue_eqb v (activeVenue st)); fields.
  - destruct (Venue_eqb v w) eqn:E; [apply Venue_eqb_eq in E; subst w |]; auto.
  - destruct (Venue_eqb v w) eqn:E; [apply Venue_eqb_eq in E; subst w; fields; auto |].
    destruct (ws_current (hooks st v)); [rewrite hooks_close |]; auto.
Qed.

Lemma effects_keep_data vs st w :
  orderbook (hooks (fold_left (fun s v => run_effect v s) vs st) w) = orderbook (hooks st w)
  /\ isConnected (hooks (fold_left (fun s v => run_effect v s) vs st) w)
     = isConnected (hooks st w).
Proof.
  revert st. induction vs as [|v vs IH]; intros st; cbn [fold_left]; [auto |].
  destruct (IH (run_effect v st)) as [H1 H2]. rewrite H1, H2.
  apply run_effect_keeps_data.
Qed.

Lemma cleanups_keep_hooks vs st :
  hooks (fold_left (fun s v => cleanup_of v s) vs st) = hooks st.
Proof.
  revert st. induction vs as [|v vs IH]; intros st; cbn [fold_left]; [reflexivity |].
  rewrite IH. apply hooks_cleanup_of.
Qed.

Lemma setActiveVenue_keeps_data venue st w :
  orderbook (hooks (setActiveVenue venue st) w) = orderbook (hooks st w)
  /\ isConnected (hooks (setActiveVenue venue st) w) = isConnected (hooks st w).
Proof.
  unfold setActiveVenue. destruct (Venue_eqb venue (activeVenue st)); [auto |].
  match goal with
  | |- context [fold_left _ ?vs (fold_left _ ?vs ?s1)] =>
      destruct (effects_keep_data vs (fold_left (fun s v => cleanup_of v s) vs s1) w)
        as [H1 H2]
  end.
  rewrite H1, H2, cleanups_keep_hooks. auto.
Qed.

Lemma setIsConnected_keeps_book venue b st w :
  orderbook (hooks (setIsConnected venue b st) w) = orderbook (hooks st w).
Proof.
  unfold setIsConnected. fields.
  destruct (Venue_eqb venue w) eqn:E; [apply Venue_eqb_eq in E; subst w |]; reflexivity.
Qed.

(** X15. Switching venue changes no hook's book and no connection flag: the
    page then shows the book the chosen venue's hook last received (the
    empty book if it never received one), not a book of the new
    connection. *)
Theorem switching_venue_shows_the_book_last_received
  (st : State) (venue v : Venue) :
  currentOrderbook (step st (Click venue)) = orderbook (hooks st venue)
  /\ orderbook (hooks (step st (Click venue)) v) = orderbook (hooks st v)
  /\ isConnected (hooks (step st (Click venue)) v) = isConnected (hooks st v).
Proof.
  unfold step, currentOrderbook. cbn [react fst].
  split; [| apply setActiveVenue_keeps_data].
  assert (Ha : activeVenue (setActiveVenue venue st) = venue).
  { unfold setActiveVenue. destruct (Venue_eqb venue (activeVenue st)) eqn:E.
    - apply Venue_eqb_eq in E. auto.
    - assert (Hc : forall vs s, activeVenue (fold_left (fun s v => cleanup_of v s) vs s)
                                = activeVenue s).
      { induction vs as [|x vs IH]; intros s; cbn [fold_left]; [reflexivity |].
        rewrite IH. unfold cleanup_of. destruct (cleanup (hooks s x)); [| reflexivity].
        unfold run_cleanup.
        assert (Hci : forall t y, activeVenue (clearInterval t y) = activeVenue y)
          by (intros [t|] y; reflexivity).
        rewrite Hci. destruct (ws_current (hooks s x)) as [cur|]; [| reflexivity].
        assert (Hcl : forall y, activeVenue (close cur y) = activeVenue y)
          by (intros y; unfold close; destruct (readyState (sockets y cur)); reflexivity).
        rewrite Hcl. unfold send. destruct (readyState (sockets s cur)); reflexivity. }
      assert (He : forall vs s, activeVenue (fold_left (fun s v => run_effect v s) vs s)
                                = activeVenue s).
      { induction vs as [|x vs IH]; intros s; cbn [fold_left]; [reflexivity |].
        rewrite IH. unfold run_effect. destruct (Venue_eqb x (activeVenue s)); fields;
          [reflexivity |].
        destruct (ws_current (hooks s x)) as [cur|]; [| reflexivity].
        unfold close; destruct (readyState (sockets s cur)); reflexivity. }
      rewrite He, Hc. reflexivity. }
  rewrite Ha. apply setActiveVenue_keeps_data.
Qed.

(** X16. A venue's book changes in one way only: a frame arrives on the
    open socket held by the hook of the active venue, and the book becomes
    what that venue's message handler makes of the frame.  Books of the
    venues that are not shown never change. *)
Theorem a_book_changes_only_by_a_frame_of_the_active_venue
  (es : list event) (e : event) (v : Venue) :
  orderbook (hooks (step (run es) e) v) = orderbook (hooks (run es) v)
  \/ exists id raw book,
       e = Message id raw
       /\ v = activeVenue (run es)
       /\ ws_current (hooks (run es) v) = Some id
       /\ readyState (sockets (run es) id) = OPEN
       /\ Adapters.onmessage v (orderbook (hooks (run es) v)) raw = Ok book
       /\ orderbook (hooks (step (run es) e) v) = book.
Proof.
  pose proof (invariant_run es) as Hinv. set (st := run es) in *.
  destruct e as [venue | id | id raw | id | id | id | timer]; unfold step.
  - left. apply setActiveVenue_keeps_data.
  - left. destruct (allocated id st) eqn:Halloc; [| cbn [react]; now rewrite Halloc].
    destruct (readyState (sockets st id)) eqn:Hready;
      try (cbn [react]; now rewrite Halloc, Hready).
    destruct (react_Opened_state id Hinv Halloc Hready) as (_ & _ & Hstate).
    rewrite Hstate. cbn [fst].
    destruct (activeVenue st); cbv zeta; cbn [fst setInterval set_socket hooks];
      rewrite setIsConnected_keeps_book; reflexivity.
  - cbn [react].
    destruct (allocated id st) eqn:Halloc; [| now left].
    destruct (readyState (sockets st id)) eqn:Hready; try now left.
    assert (Hlive : live (sockets st id) = true) by (unfold live; now rewrite Hready).
    destruct (invariant_current_live id Hinv Hlive) as (Hcur & _ & Hven & _).
    rewrite Hven. unfold Session.onmessage.
    destruct (Adapters.onmessage (activeVenue st) _ raw) as [book | err] eqn:Hmsg;
      cbn [fst]; [| now left].
    unfold Session.setOrderbook. fields.
    destruct (Venue_eqb (activeVenue st) v) eqn:E; [| now left].
    apply Venue_eqb_eq in E. subst v. right. exists id, raw, book. auto 10.
  - left. cbn [react]. destruct (allocated id st); [| reflexivity].
    destruct (readyState (sockets st id)); cbn [fst]; try reflexivity;
      unfold onerror; rewrite setIsConnected_keeps_book; reflexivity.
  - left. cbn [react]. destruct (allocated id st); [| reflexivity].
    destruct (readyState (sockets st id)); reflexivity.
  - left. cbn [react]. destruct (allocated id st); [| reflexivity].
    destruct (readyState (sockets st id)); cbn [fst]; try reflexivity;
      unfold onclose; rewrite hooks_clearInterval, setIsConnected_keeps_book; reflexivity.
  - left. cbn [react]. destruct (find _ (intervals st)) as [[t w]|]; [| reflexivity].
    cbn [fst]. unfold ping_callback.
    destruct (ws_current (hooks st w)) as [cur|]; [| reflexivity].
    unfold send. destruct (readyState (sockets st cur)); reflexivity.
Qed.

(** X17. The close event of a socket that was replaced still runs the
    handler of its hook: when it arrives after the venue's new socket has
    opened, the venue's connection flag is cleared although the socket in the
    hook's ref stays open. *)
Theorem late_close_of_a_replaced_socket_clears_the_flag
  (es : list event) (old cur : nat) :
  allocated old (run es) = true ->
  readyState (sockets (run es) old) = CLOSING ->
  socket_venue (sockets (run es) old) = activeVenue (run es) ->
  ws_current (hooks (run es) (activeVenue (run es))) = Some cur ->
  readyState (sockets (run es) cur) = OPEN ->
  let st' := step (run es) (Closed old) in
  isConnected (hooks st' (activeVenue st')) = false
  /\ ws_current (hooks st' (activeVenue st')) = Some cur
  /\ readyState (sockets st' cur) = OPEN.
Proof.
  intros Halloc Hold Hven Hcur Hopen. cbv zeta. set (st := run es) in *.
  unfold step. cbn [react]. rewrite Halloc, Hold. cbn [fst]. unfold onclose.
  assert (Hne : Nat.eqb old cur = false).
  { apply Nat.eqb_neq. intros ->. congruence. }
  assert (Hci : forall t y, activeVenue (clearInterval t y) = activeVenue y)
    by (intros [t|] y; reflexivity).
  rewrite Hci, hooks_clearInterval, sockets_clearInterval, Hven.
  cbn [setIsConnected set_readyState set_socket set_hook hooks sockets activeVenue].
  rewrite Venue_eqb_refl, Hne. cbn [isConnected ws_current]. auto.
Qed.

Lemma late_close_of_a_replaced_socket_clears_the_flag_witness :
  let st' := step (run [Click Bybit; Click OKX; Opened 2%nat]) (Closed 0%nat) in
  isConnected (hooks st' (activeVenue st')) = false
  /\ ws_current (hooks st' (activeVenue st')) = Some 2%nat
  /\ readyState (sockets st' 2%nat) = OPEN.
Proof.
  exact (@late_close_of_a_replaced_socket_clears_the_flag
           [Click Bybit; Click OKX; Opened 2%nat] 0%nat 2%nat
           eq_refl eq_refl eq_refl eq_refl eq_refl).
Defined.

Lemma send_keeps_sockets_live cur text st st' :
  send cur text st = inl st' ->
  socket_count st' = socket_count st
  /\ forall id, live (sockets st' id) = true -> live (sockets st id) = true.
Proof.
  unfold send. destruct (readyState (sockets st cur)) eqn:E; intros H; inversion H; subst;
    split; auto.
  intros id. cbn [sockets set_socket]. destruct (Nat.eqb cur id) eqn:En; auto.
  apply Nat.eqb_eq in En. subst id. intros _. unfold live. now rewrite E.
Qed.

Lemma close_keeps_sockets_live cur st :
  socket_count (close cur st) = socket_count st
  /\ forall id, live (sockets (close cur st) id) = true -> live (sockets st id) = true.
Proof.
  unfold close. destruct (readyState (sockets st cur)) eqn:E; split; auto;
    intros id; cbn [sockets set_socket set_readyState];
    destruct (Nat.eqb cur id) eqn:En; auto; discriminate.
Qed.

(** X18. Nothing but a click on the tab of another venue opens a
    connection: after any other event no socket has been created and no
    socket is live that was not live before.  A connection that failed or
    was closed by the exchange is not opened again, and a click on the tab
    of the venue shown changes nothing. *)
Theorem only_a_switch_opens_a_connection (st : State) (e : event) :
  (forall venue, e = Click venue -> venue = activeVenue st) ->
  socket_count (step st e) = socket_count st
  /\ (forall id, live (sockets (step st e) id) = true -> live (sockets st id) = true)
  /\ (forall venue, e = Click venue -> step st e = st).
Proof.
  intros Hclick. unfold step.
  destruct e as [venue | id | id raw | id | id | id | timer]; cbn [react].
  - rewrite (Hclick venue eq_refl). unfold setActiveVenue. rewrite Venue_eqb_refl.
    cbn [fst]. auto.
  - split; [| split; [| discriminate]];
      destruct (allocated id st); auto;
      destruct (readyState (sockets st id)) eqn:Hready; auto.
    + unfold onopen.
      destruct (ws_current (hooks (set_readyState id OPEN st) _)) as [cur|]; [| reflexivity].
      destruct (send cur _ _) as [st1 | f] eqn:Hsend; [| reflexivity].
      apply send_keeps_sockets_live in Hsend. destruct Hsend as [Hc _].
      destruct (socket_venue (sockets st id)); cbn [fst]; exact Hc.
    + assert (Hfirst : forall i, live (sockets (set_readyState id OPEN st) i) = true ->
                                 live (sockets st i) = true).
      { intros i. cbn [sockets set_socket set_readyState].
        destruct (Nat.eqb id i) eqn:En; auto.
        apply Nat.eqb_eq in En. subst i. intros _. unfold live. now rewrite Hready. }
      unfold onopen.
      destruct (ws_current (hooks (set_readyState id OPEN st) _)) as [cur|]; [| exact Hfirst].
      destruct (send cur _ _) as [st1 | f] eqn:Hsend; [| exact Hfirst].
      apply send_keeps_sockets_live in Hsend. destruct Hsend as [_ Hl].
      intros i Hi. apply Hfirst, Hl.
      destruct (socket_venue (sockets st id)); cbn [fst] in Hi; try exact Hi.
      revert Hi. cbn [setInterval setIsConnected set_socket set_hook sockets].
      destruct (Nat.eqb id i) eqn:En; auto.
      apply Nat.eqb_eq in En. subst i. unfold live. cbn [readyState]. auto.
  - split; [| split; [| discriminate]];
      destruct (allocated id st); auto;
      destruct (readyState (sockets st id)); auto;
      unfold Session.onmessage; destruct (Adapters.onmessage _ _ raw); auto.
  - split; [| split; [| discriminate]];
      destruct (allocated id st); auto;
      destruct (readyState (sockets st id)); auto.
  - split; [| split; [| discriminate]];
      destruct (allocated id st); auto;
      destruct (readyState (sockets st id)) eqn:Hready; auto.
    intros i. cbn [fst sockets set_socket set_readyState].
    destruct (Nat.eqb id i) eqn:En; auto. discriminate.
  - split; [| split; [| discriminate]];
      destruct (allocated id st); auto;
      destruct (readyState (sockets st id)) eqn:Hready; auto;
      cbn [fst]; unfold onclose;
      try (destruct (pingInterval _); reflexivity);
      rewrite sockets_clearInterval; intros i;
      cbn [setIsConnected set_hook sockets set_socket set_readyState];
      destruct (Nat.eqb id i) eqn:En; auto; discriminate.
  - split; [| split; [| discriminate]];
      destruct (find _ (intervals st)) as [[t w]|]; auto; cbn [fst];
      unfold ping_callback;
      destruct (ws_current (hooks st w)) as [cur|]; auto;
      destruct (readyState (sockets st cur)) eqn:Hready; auto;
      destruct (send cur _ st) as [st1 | f] eqn:Hsend; auto;
      apply send_keeps_sockets_live in Hsend; apply Hsend.
Qed.

Lemma only_a_switch_opens_a_connection_witness :
  live (sockets (run []) 0%nat) = true
  /\ live (sockets (step (run []) (Closed 0%nat)) 0%nat) = false
  /\ socket_count (step (step (run []) (Closed 0%nat)) (Click OKX)) = 1%nat.
Proof.
  split; [reflexivity |]. split; [reflexivity |].
  assert (H : forall venue, Click OKX = Click venue ->
                            venue = activeVenue (step (run []) (Closed 0%nat))).
  { intros venue E. inversion E. reflexivity. }
  exact (proj1 (@only_a_switch_opens_a_connection
                  (step (run []) (Closed 0%nat)) (Click OKX) H)).
Defined.

(** X19. A tick of the keep-alive interval sends one ping on the socket in
    the Bybit hook's ref when that socket is open, and nothing when it is
    closing or closed; no other socket's frames change. *)
Theorem tick_pings_the_open_Bybit_socket (es : list event) (timer : nat) (v : Venue) :
  List.In (timer, v) (intervals (run es)) ->
  exists c,
    v = Bybit
    /\ ws_current (hooks (run es) Bybit) = Some c
    /\ sent (sockets (step (run es) (Tick timer)) c)
       = (if live (sockets (run es) c)
          then (sent (sockets (run es) c) ++ [ping_text])%list
          else sent (sockets (run es) c))
    /\ forall id, id <> c ->
                  sent (sockets (step (run es) (Tick timer)) id) = sent (sockets (run es) id).
Proof.
  intros Hin. pose proof (invariant_run es) as Hinv. set (st := run es) in *.
  destruct (inv_intervals Hinv timer v Hin) as (Hv & Ha & _ & c & Hc & Hp). subst v.
  exists c. split; [reflexivity |]. split; [exact Hc |].
  assert (Hfind : find (fun tv => Nat.eqb (fst tv) timer) (intervals st)
                  = Some (timer, Bybit)).
  { destruct (find _ (intervals st)) as [[t w]|] eqn:E.
    - apply find_some in E. destruct E as [E1 E2]. cbn in E2.
      apply Nat.eqb_eq in E2. subst t.
      destruct (inv_intervals Hinv timer w E1) as (-> & _). reflexivity.
    - exfalso. apply (find_none _ _ E) in Hin. cbn in Hin.
      rewrite Nat.eqb_refl in Hin. discriminate. }
  unfold step. cbn [react]. rewrite Hfind. cbn [fst]. unfold ping_callback. rewrite Hc.
  assert (Hnc : readyState (sockets st c) <> CONNECTING).
  { intros E. apply (inv_connecting Hinv) in E. congruence. }
  unfold live, send.
  destruct (readyState (sockets st c)) eqn:Hready; try contradiction; split; auto.
  - cbn [sockets set_socket]. rewrite Nat.eqb_refl. reflexivity.
  - intros id Hid. cbn [sockets set_socket].
    destruct (Nat.eqb c id) eqn:E; [apply Nat.eqb_eq in E; congruence | reflexivity].
Qed.

Lemma tick_pings_the_open_Bybit_socket_witness :
  exists c,
    Bybit = Bybit
    /\ ws_current (hooks (run [Click Bybit; Opened 1%nat]) Bybit) = Some c
    /\ sent (sockets (step (run [Click Bybit; Opened 1%nat]) (Tick 0%nat)) c)
       = (if live (sockets (run [Click Bybit; Opened 1%nat]) c)
          then (sent (sockets (run [Click Bybit; Opened 1%nat]) c) ++ [ping_text])%list
          else sent (sockets (run [Click Bybit; Opened 1%nat]) c))
    /\ forall id, id <> c ->
                  sent (sockets (step (run [Click Bybit; Opened 1%nat]) (Tick 0%nat)) id)
                  = sent (sockets (run [Click Bybit; Opened 1%nat]) id).
Proof.
  exact (@tick_pings_the_open_Bybit_socket [Click Bybit; Opened 1%nat] 0%nat Bybit
           (or_introl eq_refl)).
Defined.

(** ** The tables and the chart *)

Import View.

Lemma running_total_well_sized (levels : list Level) :
  forall c : Qc,
    (0 <= c)%Qc ->
    well_sized levels = true ->
    exists T,
      fold_left (fun acc curr => add acc (level_size curr)) levels (Fin c) = Fin T
      /\ (c <= T)%Qc.
Proof.
  induction levels as [|level rest IH]; intros c Hc Hs.
  - exists c. split; [reflexivity | apply Qcle_refl].
  - apply well_sized_cons in Hs. destruct Hs as [(s & Hs & Hs0) Hrest].
    cbn [fold_left]. rewrite Hs. cbn [add].
    destruct (IH (c + s)%Qc) as (T & HT & Hle); [qc_order | exact Hrest |].
    exists T. split; [exact HT | qc_order].
Qed.

(** Every row carries a running total between the total before the table's
    first row and the total of the whole table. *)
Lemma rows_from_bounds (maxC : number) (simulated : Z -> bool) (levels : list Level) :
  forall (index : Z) (c T : Qc),
    (0 <= c)%Qc ->
    well_sized levels = true ->
    fold_left (fun acc curr => add acc (level_size curr)) levels (Fin c) = Fin T ->
    forall row,
      List.In row (rows_from maxC simulated levels index (Fin c)) ->
      exists x,
        row_cumulative row = Fin x /\ (c <= x)%Qc /\ (x <= T)%Qc
        /\ row_percentage row = mul (div (Fin x) maxC) (of_Z 100).
Proof.
  induction levels as [|level rest IH]; intros index c T Hc Hs HT row Hin.
  - destruct Hin.
  - apply well_sized_cons in Hs. destruct Hs as [(s & Hs & Hs0) Hrest].
    cbn [fold_left] in HT. cbn [rows_from] in Hin. cbv zeta in Hin.
    rewrite Hs in HT, Hin. cbn [add] in HT, Hin.
    destruct (running_total_well_sized rest (c := c + s)) as (T' & HT' & Hle);
      [qc_order | exact Hrest |].
    assert (T' = T) by congruence. subst T'.
    destruct Hin as [<- | Hin].
    + exists (c + s)%Qc. cbn. repeat split; auto; qc_order.
    + destruct (IH (index + 1)%Z (c + s)%Qc T) with (row := row) as (x & H1 & H2 & H3 & H4);
        auto; [qc_order |].
      exists x. repeat split; auto. qc_order.
Qed.

Lemma rows_from_last (maxC : number) (simulated : Z -> bool) (levels : list Level) :
  forall (index : Z) (c T : Qc),
    (0 <= c)%Qc ->
    well_sized levels = true ->
    levels <> [] ->
    fold_left (fun acc curr => add acc (level_size curr)) levels (Fin c) = Fin T ->
    exists row,
      List.In row (rows_from maxC simulated levels index (Fin c))
      /\ row_percentage row = mul (div (Fin T) maxC) (of_Z 100).
Proof.
  induction levels as [|level rest IH]; intros index c T Hc Hs Hne HT; [congruence |].
  apply well_sized_cons in Hs. destruct Hs as [(s & Hs & Hs0) Hrest].
  cbn [fold_left] in HT. cbn [rows_from]. cbv zeta.
  rewrite Hs in *. cbn [add] in *.
  destruct rest as [|next rest'].
  - cbn [fold_left] in HT. inversion HT; subst T.
    eexists. split; [left; reflexivity | reflexivity].
  - destruct (IH (index + 1)%Z (c + s)%Qc T) as (row & Hin & Hp); auto;
      [qc_order | discriminate |].
    exists row. split; [right; exact Hin | exact Hp].
Qed.

Lemma max_Fin (a b m : Qc) :
  View.max (Fin a) (Fin b) = Fin m -> (a <= m)%Qc /\ (b <= m)%Qc /\ (m = a \/ m = b).
Proof.
  unfold View.max. destruct (ltb (Fin a) (Fin b)) eqn:E; intros H; inversion H; subst m.
  - apply ltb_Fin in E. repeat split; auto; [apply Qclt_le_weak, E | apply Qcle_refl].
  - apply ltb_Fin_false in E. repeat split; auto. apply Qcle_refl.
Qed.

Lemma shown_total_well_sized (levels : list Level) :
  well_sized (firstn 15 levels) = true ->
  exists T, shown_total levels = Fin T /\ (0 <= T)%Qc.
Proof.
  intros Hs. unfold shown_total. change zero with (Fin 0%Qc).
  apply running_total_well_sized; [apply Qcle_refl | exact Hs].
Qed.

Lemma full_bar (m : Qc) : (0 < m)%Qc -> mul (div (Fin m) (Fin m)) (of_Z 100) = of_Z 100.
Proof.
  intros Hm. rewrite (div_Fin m Hm). unfold of_Z. cbn [mul]. f_equal.
  assert (Hne : m <> 0%Qc) by (intros ->; exact (Qclt_not_eq _ _ Hm eq_refl)).
  field. exact Hne.
Qed.

(** X20. While the levels shown (the first fifteen of each side) have finite
    sizes that are not negative and at least one is positive, the bar of
    every row of both tables is between 0 and 100 percent wide, and the last
    row of the side with the larger total is exactly 100 percent wide. *)
Theorem order_book_bars_stay_within_the_row
  (book : Book) (order : option FormData) (m : Qc) :
  well_sized (firstn 15 (bids book)) = true ->
  well_sized (firstn 15 (asks book)) = true ->
  maxCumulative book = Fin m ->
  (0 < m)%Qc ->
  (forall row,
      List.In row (bid_rows book order ++ ask_rows book order) ->
      leb zero (row_percentage row) = true
      /\ leb (row_percentage row) (of_Z 100) = true)
  /\ exists row,
       List.In row (bid_rows book order ++ ask_rows book order)
       /\ row_percentage row = of_Z 100.
Proof.
  intros Hb Ha Hmax Hm.
  destruct (shown_total_well_sized _ Hb) as (Tb & HTb & HTb0).
  destruct (shown_total_well_sized _ Ha) as (Ta & HTa & HTa0).
  unfold maxCumulative in Hmax. rewrite HTb, HTa in Hmax.
  destruct (max_Fin _ _ Hmax) as (Hbm & Ham & Hwhich).
  assert (Hmax' : maxCumulative book = Fin m)
    by (unfold maxCumulative; rewrite HTb, HTa; exact Hmax).
  unfold shown_total in HTb, HTa. change zero with (Fin 0%Qc) in HTb, HTa.
  split.
  - intros row Hin. apply in_app_or in Hin.
    destruct Hin as [Hin | Hin]; unfold bid_rows, ask_rows in Hin;
      rewrite Hmax' in Hin; change zero with (Fin 0%Qc) in Hin.
    + destruct (@rows_from_bounds _ _ _ 0%Z 0%Qc Tb (Qcle_refl 0) Hb HTb row Hin) as (x & _ & Hx0 & HxT & Hp).
      rewrite Hp. apply fill_percent_bounds; auto. qc_order.
    + destruct (@rows_from_bounds _ _ _ 0%Z 0%Qc Ta (Qcle_refl 0) Ha HTa row Hin) as (x & _ & Hx0 & HxT & Hp).
      rewrite Hp. apply fill_percent_bounds; auto. qc_order.
  - destruct Hwhich as [-> | ->].
    + assert (Hne : firstn 15 (bids book) <> []).
      { intros E. rewrite E in HTb. cbn in HTb. inversion HTb; subst Tb.
        exact (Qclt_not_eq _ _ Hm eq_refl). }
      destruct (@rows_from_last (Fin Tb)
                  (fun index => side_is order "Sell"
                                && (index =? simulatedBidIndex book order)%Z)
                  (firstn 15 (bids book)) 0%Z 0%Qc Tb (Qcle_refl 0) Hb Hne HTb)
        as (row & Hin & Hp).
      exists row. split.
      * apply in_or_app. left. unfold bid_rows. rewrite Hmax'. exact Hin.
      * rewrite Hp. apply full_bar, Hm.
    + assert (Hne : firstn 15 (asks book) <> []).
      { intros E. rewrite E in HTa. cbn in HTa. inversion HTa; subst Ta.
        exact (Qclt_not_eq _ _ Hm eq_refl). }
      destruct (@rows_from_last (Fin Ta)
                  (fun index => side_is order "Buy"
                                && (index =? simulatedAskIndex book order)%Z)
                  (firstn 15 (asks book)) 0%Z 0%Qc Ta (Qcle_refl 0) Ha Hne HTa)
        as (row & Hin & Hp).
      exists row. split.
      * apply in_or_app. right. unfold ask_rows. rewrite Hmax'. exact Hin.
      * rewrite Hp. apply full_bar, Hm.
Qed.

Lemma order_book_bars_stay_within_the_row_witness :
  (forall row,
      List.In row (bid_rows two_level_book None ++ ask_rows two_level_book None) ->
      leb zero (row_percentage row) = true
      /\ leb (row_percentage row) (of_Z 100) = true)
  /\ exists row,
       List.In row (bid_rows two_level_book None ++ ask_rows two_level_book None)
       /\ row_percentage row = of_Z 100.
Proof.
  apply (@order_book_bars_stay_within_the_row two_level_book None (Q2Qc 3)).
  - reflexivity.
  - reflexivity.
  - apply eqb_eq. vm_compute. reflexivity.
  - reflexivity.
Defined.

(** X21. When the levels shown have finite sizes that are not negative and
    none is positive (all are zero, or both sides are empty), the width of
    every bar is [NaN] percent: the division by the largest total is
    unguarded. *)
Theorem order_book_bars_are_NaN_without_size
  (book : Book) (order : option FormData) :
  well_sized (firstn 15 (bids book)) = true ->
  well_sized (firstn 15 (asks book)) = true ->
  maxCumulative book = zero ->
  forall row,
    List.In row (bid_rows book order ++ ask_rows book order) ->
    row_percentage row = NaN.
Proof.
  intros Hb Ha Hmax row Hin.
  destruct (shown_total_well_sized _ Hb) as (Tb & HTb & HTb0).
  destruct (shown_total_well_sized _ Ha) as (Ta & HTa & HTa0).
  assert (Hmax' := Hmax). unfold maxCumulative in Hmax'. rewrite HTb, HTa in Hmax'.
  change zero with (Fin 0%Qc) in Hmax'.
  destruct (max_Fin _ _ Hmax') as (Hbm & Ham & _).
  unfold shown_total in HTb, HTa. change zero with (Fin 0%Qc) in HTb, HTa.
  assert (Hzero : forall x : Qc, (0 <= x)%Qc -> (x <= 0)%Qc ->
                                 mul (div (Fin x) zero) (of_Z 100) = NaN).
  { intros x H1 H2. assert (x = 0%Qc) by (apply Qcle_antisym; assumption).
    subst x. reflexivity. }
  apply in_app_or in Hin.
  destruct Hin as [Hin | Hin]; unfold bid_rows, ask_rows in Hin;
    rewrite Hmax in Hin; change (rows_from zero) with (rows_from (Fin 0%Qc)) in Hin;
    change zero with (Fin 0%Qc) in Hin.
  - destruct (@rows_from_bounds _ _ _ 0%Z 0%Qc Tb (Qcle_refl 0) Hb HTb row Hin)
      as (x & _ & Hx0 & HxT & Hp).
    rewrite Hp. apply Hzero; [exact Hx0 | qc_order].
  - destruct (@rows_from_bounds _ _ _ 0%Z 0%Qc Ta (Qcle_refl 0) Ha HTa row Hin)
      as (x & _ & Hx0 & HxT & Hp).
    rewrite Hp. apply Hzero; [exact Hx0 | qc_order].
Qed.

Lemma order_book_bars_are_NaN_without_size_witness :
  exists row,
    List.In row (bid_rows (mkBook [["100"; "0"]] []) None
                 ++ ask_rows (mkBook [["100"; "0"]] []) None)
    /\ row_percentage row = NaN.
Proof.
  eexists. split; [left; reflexivity |].
  apply (@order_book_bars_are_NaN_without_size (mkBook [["100"; "0"]] []) None).
  - reflexivity.
  - reflexivity.
  - apply eqb_eq. vm_compute. reflexivity.
  - left. reflexivity.
Defined.

Lemma rows_from_nth (maxC : number) (simulated : Z -> bool) (levels : list Level) :
  forall (index : Z) (c : number) (n : nat) (row : OrderRow),
    nth_error (rows_from maxC simulated levels index c) n = Some row ->
    isSimulated row = simulated (index + Z.of_nat n)%Z.
Proof.
  induction levels as [|level rest IH]; intros index c n row Hn.
  - destruct n; discriminate.
  - destruct n as [|n]; cbn [rows_from nth_error] in Hn.
    + inversion Hn; subst row. cbn [isSimulated]. f_equal. lia.
    + apply IH in Hn. rewrite Hn. f_equal. lia.
Qed.

Lemma rows_from_highlights (maxC : number) (b : bool) (k : Z) (levels : list Level) :
  forall (index : Z) (c : number),
    let marked :=
      filter isSimulated
        (rows_from maxC (fun i => b && (i =? k)%Z) levels index c) in
    (List.length marked <= 1)%nat
    /\ (b = false -> marked = [])
    /\ ((k < index)%Z -> marked = []).
Proof.
  induction levels as [|level rest IH]; intros index c; cbv zeta.
  - cbn. auto.
  - cbn [rows_from filter isSimulated].
    destruct (IH (index + 1)%Z (add c (level_size level))) as (H1 & H2 & H3).
    cbv zeta in H1, H2, H3.
    destruct (b && (index =? k)%Z) eqn:E.
    + apply andb_prop in E. destruct E as [Eb E]. apply Z.eqb_eq in E.
      rewrite H3 by lia. cbn [List.length]. split; [lia |].
      split; [intros ->; discriminate | lia].
    + split; [exact H1 |]. split; [exact H2 |]. intros Hk. apply H3. lia.
Qed.

(** X22. At most one row of the two tables is highlighted.  A highlighted
    row of the bid table belongs to a Sell and sits at the index the locator
    gives for the bids; one of the ask table belongs to a Buy and sits at
    the index the locator gives for the asks; so a level the locator finds
    beyond the fifteen rows shown is not highlighted at all. *)
Theorem at_most_one_row_is_highlighted (book : Book) (order : option FormData) :
  (List.length (filter isSimulated (bid_rows book order ++ ask_rows book order)) <= 1)%nat
  /\ (forall n row,
        nth_error (bid_rows book order) n = Some row ->
        isSimulated row = true ->
        side_is order "Sell" = true /\ Z.of_nat n = simulatedBidIndex book order)
  /\ (forall n row,
        nth_error (ask_rows book order) n = Some row ->
        isSimulated row = true ->
        side_is order "Buy" = true /\ Z.of_nat n = simulatedAskIndex book order).
Proof.
  split; [| split].
  - rewrite filter_app, length_app. unfold bid_rows, ask_rows.
    destruct (rows_from_highlights (maxCumulative book) (side_is order "Sell")
                (simulatedBidIndex book order) (firstn 15 (bids book)) 0%Z zero)
      as (Hb1 & Hb2 & _).
    destruct (rows_from_highlights (maxCumulative book) (side_is order "Buy")
                (simulatedAskIndex book order) (firstn 15 (asks book)) 0%Z zero)
      as (Ha1 & Ha2 & _).
    cbv zeta in Hb1, Hb2, Ha1, Ha2.
    destruct (side_is order "Sell") eqn:Es.
    + assert (Eb : side_is order "Buy" = false).
      { unfold side_is in *. destruct order as [o|]; [| reflexivity].
        apply String.eqb_eq in Es. rewrite Es. reflexivity. }
      rewrite Eb in *. rewrite (Ha2 eq_refl). cbn [List.length]. lia.
    + rewrite (Hb2 eq_refl). cbn [List.length]. lia.
  - intros n row Hn Hsim. unfold bid_rows in Hn. apply rows_from_nth in Hn.
    rewrite Hsim in Hn. symmetry in Hn. apply andb_prop in Hn.
    destruct Hn as [H1 H2]. apply Z.eqb_eq in H2. split; [exact H1 | lia].
  - intros n row Hn Hsim. unfold ask_rows in Hn. apply rows_from_nth in Hn.
    rewrite Hsim in Hn. symmetry in Hn. apply andb_prop in Hn.
    destruct Hn as [H1 H2]. apply Z.eqb_eq in H2. split; [exact H1 | lia].
Qed.

(** *** The depth chart *)

Lemma chart_step_charted (acc : list Point) (c : number) (level : Level) :
  chart_step (acc, c) level
  = if charted level
    then ((acc ++ [mkPoint (level_price level) (add c (level_size level))])%list,
          add c (level_size level))
    else (acc, c).
Proof. reflexivity. Qed.

(** The points a [reduce] adds: one for each level that is charted, with the
    total of the charted sizes so far. *)
Lemma chart_fold (levels : list Level) :
  forall (acc : list Point) (c : number),
  exists pts,
    fst (fold_left chart_step levels (acc, c)) = (acc ++ pts)%list
    /\ map point_price pts = map level_price (filter charted levels)
    /\ forall n p,
         nth_error pts n = Some p ->
         point_size p
         = fold_left (fun t level => add t (level_size level))
             (firstn (S n) (filter charted levels)) c.
Proof.
  induction levels as [|level rest IH]; intros acc c.
  - exists []. cbn. rewrite app_nil_r. repeat split; auto.
    intros n p Hn. destruct n; discriminate.
  - cbn [fold_left]. rewrite chart_step_charted. cbn [filter].
    destruct (charted level).
    + destruct (IH (acc ++ [mkPoint (level_price level) (add c (level_size level))])%list
                  (add c (level_size level))) as (pts & H1 & H2 & H3).
      exists (mkPoint (level_price level) (add c (level_size level)) :: pts).
      split; [rewrite H1, <- app_assoc; reflexivity |].
      split; [cbn [map point_price]; now rewrite H2 |].
      intros n p Hn. destruct n as [|n]; cbn [nth_error] in Hn.
      * inversion Hn; subst p. cbn. reflexivity.
      * apply H3 in Hn. rewrite Hn. reflexivity.
    + apply IH.
Qed.

(** X23. The chart gets one point for each of the first fifty levels of a
    side whose price and size both parse, in the order the levels are read:
    the asks as they stand in the book, the bids from the last of the fifty
    back to the first.  The size of a point is the sum of the sizes of the
    charted levels read up to it. *)
Theorem chart_points_accumulate_the_levels_read (levels : list Level) :
  let read_asks := filter charted (firstn 50 levels) in
  let read_bids := filter charted (rev (firstn 50 levels)) in
  map point_price (askData levels) = map level_price read_asks
  /\ map point_price (bidData levels) = map level_price read_bids
  /\ (forall n p,
        nth_error (askData levels) n = Some p ->
        point_size p = running_total (firstn (S n) read_asks))
  /\ (forall n p,
        nth_error (bidData levels) n = Some p ->
        point_size p = running_total (firstn (S n) read_bids)).
Proof.
  cbv zeta. unfold askData, bidData, running_total.
  destruct (chart_fold (firstn 50 levels) [] zero) as (pa & Ha1 & Ha2 & Ha3).
  destruct (chart_fold (rev (firstn 50 levels)) [] zero) as (pb & Hb1 & Hb2 & Hb3).
  rewrite Ha1, Hb1. cbn [app]. auto.
Qed.

Lemma add_comm (x y : number) : add x y = add y x.
Proof. destruct x, y; cbn [add]; try reflexivity. f_equal. ring. Qed.

Lemma add_zero_l (x : number) : add zero x = x.
Proof.
  destruct x; try reflexivity. change zero with (Fin 0%Qc). cbn [add]. f_equal. ring.
Qed.

Lemma chart_fold_total (levels : list Level) :
  forall (acc : list Point) (c : number),
    snd (fold_left chart_step levels (acc, c))
    = fold_left (fun t level => add t (level_size level)) (filter charted levels) c.
Proof.
  induction levels as [|level rest IH]; intros acc c; [reflexivity |].
  cbn [fold_left]. rewrite chart_step_charted. cbn [filter].
  destruct (charted level); [| apply IH].
  rewrite IH. reflexivity.
Qed.

(** Read from the last level back to the first, the running total ends at
    the depth of the ladder. *)
Lemma running_total_rev (levels : list Level) : running_total (rev levels) = depth levels.
Proof.
  unfold running_total, depth.
  rewrite <- (fold_left_rev_right (fun level acc => add acc (level_size level))).
  rewrite rev_involutive.
  induction levels as [|level rest IH]; [reflexivity |].
  cbn [fold_right]. rewrite IH. apply add_comm.
Qed.

Lemma filter_rev_charted (levels : list Level) :
  filter charted (rev levels) = rev (filter charted levels).
Proof.
  induction levels as [|level rest IH]; [reflexivity |].
  cbn [rev filter]. rewrite filter_app, IH. cbn [filter].
  destruct (charted level); [reflexivity | now rewrite app_nil_r].
Qed.

(** X24. The two sides of the chart accumulate in opposite directions.  Read
    as asks, a ladder gives its first level, when it is charted, a point with
    that level's own size; read as bids, it gives that level the last point,
    with the total of all the charted sizes of the first fifty levels: the
    bid curve is highest at the best bid. *)
Theorem chart_gives_the_best_bid_the_whole_depth (best : Level) (rest : list Level) :
  charted best = true ->
  hd_error (askData (best :: rest)) = Some (mkPoint (level_price best) (level_size best))
  /\ exists before,
       bidData (best :: rest)
       = (before
          ++ [mkPoint (level_price best)
                (depth (filter charted (firstn 50 (best :: rest))))])%list.
Proof.
  intros Hbest. split.
  - unfold askData. change (firstn 50 (best :: rest)) with (best :: firstn 49 rest).
    cbn [fold_left]. rewrite chart_step_charted, Hbest.
    destruct (chart_fold (firstn 49 rest)
                ([] ++ [mkPoint (level_price best) (add zero (level_size best))])%list
                (add zero (level_size best))) as (pts & H1 & _).
    rewrite H1. cbn [app hd_error]. now rewrite add_zero_l.
  - unfold bidData. change (firstn 50 (best :: rest)) with (best :: firstn 49 rest).
    cbn [rev]. rewrite fold_left_app. cbn [fold_left].
    destruct (fold_left chart_step (rev (firstn 49 rest)) ([], zero)) as [acc c] eqn:E.
    pose proof (chart_fold_total (rev (firstn 49 rest)) [] zero) as Hc.
    rewrite E in Hc. cbn [snd] in Hc.
    rewrite chart_step_charted, Hbest. cbn [fst]. exists acc. do 3 f_equal.
    cbn [filter]. rewrite Hbest. cbn [depth fold_right].
    fold (depth (filter charted (firstn 49 rest))).
    rewrite Hc, filter_rev_charted.
    change (fold_left (fun t level => add t (level_size level))
              (rev (filter charted (firstn 49 rest))) zero)
      with (running_total (rev (filter charted (firstn 49 rest)))).
    rewrite running_total_rev. apply add_comm.
Qed.

Lemma chart_gives_the_best_bid_the_whole_depth_witness :
  hd_error (askData [["99"; "1"]; ["98"; "2"]])
  = Some (mkPoint (level_price ["99"; "1"]) (level_size ["99"; "1"]))
  /\ exists before,
       bidData [["99"; "1"]; ["98"; "2"]]
       = (before
          ++ [mkPoint (level_price ["99"; "1"])
                (depth (filter charted (firstn 50 [["99"; "1"]; ["98"; "2"]])))])%list.
Proof.
  apply (@chart_gives_the_best_bid_the_whole_depth ["99"; "1"] [["98"; "2"]]).
  reflexivity.
Defined.

Lemma chart_fold_length (levels : list Level) :
  List.length (fst (fold_left chart_step levels ([], zero)))
  = List.length (filter charted levels).
Proof.
  destruct (chart_fold levels [] zero) as (pts & H1 & H2 & _).
  rewrite H1. cbn [app].
  rewrite <- (length_map point_price), H2, length_map. reflexivity.
Qed.

(** X25. The depth chart is drawn exactly when each side has, among its
    first fifty levels, one whose price and size both parse; otherwise the
    placeholder is shown, and then no price domain is computed. *)
Theorem chart_is_drawn_iff_both_sides_have_a_charted_level (book : Book) :
  chart_drawn book
  = existsb charted (firstn 50 (bids book)) && existsb charted (firstn 50 (asks book))
  /\ (chart_drawn book = true <-> priceDomain book <> None).
Proof.
  assert (Hlen : forall ls : list Level,
             (List.length (filter charted ls) =? 0)%nat = negb (existsb charted ls)).
  { induction ls as [|l ls IH]; [reflexivity |]. cbn [filter existsb].
    destruct (charted l); [reflexivity | exact IH]. }
  assert (Hrev : forall ls : list Level, existsb charted (rev ls) = existsb charted ls).
  { intros ls. induction ls as [|l ls IH]; [reflexivity |].
    cbn [rev existsb]. rewrite existsb_app, IH. cbn [existsb].
    destruct (charted l), (existsb charted ls); reflexivity. }
  assert (Hdrawn : chart_drawn book
                   = existsb charted (firstn 50 (bids book))
                     && existsb charted (firstn 50 (asks book))).
  { unfold chart_drawn, bidData, askData. rewrite !chart_fold_length, !Hlen, Hrev.
    destruct (existsb charted (firstn 50 (bids book))),
      (existsb charted (firstn 50 (asks book))); reflexivity. }
  split; [exact Hdrawn |].
  unfold chart_drawn, priceDomain.
  rewrite <- (length_rev (askData (asks book))).
  destruct (bidData (bids book)) as [|b bs]; destruct (rev (askData (asks book))) as [|a rs];
    cbn; split; congruence.
Qed.

Lemma leb_refl (x : number) : isNaN x = false -> leb x x = true.
Proof.
  destruct x as [q | | |]; try discriminate; intros _; try reflexivity.
  apply leb_Fin, Qcle_refl.
Qed.

(** X27. A market order simulated on the book that is shown marks the top
    row of the side it consumes: [executeSimulation] gives the order the
    first price of that side, the locator finds that price at index 0, and
    the first row of the opposite table is the highlighted one, provided the
    price parses. *)
Theorem simulated_market_order_marks_the_top_row
  (formData : FormData) (book : Book) (best : Level) (rest : list Level)
  (st : Page.State) :
  orderType formData = "Market" ->
  isNaN (level_price best) = false ->
  let st' := Page.executeSimulation (Page.mkClosure book formData) st in
  (side formData = "Buy" ->
   asks book = best :: rest ->
   exists order row more,
     Page.simulatedOrder st' = Some order
     /\ price order = nth_error best 0
     /\ simulatedAskIndex book (Some order) = 0%Z
     /\ ask_rows book (Some order) = row :: more
     /\ isSimulated row = true)
  /\ (side formData = "Sell" ->
      bids book = best :: rest ->
      exists order row more,
        Page.simulatedOrder st' = Some order
        /\ price order = nth_error best 0
        /\ simulatedBidIndex book (Some order) = 0%Z
        /\ bid_rows book (Some order) = row :: more
        /\ isSimulated row = true).
Proof.
  intros Hmarket Hprice. cbv zeta.
  unfold Page.executeSimulation. cbn [Page.closure_currentOrderbook Page.closure_formData
                                      Page.simulatedOrder].
  split; intros Hside Hbook.
  - assert (Eprice : Page.orderPrice formData book = nth_error best 0).
    { unfold Page.orderPrice. rewrite Hmarket, Hside, Hbook. reflexivity. }
    rewrite Eprice.
    set (order := Page.with_price formData (nth_error best 0)).
    assert (Eindex : simulatedAskIndex book (Some order) = 0%Z).
    { unfold simulatedAskIndex, findSimulatedIndex. rewrite Hbook.
      subst order. cbn [Page.with_price side price]. rewrite Hside.
      cbn [String.eqb Ascii.eqb Bool.eqb]. unfold findIndex. cbn [findIndex_from].
      unfold geb. change (parseFloat_opt (nth_error best 0)) with (level_price best).
      now rewrite leb_refl. }
    assert (Erows : exists row more,
               ask_rows book (Some order) = row :: more /\ isSimulated row = true).
    { unfold ask_rows. rewrite Eindex, Hbook.
      change (firstn 15 (best :: rest)) with (best :: firstn 14 rest).
      cbn [rows_from]. eexists _, _. split; [reflexivity |].
      cbn [isSimulated side_is]. subst order. cbn [Page.with_price side].
      rewrite Hside. reflexivity. }
    destruct Erows as (row & more & E1 & E2).
    exists order, row, more. repeat split; auto.
  - assert (Eprice : Page.orderPrice formData book = nth_error best 0).
    { unfold Page.orderPrice. rewrite Hmarket, Hside, Hbook. reflexivity. }
    rewrite Eprice.
    set (order := Page.with_price formData (nth_error best 0)).
    assert (Eindex : simulatedBidIndex book (Some order) = 0%Z).
    { unfold simulatedBidIndex, findSimulatedIndex. rewrite Hbook.
      subst order. cbn [Page.with_price side price]. rewrite Hside.
      cbn [String.eqb Ascii.eqb Bool.eqb]. unfold findIndex. cbn [findIndex_from].
      change (parseFloat_opt (nth_error best 0)) with (level_price best).
      now rewrite leb_refl. }
    assert (Erows : exists row more,
               bid_rows book (Some order) = row :: more /\ isSimulated row = true).
    { unfold bid_rows. rewrite Eindex, Hbook.
      change (firstn 15 (best :: rest)) with (best :: firstn 14 rest).
      cbn [rows_from]. eexists _, _. split; [reflexivity |].
      cbn [isSimulated side_is]. subst order. cbn [Page.with_price side].
      rewrite Hside. reflexivity. }
    destruct Erows as (row & more & E1 & E2).
    exists order, row, more. repeat split; auto.
Qed.

Lemma simulated_market_order_marks_the_top_row_witness :
  exists order row more,
    Page.simulatedOrder
      (Page.executeSimulation
         (Page.mkClosure two_level_book (mkForm "BTCUSDT" "Market" "Buy" (Some "") "1" "0"))
         (Page.initial two_level_book)) = Some order
    /\ price order = nth_error ["100"; "1"] 0
    /\ simulatedAskIndex two_level_book (Some order) = 0%Z
    /\ ask_rows two_level_book (Some order) = row :: more
    /\ isSimulated row = true.
Proof.
  apply (proj1 (@simulated_market_order_marks_the_top_row
                  (mkForm "BTCUSDT" "Market" "Buy" (Some "") "1" "0") two_level_book
                  ["100"; "1"] [["101"; "2"]] (Page.initial two_level_book)
                  eq_refl eq_refl)); reflexivity.
Defined.

(** ** The requests on the wire *)

(** What [JSON.stringify] writes for a byte, [JSON.parse] reads as that
    byte. *)
Lemma scan_escaped_byte (c : ascii) (rest acc : list ascii) :
  scan_json_string (escape_byte c ++ rest) acc = scan_json_string rest (c :: acc).
Proof. destruct c as [[] [] [] [] [] [] [] []]; reflexivity. Qed.

Lemma scan_escaped (s rest : list ascii) :
  forall acc,
    scan_json_string (flat_map escape_byte s ++ rest) acc
    = scan_json_string rest (rev s ++ acc).
Proof.
  induction s as [|c s IH]; intros acc; [reflexivity |].
  cbn [flat_map rev]. rewrite <- !app_assoc, scan_escaped_byte, IH. reflexivity.
Qed.

Lemma scan_quoted (s : string) (rest acc : list ascii) :
  scan_json_string (flat_map escape_byte (list_ascii_of_string s) ++ dquote :: rest) acc
  = Some (string_of_list_ascii (rev acc ++ list_ascii_of_string s), rest).
Proof.
  rewrite scan_escaped. cbn [scan_json_string]. rewrite Ascii.eqb_refl.
  rewrite rev_app_distr, rev_involutive. reflexivity.
Qed.

(** *** One step of the parser *)

Lemma skip_json_spaces_head (c : ascii) (r : list ascii) :
  is_json_space c = false -> skip_json_spaces (c :: r) = c :: r.
Proof. intros H. cbn [skip_json_spaces]. now rewrite H. Qed.

Lemma expect_here (c : ascii) (r : list ascii) :
  is_json_space c = false -> expect c (c :: r) = Some r.
Proof.
  intros H. unfold expect. rewrite skip_json_spaces_head by exact H.
  now rewrite Ascii.eqb_refl.
Qed.

Lemma expect_other (c d : ascii) (r : list ascii) :
  is_json_space d = false -> Ascii.eqb d c = false -> expect c (d :: r) = None.
Proof.
  intros H E. unfold expect. rewrite skip_json_spaces_head by exact H. now rewrite E.
Qed.

Lemma parse_value_at (f : nat) (c : ascii) (r : list ascii) :
  is_json_space c = false ->
  parse_value (S f) (c :: r)
  = if Ascii.eqb c "{" then
      match expect "}" r with
      | Some r' => Some (VObject [], r')
      | None => parse_members f r []
      end
    else if Ascii.eqb c "[" then
      match expect "]" r with
      | Some r' => Some (VArray [], r')
      | None => parse_elements f r []
      end
    else if Ascii.eqb c dquote then
      match scan_json_string r [] with
      | Some (t, r') => Some (VString t, r')
      | None => None
      end
    else scan_json_literal (c :: r).
Proof.
  intros H. cbn [parse_value]. rewrite skip_json_spaces_head by exact H. reflexivity.
Qed.

Lemma stringify_object (fs : list (string * value)) :
  stringify (VObject fs)
  = Some ("{"%char
            :: join (flat_map (fun kt =>
                                 match snd kt with
                                 | Some t => [member_text (fst kt) t]
                                 | None => []
                                 end)
                       (own_keys_in_order
                          (map (fun kv => (fst kv, stringify (snd kv))) fs)))
            ++ ["}"%char])%list.
Proof.
  cbn [stringify]. do 6 f_equal.
  induction fs as [|[k x] fs IH]; [reflexivity |].
  cbn [map fst snd]. now rewrite IH.
Qed.

Lemma plain_opens (v : value) :
  plain v = true -> exists t, stringify v = Some t /\ opens t.
Proof.
  destruct v as [| | b | n | s | l | fs]; try discriminate; intros _.
  - eexists. split; [reflexivity |]. unfold quote. eexists _, _. repeat split.
  - eexists. split; [reflexivity |]. eexists _, _. repeat split.
  - eexists. split; [apply stringify_object |]. eexists _, _. repeat split.
Qed.

Lemma parse_elements_unfold (f : nat) (s : list ascii) (acc : list value) :
  parse_elements (S f) s acc
  = match parse_value f s with
    | Some (v, r) =>
        match expect "," r with
        | Some r' => parse_elements f r' (v :: acc)
        | None =>
            match expect "]" r with
            | Some r' => Some (VArray (rev (v :: acc)), r')
            | None => None
            end
        end
    | None => None
    end.
Proof. reflexivity. Qed.

Lemma parse_members_unfold (f : nat) (s : list ascii) (acc : list (string * value)) :
  parse_members (S f) s acc
  = match expect dquote s with
    | Some r =>
        match scan_json_string r [] with
        | Some (k, r1) =>
            match expect ":" r1 with
            | Some r2 =>
                match parse_value f r2 with
                | Some (v, r3) =>
                    match expect "," r3 with
                    | Some r4 => parse_members f r4 (set k v acc)
                    | None =>
                        match expect "}" r3 with
                        | Some r4 => Some (VObject (set k v acc), r4)
                        | None => None
                        end
                    end
                | None => None
                end
            | None => None
            end
        | None => None
        end
    | None => None
    end.
Proof. reflexivity. Qed.

(** *** What is written reads back *)

Lemma string_reads_back (s : string) : reads_back (VString s).
Proof.
  split; [reflexivity |]. split.
  - eexists _, _. repeat split.
  - intros rest m Hm. change (text (VString s)) with (quote s) in *.
    destruct m as [|f]; [cbn in Hm; lia |].
    unfold quote. cbn [app]. rewrite parse_value_at by reflexivity.
    change (Ascii.eqb dquote "{") with false.
    change (Ascii.eqb dquote "[") with false.
    rewrite Ascii.eqb_refl. cbv iota.
    rewrite <- app_assoc. cbn [app]. rewrite scan_quoted. cbn [rev app].
    now rewrite string_of_list_ascii_of_string.
Qed.

Lemma join_cons (t : list ascii) (ts : list (list ascii)) :
  ts <> [] -> join (t :: ts) = (t ++ ","%char :: join ts)%list.
Proof. destruct ts; [congruence | reflexivity]. Qed.

Lemma elements_read_back (l : list value) :
  Forall reads_back l ->
  l <> [] ->
  forall (acc : list value) (rest : list ascii) (f : nat),
    (2 * List.length (join (map text l)) + 1 <= f)%nat ->
    parse_elements f (join (map text l) ++ "]"%char :: rest) acc
    = Some (VArray (rev acc ++ l), rest).
Proof.
  induction l as [|x l IH]; [congruence |].
  intros HF _ acc rest f Hf. inversion HF as [|? ? Hx Hl]; subst.
  destruct Hx as (_ & _ & Hparse).
  destruct f as [|f]; [lia |].
  rewrite parse_elements_unfold.
  destruct l as [|y l'].
  - cbn [map join] in *. rewrite Hparse by lia.
    rewrite expect_other by reflexivity. rewrite expect_here by reflexivity.
    reflexivity.
  - cbn [map] in *. rewrite join_cons in * by discriminate.
    rewrite <- app_assoc. cbn [app].
    rewrite length_app in Hf. cbn [List.length] in Hf.
    rewrite Hparse by lia. rewrite expect_here by reflexivity.
    rewrite (IH Hl) by (try discriminate; lia).
    cbn [rev]. now rewrite <- app_assoc.
Qed.

Lemma opens_join (t : list ascii) (ts : list (list ascii)) :
  opens t -> opens (join (t :: ts)).
Proof.
  intros (c & t' & -> & H). destruct ts as [|u ts].
  - exists c, t'. auto.
  - rewrite join_cons by discriminate. exists c. eexists. split; [reflexivity | exact H].
Qed.

Lemma array_reads_back (l : list value) : Forall reads_back l -> reads_back (VArray l).
Proof.
  intros HF.
  assert (Htext : stringify (VArray l)
                  = Some ("["%char :: join (map text l) ++ ["]"%char])%list).
  { cbn [stringify]. do 4 f_equal. apply map_ext_in. intros x Hx.
    rewrite Forall_forall in HF. destruct (HF x Hx) as (E & _). now rewrite E. }
  assert (Et : text (VArray l) = ("["%char :: join (map text l) ++ ["]"%char])%list)
    by (unfold text at 1; now rewrite Htext).
  split; [now rewrite Et |]. split.
  - rewrite Et. eexists _, _. repeat split.
  - intros rest m Hm. rewrite Et in *.
    destruct m as [|f]; [cbn in Hm; lia |].
    cbn [app]. rewrite <- app_assoc. cbn [app].
    rewrite parse_value_at by reflexivity.
    change (Ascii.eqb "[" "{") with false. rewrite Ascii.eqb_refl. cbv iota.
    destruct l as [|x l'].
    + cbn [map join app]. now rewrite expect_here by reflexivity.
    + inversion HF as [|? ? Hx _]; subst. destruct Hx as (_ & Hopen & _).
      destruct (opens_join (map text l') Hopen) as (c & t' & Ej & Hc1 & Hc2 & _).
      change (join (text x :: map text l')) with (join (map text (x :: l'))) in Ej.
      assert (Hnone : expect "]" (join (map text (x :: l')) ++ "]"%char :: rest) = None).
      { rewrite Ej. cbn [app]. now apply expect_other. }
      rewrite Hnone.
      rewrite elements_read_back; auto; [discriminate |].
      cbn [List.length] in Hm. rewrite length_app in Hm. cbn [List.length] in Hm. lia.
Qed.

Lemma member_text_app (k : string) (t rest : list ascii) :
  (member_text k t ++ rest)%list
  = dquote
      :: (flat_map escape_byte (list_ascii_of_string k)
          ++ dquote :: ":"%char :: (t ++ rest))%list.
Proof.
  unfold member_text, quote. cbn [app]. rewrite <- !app_assoc. reflexivity.
Qed.

Lemma set_fresh (A : Type) (k : string) (a : A) (acc : list (string * A)) :
  (forall kv, List.In kv acc -> String.eqb k (fst kv) = false) ->
  set k a acc = (acc ++ [(k, a)])%list.
Proof.
  induction acc as [|[k' a'] acc IH]; intros H; [reflexivity |].
  cbn [set app]. pose proof (H (k', a') (or_introl eq_refl)) as E. cbn [fst] in E.
  rewrite E. rewrite IH; [reflexivity |].
  intros kv Hin. apply H. right; exact Hin.
Qed.

Lemma distinct_app_fresh (l1 : list string) (k : string) (l2 : list string) :
  distinct (l1 ++ k :: l2) = true ->
  forall k', List.In k' l1 -> String.eqb k k' = false.
Proof.
  induction l1 as [|x l1 IH]; intros H k' Hin; [destruct Hin |].
  cbn [app distinct] in H. apply andb_prop in H. destruct H as [Hx Hrest].
  destruct Hin as [<- | Hin]; [| exact (IH Hrest k' Hin)].
  apply negb_true_iff in Hx.
  destruct (String.eqb k x) eqn:E; [| reflexivity].
  apply String.eqb_eq in E. subst x.
  rewrite existsb_app in Hx. cbn [existsb] in Hx. rewrite String.eqb_refl in Hx.
  rewrite orb_true_r in Hx. cbn in Hx. discriminate.
Qed.

Lemma members_read_back (fs : list (string * value)) :
  Forall (fun kv => reads_back (snd kv)) fs ->
  fs <> [] ->
  forall (acc : list (string * value)) (rest : list ascii) (f : nat),
    distinct (map fst acc ++ map fst fs) = true ->
    (2 * List.length (join (map (fun kv => member_text (fst kv) (text (snd kv))) fs)) + 1
     <= f)%nat ->
    parse_members f
      (join (map (fun kv => member_text (fst kv) (text (snd kv))) fs)
       ++ "}"%char :: rest) acc
    = Some (VObject (acc ++ fs), rest).
Proof.
  induction fs as [|[k x] fs IH]; [congruence |].
  intros HF _ acc rest f Hd Hf. inversion HF as [|? ? Hx Hl]; subst.
  cbn [snd] in Hx. destruct Hx as (_ & _ & Hparse).
  destruct f as [|f]; [lia |].
  rewrite parse_members_unfold.
  assert (Hset : set k x acc = (acc ++ [(k, x)])%list).
  { apply set_fresh. intros kv Hin. cbn [map] in Hd.
    apply (distinct_app_fresh _ _ _ Hd). apply in_map, Hin. }
  assert (Hlen : forall t r, List.length (member_text k t ++ r)%list
                             = (List.length (member_text k t) + List.length r)%nat)
    by (intros; apply length_app).
  assert (Hmt : (List.length (text x) < List.length (member_text k (text x)))%nat).
  { unfold member_text. rewrite length_app. cbn [List.length]. lia. }
  destruct fs as [|[k' y] fs'].
  - cbn [map join fst snd] in *. rewrite member_text_app.
    rewrite expect_here by reflexivity. rewrite scan_quoted. cbn [rev app].
    rewrite string_of_list_ascii_of_string.
    rewrite expect_here by reflexivity. rewrite Hparse by lia.
    rewrite expect_other by reflexivity. rewrite expect_here by reflexivity.
    now rewrite Hset.
  - cbn [map fst snd] in *. rewrite join_cons in * by discriminate.
    rewrite <- app_assoc. rewrite member_text_app.
    rewrite Hlen in Hf. cbn [List.length] in Hf.
    rewrite expect_here by reflexivity. rewrite scan_quoted. cbn [rev app].
    rewrite string_of_list_ascii_of_string.
    rewrite expect_here by reflexivity. rewrite Hparse by lia.
    rewrite expect_here by reflexivity. rewrite Hset.
    rewrite (IH Hl).
    + now rewrite <- app_assoc.
    + discriminate.
    + rewrite map_app. cbn [map fst]. rewrite <- app_assoc. exact Hd.
    + lia.
Qed.

Lemma own_keys_plain (A : Type) (fs : list (string * A)) :
  forallb (fun kv => plain_key (fst kv)) fs = true -> own_keys_in_order fs = fs.
Proof.
  intros H. unfold own_keys_in_order.
  assert (Hfold : forall acc,
             fold_left (fun acc kv =>
                          match index_of_key (fst kv) with
                          | Some i => insert_by_index i kv acc
                          | None => acc
                          end) fs acc = acc).
  { revert H. induction fs as [|kv fs IH]; intros H acc; [reflexivity |].
    cbn [forallb] in H. apply andb_prop in H. destruct H as [Hk Hrest].
    cbn [fold_left]. unfold plain_key in Hk.
    destruct (index_of_key (fst kv)); [discriminate |]. apply IH, Hrest. }
  rewrite Hfold. cbn [map app]. clear Hfold.
  induction fs as [|kv fs IH]; [reflexivity |].
  cbn [forallb] in H. apply andb_prop in H. destruct H as [Hk Hrest].
  cbn [filter]. unfold plain_key in Hk.
  destruct (index_of_key (fst kv)); [discriminate |].
  f_equal. apply IH, Hrest.
Qed.

Lemma object_reads_back (fs : list (string * value)) :
  forallb (fun kv => plain_key (fst kv)) fs = true ->
  distinct (map fst fs) = true ->
  Forall (fun kv => reads_back (snd kv)) fs ->
  reads_back (VObject fs).
Proof.
  intros Hkeys Hdistinct HF.
  set (members := map (fun kv => member_text (fst kv) (text (snd kv))) fs).
  assert (Htext : stringify (VObject fs)
                  = Some ("{"%char :: join members ++ ["}"%char])%list).
  { rewrite stringify_object. do 4 f_equal.
    rewrite own_keys_plain
      by (rewrite forallb_forall in *; intros kt Hin; apply in_map_iff in Hin;
          destruct Hin as (kv & <- & Hin); apply Hkeys, Hin).
    subst members. clear Hkeys Hdistinct.
    induction fs as [|kv fs IH]; [reflexivity |].
    inversion HF as [|? ? Hx Hl]; subst. destruct Hx as (E & _).
    cbn [map flat_map fst snd]. rewrite E, (IH Hl). reflexivity. }
  assert (Et : text (VObject fs) = ("{"%char :: join members ++ ["}"%char])%list)
    by (unfold text at 1; now rewrite Htext).
  split; [now rewrite Et |]. split.
  - rewrite Et. eexists _, _. repeat split.
  - intros rest m Hm. rewrite Et in *.
    destruct m as [|f]; [cbn in Hm; lia |].
    cbn [app]. rewrite <- app_assoc. cbn [app].
    rewrite parse_value_at by reflexivity.
    rewrite Ascii.eqb_refl. cbv iota.
    destruct fs as [|[k x] fs'].
    + subst members. cbn [map join app]. now rewrite expect_here by reflexivity.
    + assert (Hnone : expect "}" (join members ++ "}"%char :: rest) = None).
      { subst members. cbn [map fst snd].
        destruct fs' as [|kv' fs''].
        - cbn [map join]. rewrite member_text_app. now apply expect_other.
        - rewrite join_cons by discriminate. rewrite <- app_assoc, member_text_app.
          now apply expect_other. }
      rewrite Hnone. subst members.
      rewrite members_read_back; auto; [discriminate |].
      cbn [List.length] in Hm. rewrite length_app in Hm. cbn [List.length] in Hm. lia.
Qed.

(** Induction on a value through its elements and members. *)
Lemma value_nested_ind (P : value -> Prop) :
  P VUndefined -> P VNull -> (forall b, P (VBool b)) -> (forall n, P (VNumber n)) ->
  (forall s, P (VString s)) ->
  (forall l, Forall P l -> P (VArray l)) ->
  (forall fs, Forall (fun kv => P (snd kv)) fs -> P (VObject fs)) ->
  forall v, P v.
Proof.
  intros Hu Hn Hb Hnum Hs Ha Ho.
  fix IH 1.
  intros [| | b | n | s | l | fs];
    [exact Hu | exact Hn | apply Hb | apply Hnum | apply Hs | |].
  - apply Ha. induction l as [|x l IHl]; constructor; [apply IH | exact IHl].
  - apply Ho. induction fs as [|[k x] fs IHfs]; constructor; [apply IH | exact IHfs].
Qed.

(** The text of a plain value reads back as the value. *)
Lemma parse_stringify (v : value) : plain v = true -> reads_back v.
Proof.
  induction v as [| | b | n | s | l IH | fs IH] using value_nested_ind;
    try discriminate; intros Hplain.
  - apply string_reads_back.
  - apply array_reads_back. cbn [plain] in Hplain.
    rewrite forallb_forall in Hplain. rewrite Forall_forall in *.
    intros x Hx. apply IH; auto.
  - cbn [plain] in Hplain. apply andb_prop in Hplain. destruct Hplain as [H12 H3].
    apply andb_prop in H12. destruct H12 as [H1 H2].
    apply object_reads_back; auto.
    rewrite forallb_forall in H3. rewrite Forall_forall in *.
    intros kv Hkv. apply IH; auto.
Qed.

Lemma JSON_parse_stringify (v : value) :
  plain v = true -> JSON_parse (JSON_stringify v) = Ok v.
Proof.
  intros Hplain. destruct (parse_stringify v Hplain) as (Htext & _ & Hparse).
  unfold JSON_stringify, JSON_parse. rewrite Htext.
  rewrite list_ascii_of_string_of_list_ascii.
  specialize (Hparse [] (2 * List.length (text v) + 2)%nat).
  rewrite app_nil_r in Hparse. rewrite Hparse by lia. reflexivity.
Qed.

(** X26. Every request the hook sends is well-formed JSON that denotes the
    request object: whatever the verb and the instrument, and for each of
    the three venues, [JSON.parse] reads the text [JSON.stringify] writes for
    the subscription or its cancellation back as that object, and likewise
    the Bybit ping. *)
Theorem requests_read_back_as_sent (verb : string) (venue : Venue) (instId : string) :
  JSON_parse (JSON_stringify (request verb venue instId)) = Ok (request verb venue instId)
  /\ JSON_parse (subscribe_text venue) = Ok (subscribe venue (symbol_of venue))
  /\ JSON_parse (unsubscribe_text venue) = Ok (unsubscribe venue (symbol_of venue))
  /\ JSON_parse ping_text = Ok ping.
Proof.
  assert (H : forall verb' inst, plain (request verb' venue inst) = true)
    by (intros; destruct venue; reflexivity).
  split; [| split; [| split]]; apply JSON_parse_stringify; try apply H.
  reflexivity.
Qed.
